(** * FinTrend front end: prediction orchestration, indicators, alert synthesis

    A shallow embedding of the parts of the React front end that decide what
    a forecast and an alert look like:

    - [pages/StockPrediction.jsx]: horizon resolution, the indicator
      functions [computeSMA], [computeEMA], [computeRSI], and the derived
      trend / change / confidence of [runPrediction];
    - [components/PredictionPanel.jsx]: the dashboard copy of the
      confidence formula in [generatePrediction];
    - [pages/Alerts.jsx]: [severityFromPct], the three alert generators of
      [loadAlerts], its final sort, and the [markAsRead] / [deleteAlert]
      list updates;
    - [pages/Watchlist.jsx] and the Settings page: the saved watchlist and
      the saved notification switches that [loadAlerts] reads.

    Numbers.  A JavaScript number is modelled by [JS.num]: a rational, one
    of the two infinities, or NaN.  The operations of [JS] are exact: division
    by zero, arithmetic on [undefined] and comparisons with NaN behave as in
    the language, and a finite result is not rounded.  The code computes in
    IEEE 754 binary64.  [Binary64.round] is its rounding (to nearest, ties to
    even, an infinity on overflow) and [Rounded] holds the indicator functions
    with every operation rounded.  What depends on the rounding is stated on
    [Rounded] at [Binary64.round]; what is stated on the exact operations are
    guards, comparisons, orders and list structure.  The sign of zero is
    outside the model: no division of the embedded code has a divisor that can
    be a negative zero. *)

From Stdlib Require Import ZArith QArith Qabs Qround Qpower List String Bool Lia Lqa.
From Stdlib Require Import Sorted Permutation.
From Stdlib Require PrimFloat SpecFloat FloatOps Uint63.
Import ListNotations.

Local Open Scope Z_scope.

(* ================================================================= *)
(** * Part I: the embedding *)
(* ================================================================= *)

(** ** JavaScript numbers, arrays and the [Math] functions used *)

Module JS.

Inductive num : Type :=
| Fin (q : Q)
| PInf
| NInf
| NaN.

Definition of_Z (z : Z) : num := Fin (inject_Z z).

(** The infinity a non-zero sign selects; [0 * Infinity] and [0 / 0] are NaN. *)
Definition inf_of (c : comparison) : num :=
  match c with Gt => PInf | Lt => NInf | Eq => NaN end.

Definition sgn (q : Q) : comparison := (q ?= 0)%Q.

Definition neg (a : num) : num :=
  match a with
  | Fin q => Fin (- q)%Q
  | PInf => NInf
  | NInf => PInf
  | NaN => NaN
  end.

Definition add (a b : num) : num :=
  match a, b with
  | NaN, _ | _, NaN => NaN
  | Fin x, Fin y => Fin (x + y)%Q
  | PInf, NInf | NInf, PInf => NaN
  | PInf, _ | _, PInf => PInf
  | NInf, _ | _, NInf => NInf
  end.

Definition sub (a b : num) : num := add a (neg b).

Definition mul (a b : num) : num :=
  match a, b with
  | NaN, _ | _, NaN => NaN
  | Fin x, Fin y => Fin (x * y)%Q
  | Fin x, PInf | PInf, Fin x => inf_of (sgn x)
  | Fin x, NInf | NInf, Fin x => inf_of (CompOpp (sgn x))
  | PInf, PInf | NInf, NInf => PInf
  | PInf, NInf | NInf, PInf => NInf
  end.

Definition div (a b : num) : num :=
  match a, b with
  | NaN, _ | _, NaN => NaN
  | Fin x, Fin y => if Qeq_bool y 0 then inf_of (sgn x) else Fin (x / y)%Q
  | Fin _, PInf | Fin _, NInf => Fin 0
  | PInf, Fin y => match sgn y with Lt => NInf | _ => PInf end
  | NInf, Fin y => match sgn y with Lt => PInf | _ => NInf end
  | _, _ => NaN
  end.

(** [a < b]; false as soon as one side is NaN. *)
Definition ltb (a b : num) : bool :=
  match a, b with
  | NaN, _ | _, NaN => false
  | Fin x, Fin y => match (x ?= y)%Q with Lt => true | _ => false end
  | NInf, Fin _ | NInf, PInf | Fin _, PInf => true
  | _, _ => false
  end.

(** [a === b] on numbers. *)
Definition eqb (a b : num) : bool :=
  match a, b with
  | Fin x, Fin y => Qeq_bool x y
  | PInf, PInf | NInf, NInf => true
  | _, _ => false
  end.

Definition gtb (a b : num) : bool := ltb b a.
Definition leb (a b : num) : bool := ltb a b || eqb a b.
Definition geb (a b : num) : bool := leb b a.

(** Truthiness of a number: [0] and NaN are falsy. *)
Definition truthy (a : num) : bool :=
  match a with
  | Fin q => negb (Qeq_bool q 0)
  | NaN => false
  | _ => true
  end.

(** [Number.isFinite]. *)
Definition isFinite (a : num) : bool :=
  match a with Fin _ => true | _ => false end.

(** [x ?? d] where [None] stands for [null] / [undefined]. *)
Definition nullish {A : Type} (x : option A) (d : A) : A :=
  match x with Some v => v | None => d end.

(** [Number(x || 0)] for a numeric or missing [x]. *)
Definition or_zero (x : option num) : num :=
  match x with
  | Some v => if truthy v then v else Fin 0
  | None => Fin 0
  end.

(** [undefined] coerces to NaN in arithmetic. *)
Definition toNumber (x : option num) : num := nullish x NaN.

(** [10 ^ digits] as a rational. *)
Definition pow10 (digits : nat) : Q := inject_Z (10 ^ Z.of_nat digits).

(** The number that [x.toFixed(digits)] writes, read back by [parseFloat]
    or [Number]: the magnitude is rounded to [digits] decimals, a tie going
    up; NaN and the infinities pass through. *)
Definition toFixed_value (digits : nat) (a : num) : num :=
  match a with
  | Fin q =>
      let n := Qfloor (Qabs q * pow10 digits + (1 # 2)) in
      let m := (inject_Z n / pow10 digits)%Q in
      Fin (if Qle_bool 0 q then m else - m)%Q
  | _ => a
  end.

(** *** [Math] *)

Definition Math_abs (a : num) : num :=
  match a with
  | Fin q => Fin (Qabs q)
  | PInf | NInf => PInf
  | NaN => NaN
  end.

Definition Math_max (a b : num) : num :=
  match a, b with
  | NaN, _ | _, NaN => NaN
  | _, _ => if ltb a b then b else a
  end.

Definition Math_min (a b : num) : num :=
  match a, b with
  | NaN, _ | _, NaN => NaN
  | _, _ => if ltb b a then b else a
  end.

(** [Math.pow(a, n)] for a literal natural exponent. *)
Fixpoint Math_pow (a : num) (n : nat) : num :=
  match n with
  | O => Fin 1
  | S n' => mul a (Math_pow a n')
  end.

(** [Math.sqrt], over the square root [r] of non-negative finite numbers. *)
Definition Math_sqrt (r : Q -> Q) (a : num) : num :=
  match a with
  | Fin q => if Qle_bool 0 q then Fin (r q) else NaN
  | PInf => PInf
  | NInf | NaN => NaN
  end.

(** *** Arrays *)

(** [a[i]]: [None] is [undefined]. *)
Definition get {A : Type} (a : list A) (i : Z) : option A :=
  if i <? 0 then None else nth_error a (Z.to_nat i).

Definition length {A : Type} (a : list A) : Z := Z.of_nat (List.length a).

(** A relative index of [slice], clamped into [0 .. length]. *)
Definition rel_index (len k : Z) : Z :=
  if k <? 0 then Z.max (len + k) 0 else Z.min k len.

(** [a.slice(start, end)]. *)
Definition slice {A : Type} (a : list A) (start stop : Z) : list A :=
  let from := rel_index (length a) start in
  let to := rel_index (length a) stop in
  firstn (Z.to_nat (to - from)) (skipn (Z.to_nat from) a).

(** [a.slice(start)]. *)
Definition slice_from {A : Type} (a : list A) (start : Z) : list A :=
  slice a start (length a).

(** [a.reduce((x, y) => x + y, 0)]. *)
Definition sum (a : list num) : num := fold_left add a (Fin 0).

(** [for (let i = lo; i < hi; i++) s = body(i, s)], the bounds being fixed. *)
Fixpoint for_range {S : Type} (n : nat) (i : Z) (body : Z -> S -> S) (s : S) : S :=
  match n with
  | O => s
  | Datatypes.S n' => for_range n' (i + 1) body (body i s)
  end.

Definition for_loop {S : Type} (lo hi : Z) (body : Z -> S -> S) (s : S) : S :=
  for_range (Z.to_nat (hi - lo)) lo body s.

End JS.

(** ** [pages/StockPrediction.jsx] *)

Module StockPrediction.
Import JS.

Definition getPredictionLengthForTimeframe (tf model : string) : Z :=
  if String.eqb tf "1D" then 1
  else if String.eqb tf "3D" then 3
  else if String.eqb tf "1W" then 7
  else if String.eqb tf "2W" then 14
  else if String.eqb tf "1M" then 30
  else 3.

(** The horizon [runPrediction] sends to the backend: the table value, then
    the TimesNet / Transformer limit of three steps. *)
Definition prediction_length (timeframe modelType : string) : Z :=
  let prediction_length := getPredictionLengthForTimeframe timeframe modelType in
  if String.eqb modelType "TIMESNET" then 3
  else if String.eqb modelType "TRANSFORMER"
       then Z.min 3 (Z.max 1 prediction_length)
       else prediction_length.

(** *** Indicators *)

Definition computeSMA (values : option (list num)) (period : Z) : option num :=
  match values with
  | None => None
  | Some values =>
      if length values <? period then None
      else
        let slice := slice_from values (- period) in
        let avg := div (sum slice) (of_Z period) in
        Some avg
  end.

Definition computeEMA (values : option (list num)) (period : Z) : option num :=
  match values with
  | None => None
  | Some values =>
      if length values <? period then None
      else
        let k := div (Fin 2) (of_Z (period + 1)) in
        let ema := div (sum (slice values 0 period)) (of_Z period) in
        Some (for_loop period (length values)
                (fun i ema =>
                   add (mul (toNumber (get values i)) k) (mul ema (sub (Fin 1) k)))
                ema)
  end.

(** One turn of the loop of [computeRSI] on the pair [(gains, losses)]. *)
Definition rsi_step (values : list num) (i : Z) (acc : num * num) : num * num :=
  let '(gains, losses) := acc in
  let diff := sub (toNumber (get values i)) (toNumber (get values (i - 1))) in
  if geb diff (Fin 0) then (add gains diff, losses)
  else (gains, add losses (Math_abs diff)).

Definition computeRSI (values : option (list num)) (period : Z) : option num :=
  match values with
  | None => None
  | Some values =>
      if length values <? period + 1 then None
      else
        let '(gains, losses) :=
          for_loop (length values - period) (length values)
            (rsi_step values) (Fin 0, Fin 0) in
        let avgGain := div gains (of_Z period) in
        let avgLoss := div losses (of_Z period) in
        if eqb avgLoss (Fin 0) then Some (Fin 100)
        else
          let rs := div avgGain avgLoss in
          Some (sub (Fin 100) (div (Fin 100) (add (Fin 1) rs)))
  end.

(** [ema12 != null && ema26 != null ? (ema12 - ema26) : null]. *)
Definition macd_of (ema12 ema26 : option num) : option num :=
  match ema12, ema26 with
  | Some a, Some b => Some (sub a b)
  | _, _ => None
  end.

(** *** [runPrediction] *)

(** A row of the price CSV as the backend returns it; a field is [None] when
    it is missing or null. *)
Record Row : Type := {
  Close : option num;
  Adj_close : option num
}.

(** [Number(d.Close ?? d['Adj close'] ?? 0)]. *)
Definition close_of (d : Row) : num :=
  nullish (Close d) (nullish (Adj_close d) (Fin 0)).

Record PredictRequest : Type := {
  req_symbol : string;
  model_type : string;
  sentiment_type : string;
  num_csvs : Z;
  req_prediction_length : Z
}.

Record PredictResult : Type := {
  symbol : string;
  current_price : option num;
  predictions : option (list num);   (* [None]: not an array *)
  model_info : string
}.

(** The backend, seen from the page; [None] is a call that throws. *)
Record Api : Type := {
  getLatestStockData : string -> option (option Row);
  predict : PredictRequest -> option PredictResult;
  getStockData : string -> Z -> option (list Row)
}.

Inductive Trend : Type := Bullish | Bearish.

(** A technical-indicator cell: [x != null ? Number(x).toFixed(d) : 'N/A']. *)
Inductive cell : Type :=
| NA
| Fixed (v : num) (digits : nat).

Definition show (x : option num) (digits : nat) : cell :=
  match x with
  | Some v => Fixed v digits
  | None => NA
  end.

Record TechnicalIndicators : Type := {
  rsi : cell;
  macd : cell;
  movingAvg50 : cell;
  movingAvg200 : cell
}.

(** What [setPredictionData] receives.  [currentPrice], [predictedPrice]
    and [confidence] hold the number whose [toFixed] text the page shows (a
    falsy price is shown as 0.00); [changePercent] holds
    [Number(changePercent.toFixed(2))], the change rounded to two decimals. *)
Record PredictionData : Type := {
  stock : string;
  currentPrice : num;
  predictedPrice : num;
  confidence : num;
  trend : Trend;
  changePercent : num;
  modelUsed : string;
  timeframe : string;
  technicalIndicators : TechnicalIndicators;
  raw_current_price : num;
  latest_close : num;
  raw_predictions : list num
}.

Definition trend_of (firstPrediction currentPrice : num) : Trend :=
  if gtb firstPrediction currentPrice then Bullish else Bearish.

Definition changePercent_of (firstPrediction currentPrice : num) : num :=
  if gtb currentPrice (Fin 0)
  then mul (div (sub firstPrediction currentPrice) currentPrice) (Fin 100)
  else Fin 0.

(** [currentPrice] of [runPrediction]: the latest close when positive, the
    model's own price otherwise. *)
Definition currentPrice_of (latestClose : num) (result : PredictResult) : num :=
  if gtb latestClose (Fin 0) then latestClose else or_zero (current_price result).

Definition preds_of (result : PredictResult) : list num :=
  nullish (predictions result) [].

Section Sqrt.

(** [Math.sqrt] on non-negative finite numbers. *)
Variable sqrtQ : Q -> Q.

(** Step 3 of [runPrediction]. *)
Definition confidence_of (preds : list num) (currentPrice : num) : num :=
  if (0 <? length preds) && gtb currentPrice (Fin 0)
  then
    let avg := div (sum preds) (of_Z (length preds)) in
    let variance :=
      div (fold_left (fun sum p => add sum (Math_pow (sub p avg) 2)) preds (Fin 0))
          (of_Z (length preds)) in
    Math_max (Fin 50)
      (Math_min (Fin 95)
         (sub (Fin 100)
              (mul (div (Math_sqrt sqrtQ variance) currentPrice) (Fin 100))))
  else Fin 50.

Inductive outcome : Type :=
| Skipped                       (* no stock selected *)
| Failed                        (* a call threw: [setError] *)
| Shown (d : PredictionData).

Definition runPrediction (api : Api) (selectedStock timeframe modelType : string)
  : outcome :=
  if String.eqb selectedStock EmptyString then Skipped
  else
    let prediction_length := prediction_length timeframe modelType in
    match getLatestStockData api selectedStock with
    | None => Failed
    | Some latestRow =>
        let latestClose :=
          match latestRow with Some r => close_of r | None => Fin 0 end in
        match predict api
                {| req_symbol := selectedStock;
                   model_type := modelType;
                   sentiment_type := "nonsentiment";
                   num_csvs := 50;
                   req_prediction_length := prediction_length |} with
        | None => Failed
        | Some result =>
            let currentPrice := currentPrice_of latestClose result in
            let preds := preds_of result in
            let firstPrediction := nullish (get preds 0) currentPrice in
            let lastPrediction :=
              nullish (get preds (length preds - 1)) firstPrediction in
            let trend := trend_of firstPrediction currentPrice in
            let changePercent := changePercent_of firstPrediction currentPrice in
            match getStockData api selectedStock 250 with
            | None => Failed
            | Some hist =>
                let closes :=
                  filter (fun v => isFinite v && gtb v (Fin 0)) (map close_of hist) in
                let ma50 := computeSMA (Some closes) 50 in
                let ma200 := computeSMA (Some closes) 200 in
                let ema12 := computeEMA (Some closes) 12 in
                let ema26 := computeEMA (Some closes) 26 in
                let macd := macd_of ema12 ema26 in
                let rsi := computeRSI (Some closes) 14 in
                let confidence := confidence_of preds currentPrice in
                Shown
                  {| stock := symbol result;
                     currentPrice := currentPrice;
                     predictedPrice := or_zero (Some lastPrediction);
                     confidence := confidence;
                     trend := trend;
                     changePercent := toFixed_value 2 changePercent;
                     modelUsed := modelType;
                     timeframe := timeframe;
                     technicalIndicators :=
                       {| rsi := show rsi 1;
                          macd := show macd 2;
                          movingAvg50 := show ma50 2;
                          movingAvg200 := show ma200 2 |};
                     raw_current_price := or_zero (current_price result);
                     latest_close := latestClose;
                     raw_predictions := preds |}
            end
        end
    end.

End Sqrt.

End StockPrediction.

(** ** [components/PredictionPanel.jsx] *)

Module PredictionPanel.
Import JS.

Inductive Direction : Type := UP | DOWN.

Section Sqrt.

Variable sqrtQ : Q -> Q.

(** The confidence of [generatePrediction]: the same expression as in
    [runPrediction], evaluated without a guard. *)
Definition confidence_of (predictions : list num) (currentPrice : num) : num :=
  let avgPrediction := div (sum predictions) (of_Z (length predictions)) in
  let variance :=
    div (fold_left (fun sum p => add sum (Math_pow (sub p avgPrediction) 2))
           predictions (Fin 0))
        (of_Z (length predictions)) in
  Math_max (Fin 50)
    (Math_min (Fin 95)
       (sub (Fin 100)
            (mul (div (Math_sqrt sqrtQ variance) currentPrice) (Fin 100)))).

End Sqrt.

End PredictionPanel.

(** ** [pages/Alerts.jsx] *)

Module Alerts.
Import JS.

Inductive AlertType : Type := price | sentiment | prediction.

Inductive Severity : Type := high | medium | low.

(** [pct >= 0 ? 'up' : 'down'] and [pct >= 0 ? 'Bullish' : 'Bearish']. *)
Inductive Word : Type := up | down.
Inductive Dir : Type := Bullish | Bearish.

(** The template literals of the three generators, holes kept as data
    ([toFixed] and [Math.round] format the numbers on display). *)
Inductive Title : Type :=
| Title_price (sym : string)                 (* Price update: sym *)
| Title_sentiment (overall : string)         (* overall sentiment detected *)
| Title_prediction (dir : Dir) (sym : string). (* dir prediction (sym) *)

Inductive Message : Type :=
| Msg_price (sym : string) (w : Word) (pctAbs latestClose : num)
| Msg_sentiment (sym overall : string) (score : num)
| Msg_prediction (sym : string) (w : Word) (pctAbs : num).

Record Alert : Type := {
  id : Z;
  type : AlertType;
  severity : Severity;
  stock : string;
  title : Title;
  message : Message;
  read : bool
}.

Definition severityFromPct (pctAbs : num) : Severity :=
  if geb pctAbs (Fin 2) then high
  else if geb pctAbs (Fin 1) then medium
  else low.

(** *** Settings and watchlist read from [localStorage] *)

Record NotificationSettings : Type := {
  emailAlerts : bool;
  priceAlerts : bool;
  sentimentAlerts : bool;
  predictionAlerts : bool;
  newsAlerts : bool;
  weeklyReport : bool
}.

(** The object saved by the Settings page; a key may be missing. *)
Record SavedSettings : Type := {
  saved_emailAlerts : option bool;
  saved_priceAlerts : option bool;
  saved_sentimentAlerts : option bool;
  saved_predictionAlerts : option bool;
  saved_newsAlerts : option bool;
  saved_weeklyReport : option bool
}.

Definition default_settings : NotificationSettings :=
  {| emailAlerts := true;
     priceAlerts := true;
     sentimentAlerts := true;
     predictionAlerts := true;
     newsAlerts := false;
     weeklyReport := true |}.

(** [ns = { ...ns, ...JSON.parse(raw) }]; [None] is an absent or unreadable
    item. *)
Definition load_settings (raw : option SavedSettings) : NotificationSettings :=
  match raw with
  | None => default_settings
  | Some s =>
      {| emailAlerts := nullish (saved_emailAlerts s) (emailAlerts default_settings);
         priceAlerts := nullish (saved_priceAlerts s) (priceAlerts default_settings);
         sentimentAlerts :=
           nullish (saved_sentimentAlerts s) (sentimentAlerts default_settings);
         predictionAlerts :=
           nullish (saved_predictionAlerts s) (predictionAlerts default_settings);
         newsAlerts := nullish (saved_newsAlerts s) (newsAlerts default_settings);
         weeklyReport := nullish (saved_weeklyReport s) (weeklyReport default_settings) |}
  end.

(** [toUpperCase] on a ticker: the ASCII letters a..z are mapped; any other
    character, which [String.prototype.toUpperCase] may change, is left as it
    is. *)
Definition upper_ascii (c : Ascii.ascii) : Ascii.ascii :=
  let n := Ascii.nat_of_ascii c in
  if (Nat.leb 97 n && Nat.leb n 122)%bool then Ascii.ascii_of_nat (n - 32) else c.

Fixpoint toUpperCase (s : string) : string :=
  match s with
  | EmptyString => EmptyString
  | String c s' => String (upper_ascii c) (toUpperCase s')
  end.

(** The symbols of a run.  [watchlist] is the saved array, one optional
    [symbol] per entry; [None] is an absent or unreadable item. *)
Definition run_symbols (watchlist : option (list (option string))) : list string :=
  let symbols :=
    match watchlist with
    | Some wl =>
        filter (fun s => negb (String.eqb s EmptyString))
               (map (fun s => toUpperCase (nullish s EmptyString)) wl)
    | None => []
    end in
  let symbols :=
    if length symbols =? 0 then ["AAPL"; "GOOGL"; "MSFT"]%string else symbols in
  slice symbols 0 8.

(** *** The backend *)

Record News : Type := {
  sentimentScore : option num;
  overallSentiment : option string
}.

(** [None] is a call that throws. *)
Record Api : Type := {
  getStockData : string -> Z -> option (list StockPrediction.Row);
  getLatestNews : string -> Z -> Z -> option News;
  predict : StockPrediction.PredictRequest -> option StockPrediction.PredictResult
}.

Inductive Call : Type :=
| Call_getStockData (sym : string) (limit : Z)
| Call_getLatestNews (sym : string) (days limit : Z)
| Call_predict (req : StockPrediction.PredictRequest).

(** What a run of [loadAlerts] threads through its generators: the id
    counter, the array [built], and the requests sent so far. *)
Record Run : Type := {
  nextId : Z;
  built : list Alert;
  calls : list Call
}.

Definition sent (c : Call) (r : Run) : Run :=
  {| nextId := nextId r; built := built r; calls := calls r ++ [c] |}.

(** [built.push({ id: nextId++, ... })]. *)
Definition push (mk : Z -> Alert) (r : Run) : Run :=
  {| nextId := nextId r + 1; built := built r ++ [mk (nextId r)]; calls := calls r |}.

Definition pct_of (value base : num) : num :=
  if gtb base (Fin 0) then mul (div (sub value base) base) (Fin 100) else Fin 0.

Definition word_of (pct : num) : Word := if geb pct (Fin 0) then up else down.

(** The body of the price generator for one symbol. *)
Definition price_alert (api : Api) (sym : string) (r : Run) : Run :=
  let r := sent (Call_getStockData sym 2) r in
  match getStockData api sym 2 with
  | None => r
  | Some rows =>
      let latest := get rows (length rows - 1) in
      let prev := if 1 <? length rows then get rows (length rows - 2) else None in
      let latestClose :=
        match latest with
        | Some d => StockPrediction.close_of d
        | None => Fin 0
        end in
      let prevClose :=
        match prev with
        | Some d =>
            nullish (StockPrediction.Close d)
                    (nullish (StockPrediction.Adj_close d) latestClose)
        | None => latestClose
        end in
      let pct := pct_of latestClose prevClose in
      let pctAbs := Math_abs pct in
      push (fun i =>
              {| id := i;
                 type := price;
                 severity := severityFromPct pctAbs;
                 stock := sym;
                 title := Title_price sym;
                 message := Msg_price sym (word_of pct) pctAbs latestClose;
                 read := false |}) r
  end.

(** [Number(news?.sentimentScore ?? 0.5)]. *)
Definition score_of (news : News) : num :=
  nullish (sentimentScore news) (Fin (1 # 2)).

(** [String(news?.overallSentiment ?? 'Neutral')]. *)
Definition overall_of (news : News) : string :=
  nullish (overallSentiment news) "Neutral"%string.

(** The body of the sentiment generator for one symbol. *)
Definition sentiment_alert (api : Api) (sym : string) (r : Run) : Run :=
  let r := sent (Call_getLatestNews sym 7 10) r in
  match getLatestNews api sym 7 10 with
  | None => r
  | Some news =>
      let score := score_of news in
      let overall := overall_of news in
      if geb score (Fin (62 # 100)) || leb score (Fin (38 # 100))
      then
        push (fun i =>
                {| id := i;
                   type := sentiment;
                   severity := if leb score (Fin (38 # 100)) then high else medium;
                   stock := sym;
                   title := Title_sentiment overall;
                   message := Msg_sentiment sym overall score;
                   read := false |}) r
      else r
  end.

Definition prediction_request (sym : string) : StockPrediction.PredictRequest :=
  {| StockPrediction.req_symbol := sym;
     StockPrediction.model_type := "LSTM";
     StockPrediction.sentiment_type := "nonsentiment";
     StockPrediction.num_csvs := 50;
     StockPrediction.req_prediction_length := 1 |}.

(** [Number(pred?.current_price ?? 0)]. *)
Definition current_of (pred : StockPrediction.PredictResult) : num :=
  nullish (StockPrediction.current_price pred) (Fin 0).

(** [Array.isArray(pred?.predictions) ? Number(pred.predictions[0]) : current]. *)
Definition p1_of (pred : StockPrediction.PredictResult) : num :=
  match StockPrediction.predictions pred with
  | Some ps => toNumber (get ps 0)
  | None => current_of pred
  end.

(** The body of the prediction generator for one symbol. *)
Definition prediction_alert (api : Api) (sym : string) (r : Run) : Run :=
  let r := sent (Call_predict (prediction_request sym)) r in
  match predict api (prediction_request sym) with
  | None => r
  | Some pred =>
      let current := current_of pred in
      let p1 := p1_of pred in
      let pct := pct_of p1 current in
      let dir := if geb pct (Fin 0) then Bullish else Bearish in
      let pctAbs := Math_abs pct in
      push (fun i =>
              {| id := i;
                 type := prediction;
                 severity := severityFromPct pctAbs;
                 stock := sym;
                 title := Title_prediction dir sym;
                 message := Msg_prediction sym (word_of pct) pctAbs;
                 read := false |}) r
  end.

(** *** The final sort *)

Definition sevRank (s : Severity) : Z :=
  match s with high => 0 | medium => 1 | low => 2 end.

(** The comparator handed to [built.sort]. *)
Definition compare_alerts (a b : Alert) : Z :=
  if negb (Bool.eqb (read a) (read b)) then (if read a then 1 else -1)
  else
    let d := sevRank (severity a) - sevRank (severity b) in
    if d =? 0 then id b - id a else d.

(** [Array.prototype.sort] is stable; on a comparator that is a total
    preorder its result is the stable sorted arrangement, computed here by
    insertion. *)
Fixpoint insert_by {A : Type} (cmp : A -> A -> Z) (x : A) (l : list A) : list A :=
  match l with
  | [] => [x]
  | y :: l' => if cmp x y <=? 0 then x :: l else y :: insert_by cmp x l'
  end.

Fixpoint sort_by {A : Type} (cmp : A -> A -> Z) (l : list A) : list A :=
  match l with
  | [] => []
  | x :: l' => insert_by cmp x (sort_by cmp l')
  end.

(** *** [loadAlerts] *)

(** The generators run one symbol after the other, which is the schedule of
    [Promise.all] in which the requests complete in the order they were
    sent. *)
Definition generate (api : Api) (ns : NotificationSettings) (symbols : list string)
  (r : Run) : Run :=
  let r :=
    if priceAlerts ns
    then fold_left (fun r sym => price_alert api sym r) symbols r
    else r in
  let r :=
    if sentimentAlerts ns || newsAlerts ns
    then fold_left (fun r sym => sentiment_alert api sym r) (slice symbols 0 6) r
    else r in
  if predictionAlerts ns
  then fold_left (fun r sym => prediction_alert api sym r) (slice symbols 0 3) r
  else r.

Record Storage : Type := {
  notificationSettings : option SavedSettings;
  watchlist : option (list (option string))
}.

(** The run of [loadAlerts] up to the sort; [now] is [Date.now()]. *)
Definition run_of (st : Storage) (api : Api) (now : Z) : Run :=
  let ns := load_settings (notificationSettings st) in
  let symbols := run_symbols (watchlist st) in
  generate api ns symbols {| nextId := now; built := []; calls := [] |}.

(** The list [loadAlerts] hands to [setAlerts]. *)
Definition loadAlerts (st : Storage) (api : Api) (now : Z) : list Alert :=
  sort_by compare_alerts (built (run_of st api now)).

(** *** Updates of the list on the page *)

Definition set_read (a : Alert) : Alert :=
  {| id := id a;
     type := type a;
     severity := severity a;
     stock := stock a;
     title := title a;
     message := message a;
     read := true |}.

Definition markAsRead (alerts : list Alert) (i : Z) : list Alert :=
  map (fun alert => if id alert =? i then set_read alert else alert) alerts.

Definition markAllAsRead (alerts : list Alert) : list Alert :=
  map set_read alerts.

Definition deleteAlert (alerts : list Alert) (i : Z) : list Alert :=
  filter (fun alert => negb (id alert =? i)) alerts.

Definition clearAllAlerts (alerts : list Alert) : list Alert := [].

(** The handlers of the page as actions on the list in its state. *)
Inductive Action : Type :=
| Load (st : Storage) (api : Api) (now : Z)
| MarkAsRead (i : Z)
| MarkAllAsRead
| Delete (i : Z)
| ClearAll.

Definition step (alerts : list Alert) (a : Action) : list Alert :=
  match a with
  | Load st api now => loadAlerts st api now
  | MarkAsRead i => markAsRead alerts i
  | MarkAllAsRead => markAllAsRead alerts
  | Delete i => deleteAlert alerts i
  | ClearAll => clearAllAlerts alerts
  end.

Definition run_actions (actions : list Action) : list Alert :=
  fold_left step actions [].

End Alerts.

(** ** The specification's own wording, for comparison with the code *)

Module Spec.

(** Timeframe token to requested steps. *)
Definition horizon_table : list (string * Z) :=
  [("1D", 1); ("3D", 3); ("1W", 7); ("2W", 14); ("1M", 30)]%string.

Fixpoint requested_steps (table : list (string * Z)) (tf : string) : option Z :=
  match table with
  | [] => None
  | (k, n) :: rest => if String.eqb k tf then Some n else requested_steps rest tf
  end.

Definition Qsum (l : list Q) : Q := fold_right Qplus 0%Q l.

Definition Qlen (l : list Q) : Q := inject_Z (Z.of_nat (List.length l)).

Definition mean (l : list Q) : Q := (Qsum l / Qlen l)%Q.

(** Population variance: the mean of the squared deviations. *)
Definition pop_variance (l : list Q) : Q :=
  (Qsum (map (fun p => (p - mean l) * (p - mean l)) l) / Qlen l)%Q.

Definition clamp (x lo hi : Q) : Q :=
  if Qle_bool x lo then lo else if Qle_bool hi x then hi else x.

(** [clamp(100 - sqrt(variance)/current_price*100, 50, 95)]. *)
Definition confidence (sqrtQ : Q -> Q) (predictions : list Q) (current_price : Q) : Q :=
  clamp (100 - sqrtQ (pop_variance predictions) / current_price * 100)%Q 50%Q 95%Q.

(** The last [period] consecutive differences of a series: the differences
    [l[i] - l[i-1]] for [i] from [len - period] to [len - 1]. *)
Definition last_diffs (l : list Q) (period : nat) : list Q :=
  map (fun i => (nth i l 0 - nth (i - 1) l 0)%Q)
      (seq (List.length l - period) period).

Definition gain_part (d : Q) : Q := if Qle_bool 0 d then d else 0%Q.

Definition avg_gain (l : list Q) (period : Z) : Q :=
  (Qsum (map gain_part (last_diffs l (Z.to_nat period))) / inject_Z period)%Q.


(** The ordering contract on two alerts, [a] standing before [b]: unread
    before read; within equal read-state, the lower severity rank first;
    ties by descending id. *)
Definition severity_rank (s : Alerts.Severity) : Z :=
  match s with Alerts.high => 0 | Alerts.medium => 1 | Alerts.low => 2 end.

Definition by_severity_then_id (a b : Alerts.Alert) : Prop :=
  severity_rank (Alerts.severity a) < severity_rank (Alerts.severity b) \/
  (severity_rank (Alerts.severity a) = severity_rank (Alerts.severity b) /\
   Alerts.id b <= Alerts.id a).

Definition ranked_before (a b : Alerts.Alert) : Prop :=
  (Alerts.read a = false /\ Alerts.read b = true) \/
  (Alerts.read a = Alerts.read b /\ by_severity_then_id a b).

(** A list in the contract's order: every alert stands before each later
    one. *)
Definition ranked (l : list Alerts.Alert) : Prop := StronglySorted ranked_before l.

(** The order that ignores the read flag. *)
Definition ranked_by_severity (l : list Alerts.Alert) : Prop :=
  StronglySorted by_severity_then_id l.


End Spec.

(** The request a call belongs to, and the gate the code puts before each
    generator. *)
Module Gate.
Import Alerts.

Definition call_type (c : Call) : AlertType :=
  match c with
  | Call_getStockData _ _ => price
  | Call_getLatestNews _ _ _ => sentiment
  | Call_predict _ => prediction
  end.

Definition AlertType_eqb (a b : AlertType) : bool :=
  match a, b with
  | price, price | sentiment, sentiment | prediction, prediction => true
  | _, _ => false
  end.

(** The condition of the [if] in front of each [Promise.all]. *)
Definition gate (ns : NotificationSettings) (t : AlertType) : bool :=
  match t with
  | price => priceAlerts ns
  | sentiment => sentimentAlerts ns || newsAlerts ns
  | prediction => predictionAlerts ns
  end.

(** Requests of a type were sent in a run. *)
Definition fetched (t : AlertType) (r : Run) : bool :=
  existsb (fun c => AlertType_eqb (call_type c) t) (calls r).

(** Alerts of a type were generated in a run. *)
Definition generated (t : AlertType) (r : Run) : bool :=
  existsb (fun a => AlertType_eqb (type a) t) (built r).

(** An alert as a generator of type [t] pushes it. *)
Definition pushed_by (t : AlertType) (a : Alert) : Prop :=
  type a = t /\ read a = false.

(** The effect of one generator body: one request, at most one alert. *)
Definition effect_of (t : AlertType) (c : Call) (r r' : Run) : Prop :=
  calls r' = calls r ++ [c] /\
  exists l, built r' = built r ++ l /\ Forall (pushed_by t) l.

(** A generator over a batch: one request per symbol, in order. *)
Definition batch_effect (t : AlertType) (cs : list Call) (r r' : Run) : Prop :=
  calls r' = calls r ++ cs /\
  exists l, built r' = built r ++ l /\ Forall (pushed_by t) l.

(** The generator body of a type, and the symbols its [Promise.all] maps
    over. *)
Definition body (t : AlertType) : Api -> string -> Run -> Run :=
  match t with
  | price => price_alert
  | sentiment => sentiment_alert
  | prediction => prediction_alert
  end.



End Gate.

(** The loops of the indicator and confidence code on finite numbers. *)
Module Finite.

(** The difference [l[k] - l[k-1]] of a finite series. *)
Definition diff_at (qs : list Q) (k : nat) : Q := (nth k qs 0 - nth (k - 1) qs 0)%Q.

(** The squared deviation as [Math.pow(p - avg, 2)] computes it. *)
Definition sq_dev (avg s p : Q) : Q := (s + (p + - avg) * ((p + - avg) * 1))%Q.

End Finite.

(** ** Sample data *)

Module Examples.
Import JS.

(** A square root rounded down to three decimals. *)
Definition sqrt_milli (q : Q) : Q :=
  (Z.sqrt (Qfloor (q * 1000000)) # 1000)%Q.

(** A backend answer that carries a price and no forecast. *)
Definition empty_forecast (req : StockPrediction.PredictRequest)
  : option StockPrediction.PredictResult :=
  Some {| StockPrediction.symbol := StockPrediction.req_symbol req;
          StockPrediction.current_price := Some (JS.Fin 150);
          StockPrediction.predictions := Some [];
          StockPrediction.model_info := "LSTM" |}.

(** A backend answer with a forecast and a price below zero. *)
Definition negative_price (req : StockPrediction.PredictRequest)
  : option StockPrediction.PredictResult :=
  Some {| StockPrediction.symbol := StockPrediction.req_symbol req;
          StockPrediction.current_price := Some (JS.Fin (-1));
          StockPrediction.predictions := Some [JS.Fin 5; JS.Fin 6];
          StockPrediction.model_info := "LSTM" |}.

(** A backend answer with a flat forecast and no price. *)
Definition missing_price (req : StockPrediction.PredictRequest)
  : option StockPrediction.PredictResult :=
  Some {| StockPrediction.symbol := StockPrediction.req_symbol req;
          StockPrediction.current_price := None;
          StockPrediction.predictions := Some [JS.Fin 5; JS.Fin 5];
          StockPrediction.model_info := "LSTM" |}.

Definition row (close : Q) : StockPrediction.Row :=
  {| StockPrediction.Close := Some (Fin close); StockPrediction.Adj_close := None |}.

(** A backend for the prediction page: latest close 100, forecast
    102, 103, 101, and the fifteen closes 100 .. 114. *)
Definition page_api : StockPrediction.Api :=
  {| StockPrediction.getLatestStockData := fun _ => Some (Some (row 100));
     StockPrediction.predict := fun req =>
       Some {| StockPrediction.symbol := StockPrediction.req_symbol req;
               StockPrediction.current_price := Some (Fin 99);
               StockPrediction.predictions := Some [Fin 102; Fin 103; Fin 101];
               StockPrediction.model_info := "LSTM" |};
     StockPrediction.getStockData := fun _ _ =>
       Some (map (fun z => row (inject_Z z))
                 [100; 101; 102; 103; 104; 105; 106; 107; 108; 109; 110; 111; 112;
                  113; 114]) |}.

(** A backend for the prediction page whose first prediction is a tenth
    of a cent above the latest close of 100. *)
Definition near_flat_api : StockPrediction.Api :=
  {| StockPrediction.getLatestStockData := fun _ => Some (Some (row 100));
     StockPrediction.predict := fun req =>
       Some {| StockPrediction.symbol := StockPrediction.req_symbol req;
               StockPrediction.current_price := Some (Fin 100);
               StockPrediction.predictions := Some [Fin (100001 # 1000)];
               StockPrediction.model_info := "LSTM" |};
     StockPrediction.getStockData := fun _ _ => Some [] |}.

Definition page_outcome : StockPrediction.outcome :=
  StockPrediction.runPrediction sqrt_milli page_api "AAPL" "3D" "LSTM".

(** A backend for the alerts page: closes 100 then 103, a positive news
    score of 0.9, and a flat one-step forecast (150 against 150). *)
Definition flat_pred : StockPrediction.PredictResult :=
  {| StockPrediction.symbol := "AAPL";
     StockPrediction.current_price := Some (Fin 150);
     StockPrediction.predictions := Some [Fin 150];
     StockPrediction.model_info := "LSTM" |}.

Definition good_news : Alerts.News :=
  {| Alerts.sentimentScore := Some (Fin (9 # 10));
     Alerts.overallSentiment := Some "Positive"%string |}.

Definition alerts_api : Alerts.Api :=
  {| Alerts.getStockData := fun _ _ => Some [row 100; row 103];
     Alerts.getLatestNews := fun _ _ _ => Some good_news;
     Alerts.predict := fun _ => Some flat_pred |}.

(** A backend in which every request fails. *)
Definition silent_api : Alerts.Api :=
  {| Alerts.getStockData := fun _ _ => None;
     Alerts.getLatestNews := fun _ _ _ => None;
     Alerts.predict := fun _ => None |}.

Definition fresh_run : Alerts.Run :=
  {| Alerts.nextId := 1000; Alerts.built := []; Alerts.calls := [] |}.

(** Nothing saved: default settings, fallback symbols. *)
Definition empty_storage : Alerts.Storage :=
  {| Alerts.notificationSettings := None; Alerts.watchlist := None |}.


End Examples.

(** ** The tail of a list *)

Module Reference.

(** The last [n] elements of a list. *)
Definition last_n {A : Type} (n : nat) (l : list A) : list A :=
  skipn (List.length l - n) l.

End Reference.

(** ** The rest of [pages/Alerts.jsx]: relative time, filter, counters *)

Module AlertsPage.
Import Alerts.

(** The strings of [toRelativeTime]: 'just now', 'N minutes ago',
    'N hours ago', 'N days ago'. *)
Inductive RelTime : Type :=
| JustNow
| MinutesAgo (n : Z)
| HoursAgo (n : Z)
| DaysAgo (n : Z).

(** [toRelativeTime(d)] at the instant [now = Date.now()], [d] standing for
    [d.getTime()]; both are whole milliseconds. *)
Definition toRelativeTime (now d : Z) : RelTime :=
  let diff := Z.max 0 (now - d) in
  let mins := diff / 60000 in
  if mins <? 1 then JustNow
  else if mins <? 60 then MinutesAgo mins
  else
    let hours := mins / 60 in
    if hours <? 24 then HoursAgo hours
    else
      let days := hours / 24 in
      DaysAgo days.

(** The test of the 'Today' counter on a timestamp: it is 'just now', or
    contains 'minutes', or contains 'hour'. *)
Definition counts_as_today (t : RelTime) : bool :=
  match t with
  | JustNow | MinutesAgo _ | HoursAgo _ => true
  | DaysAgo _ => false
  end.

(** The values [setFilter] is called with. *)
Inductive Filter : Type :=
| All
| Unread
| OfType (t : AlertType).

Definition filteredAlerts (alerts : list Alert) (filter : Filter) : list Alert :=
  List.filter
    (fun alert =>
       match filter with
       | All => true
       | Unread => negb (read alert)
       | OfType t => Gate.AlertType_eqb (type alert) t
       end)
    alerts.

Definition unreadCount (alerts : list Alert) : Z :=
  JS.length (List.filter (fun a => negb (read a)) alerts).

Definition Severity_eqb (a b : Severity) : bool :=
  match a, b with
  | high, high | medium, medium | low, low => true
  | _, _ => false
  end.

(** The 'High Priority' counter. *)
Definition highCount (alerts : list Alert) : Z :=
  JS.length (List.filter (fun a => Severity_eqb (severity a) high) alerts).

(** [unreadCount > 0 && <button ... Mark All as Read>]. *)
Definition showsMarkAll (alerts : list Alert) : bool := 0 <? unreadCount alerts.

(** [filteredAlerts.length === 0 && <div className="empty-state">]. *)
Definition showsEmptyState (alerts : list Alert) (filter : Filter) : bool :=
  JS.length (filteredAlerts alerts filter) =? 0.

(** Ids [start], [start + 1], ..., [start + n - 1]. *)
Definition consecutive (start : Z) (n : nat) : list Z :=
  map (fun k => start + Z.of_nat k) (seq 0 n).

(** A run whose alerts carry the ids handed out since [start], in order. *)
Definition numbered (start : Z) (r : Run) : Prop :=
  map id (built r) = consecutive start (List.length (built r)) /\
  nextId r = start + Z.of_nat (List.length (built r)) /\
  (List.length (built r) <= List.length (calls r))%nat.

End AlertsPage.

(** ** The Settings page: saving the notification switches *)

Module Settings.
Import Alerts.

(** The initial state of [notificationSettings] on the Settings page. *)
Definition initial : NotificationSettings :=
  {| emailAlerts := true;
     priceAlerts := true;
     sentimentAlerts := true;
     predictionAlerts := true;
     newsAlerts := false;
     weeklyReport := true |}.

(** [localStorage.setItem('notificationSettings',
    JSON.stringify(notificationSettings))] in [saveNotifications] and
    [saveSettings]: every switch is written. *)
Definition saveNotifications (ns : NotificationSettings) : SavedSettings :=
  {| saved_emailAlerts := Some (emailAlerts ns);
     saved_priceAlerts := Some (priceAlerts ns);
     saved_sentimentAlerts := Some (sentimentAlerts ns);
     saved_predictionAlerts := Some (predictionAlerts ns);
     saved_newsAlerts := Some (newsAlerts ns);
     saved_weeklyReport := Some (weeklyReport ns) |}.

(** [setNotificationSettings((prev) => ({ ...prev, ...JSON.parse(ns) }))]
    when the page mounts; nothing changes when the item is missing. *)
Definition restore (prev : NotificationSettings) (raw : option SavedSettings)
  : NotificationSettings :=
  match raw with
  | None => prev
  | Some s =>
      {| emailAlerts := JS.nullish (saved_emailAlerts s) (emailAlerts prev);
         priceAlerts := JS.nullish (saved_priceAlerts s) (priceAlerts prev);
         sentimentAlerts := JS.nullish (saved_sentimentAlerts s) (sentimentAlerts prev);
         predictionAlerts :=
           JS.nullish (saved_predictionAlerts s) (predictionAlerts prev);
         newsAlerts := JS.nullish (saved_newsAlerts s) (newsAlerts prev);
         weeklyReport := JS.nullish (saved_weeklyReport s) (weeklyReport prev) |}
  end.

End Settings.

(** ** [generatePrediction] of [components/PredictionPanel.jsx] *)

Module PanelRun.
Import JS.

(** [x || d] on a number that may be missing: [0], NaN and [undefined] give
    [d]. *)
Definition or_else (x : option num) (d : num) : num :=
  match x with
  | Some v => if truthy v then v else d
  | None => d
  end.

(** ['positive'] or ['negative'], the class of the Price Change factor. *)
Inductive FactorType : Type := positive | negative.

Record Prediction : Type := {
  direction : PredictionPanel.Direction;
  confidence : num;              (* before [toFixed(1)] *)
  targetPrice : num;
  changePercent : num;
  currentPrice : num;
  predictions : list num;
  priceChangeType : FactorType;
  predictionSteps : Z
}.

Inductive outcome : Type :=
| Skipped                       (* no stock selected *)
| Failed                        (* the call or a field access threw *)
| Shown (p : Prediction).

Definition panel_request (selectedStock : string) : StockPrediction.PredictRequest :=
  {| StockPrediction.req_symbol := selectedStock;
     StockPrediction.model_type := "LSTM";
     StockPrediction.sentiment_type := "nonsentiment";
     StockPrediction.num_csvs := 50;
     StockPrediction.req_prediction_length := 3 |}.

Section Sqrt.

Variable sqrtQ : Q -> Q.

(** [predict] is [predictionAPI.predict]; [None] is a call that throws.  A
    response whose [predictions] is not an array makes
    [result.predictions[0]] throw. *)
Definition generatePrediction
  (predict : StockPrediction.PredictRequest -> option StockPrediction.PredictResult)
  (selectedStock : string) : outcome :=
  if String.eqb selectedStock EmptyString then Skipped
  else
    match predict (panel_request selectedStock) with
    | None => Failed
    | Some result =>
        let currentPrice := or_zero (StockPrediction.current_price result) in
        match StockPrediction.predictions result with
        | None => Failed
        | Some predictions =>
            let firstPrediction := or_else (get predictions 0) currentPrice in
            let direction :=
              if gtb firstPrediction currentPrice
              then PredictionPanel.UP else PredictionPanel.DOWN in
            let changePercent :=
              if gtb currentPrice (Fin 0)
              then toFixed_value 2
                     (mul (div (sub firstPrediction currentPrice) currentPrice)
                          (Fin 100))
              else Fin 0 in
            let confidence :=
              PredictionPanel.confidence_of sqrtQ predictions currentPrice in
            Shown
              {| direction := direction;
                 confidence := confidence;
                 targetPrice := or_else (Some firstPrediction) (Fin 0);
                 changePercent := changePercent;
                 currentPrice := or_else (Some currentPrice) (Fin 0);
                 predictions := predictions;
                 priceChangeType :=
                   if gtb changePercent (Fin 0) then positive else negative;
                 predictionSteps := length predictions |}
        end
    end.

End Sqrt.

End PanelRun.

(** ** The watchlist of [pages/Watchlist.jsx] *)

Module Watchlist.

(** A value shown in a row: the default rows hold numbers, the rows the
    page builds hold the text of [toFixed(2)]. *)
Inductive Shown : Type :=
| Num (q : Q)
| Text (s : string).

Record Stock : Type := {
  symbol : string;
  name : string;
  price : Shown;
  change : Shown;
  changePercent : Shown;
  sentiment : string;
  prediction : string;
  addedDate : string
}.

(** The [watchlist] state, the [watchlist] item of [localStorage]
    ([None]: no item) and the [addError] state. *)
Record State : Type := {
  watchlist : list Stock;
  stored : option (list Stock);
  addError : option string
}.

Definition defaultWatchlist : list Stock :=
  [ {| symbol := "AAPL"; name := "Apple Inc.";
       price := Num 178.45; change := Num 2.34; changePercent := Num 1.33;
       sentiment := "Positive"; prediction := "Bullish";
       addedDate := "2025-01-05" |};
    {| symbol := "GOOGL"; name := "Alphabet Inc.";
       price := Num 142.67; change := Num (-1.23); changePercent := Num (-0.85);
       sentiment := "Neutral"; prediction := "Neutral";
       addedDate := "2025-01-04" |};
    {| symbol := "MSFT"; name := "Microsoft Corporation";
       price := Num 398.12; change := Num 5.67; changePercent := Num 1.44;
       sentiment := "Positive"; prediction := "Bullish";
       addedDate := "2025-01-03" |} ].

(** [loadWatchlist], on the page as it mounts ([addError] is [null]). *)
Definition loadWatchlist (item : option (list Stock)) : State :=
  match item with
  | Some savedWatchlist =>
      {| watchlist := savedWatchlist; stored := item; addError := None |}
  | None =>
      {| watchlist := defaultWatchlist;
         stored := Some defaultWatchlist;
         addError := None |}
  end.

Section Trim.

(** [String.prototype.trim]. *)
Variable trim : string -> string.

(** [addToWatchlist], run to its end before the next action.  [newStock] is
    the text of the input; [fetched] is the [toFixed(2)] text of the latest
    close when the backend gave one above zero; [random] is the text drawn
    otherwise; [today] is the date part of [new Date().toISOString()]. *)
Definition addToWatchlist (st : State) (newStock : string)
  (fetched : option string) (random today : string) : State :=
  let symbol' := Alerts.toUpperCase (trim newStock) in
  if String.eqb symbol' EmptyString then st
  else if existsb (fun s => String.eqb (symbol s) symbol') (watchlist st) then
    {| watchlist := watchlist st;
       stored := stored st;
       addError := Some (String.append symbol' " is already in your watchlist.") |}
  else
    let stock :=
      {| symbol := symbol';
         name := String.append symbol' " Company";
         price := Text (JS.nullish fetched random);
         change := Text "0.00";
         changePercent := Text "0.00";
         sentiment := "Neutral";
         prediction := "Neutral";
         addedDate := today |} in
    let updatedWatchlist := watchlist st ++ [stock] in
    {| watchlist := updatedWatchlist;
       stored := Some updatedWatchlist;
       addError := None |}.

(** [removeFromWatchlist]. *)
Definition removeFromWatchlist (st : State) (symbol' : string) : State :=
  let updatedWatchlist :=
    filter (fun stock => negb (String.eqb (symbol stock) symbol')) (watchlist st) in
  {| watchlist := updatedWatchlist;
     stored := Some updatedWatchlist;
     addError := addError st |}.

(** [refreshPrices]; [draw] gives the three texts computed from
    [Math.random()] for a row. *)
Definition refreshPrices (st : State) (draw : Stock -> string * string * string)
  : State :=
  let updatedWatchlist :=
    map (fun stock =>
           let '(p, c, cp) := draw stock in
           {| symbol := symbol stock;
              name := name stock;
              price := Text p;
              change := Text c;
              changePercent := Text cp;
              sentiment := sentiment stock;
              prediction := prediction stock;
              addedDate := addedDate stock |})
        (watchlist st) in
  {| watchlist := updatedWatchlist;
     stored := Some updatedWatchlist;
     addError := addError st |}.

(** What a user does on the page. *)
Inductive Action : Type :=
| Add (newStock : string) (fetched : option string) (random today : string)
| Remove (symbol' : string)
| Refresh (draw : Stock -> string * string * string).

Definition step (st : State) (a : Action) : State :=
  match a with
  | Add newStock fetched random today => addToWatchlist st newStock fetched random today
  | Remove symbol' => removeFromWatchlist st symbol'
  | Refresh draw => refreshPrices st draw
  end.

Definition run_actions (actions : list Action) (st : State) : State :=
  fold_left step actions st.

End Trim.

(** The [watchlist] item as [loadAlerts] of the Alerts page reads it: the
    [symbol] of each entry. *)
Definition saved_symbols (st : State) : option (list (option string)) :=
  match stored st with
  | Some l => Some (map (fun s => Some (symbol s)) l)
  | None => None
  end.

(** The symbols of the rows, in the order of the list. *)
Definition symbols (st : State) : list string := map symbol (watchlist st).

(** The list and the saved item agree, and every symbol is a non-empty
    upper-cased text. *)
Definition in_step (st : State) : Prop :=
  stored st = Some (watchlist st) /\
  Forall (fun x => x <> EmptyString /\ Alerts.toUpperCase x = x) (symbols st).

End Watchlist.

(** ** IEEE 754 binary64 rounding *)

(** The arithmetic of the source is binary64: every operation returns the
    exact result rounded to the nearest representable number, ties to the
    even mantissa, and an infinity once the rounded magnitude reaches
    [2^1024].  [round] is that rounding on the rationals.  A positive [q]
    lies in the binade [2^k <= q < 2^(k+1)] with [k = ilog2 q]; its
    neighbours are the multiples of [2^e] with [e = k - 52], or of [2^-1074]
    for the subnormal numbers. *)

Module Binary64.
Import JS.

(** [floor (log2 q)] for a positive [q]. *)
Definition ilog2 (q : Q) : Z :=
  let k := Z.log2 (Qnum q) - Z.log2 (Z.pos (Qden q)) in
  if Qle_bool (2 ^ k) q then k else k - 1.

(** The nearest integer, ties to even. *)
Definition rne (x : Q) : Z :=
  let f := Qfloor x in
  match (x - inject_Z f ?= 1 # 2)%Q with
  | Lt => f
  | Gt => f + 1
  | Eq => if Z.even f then f else f + 1
  end.

(** Exponent, mantissa and value of the rounding of a positive [q]. *)
Definition expo (q : Q) : Z := Z.max (ilog2 q - 52) (-1074).
Definition mant (q : Q) : Z := rne (q / 2 ^ expo q).
Definition value (q : Q) : Q := (inject_Z (mant q) * 2 ^ expo q)%Q.

Definition round_pos (q : Q) : num :=
  if Qle_bool (2 ^ 1024) (value q) then PInf else Fin (Qred (value q)).

Definition round (q : Q) : num :=
  match (q ?= 0)%Q with
  | Eq => Fin 0
  | Gt => round_pos q
  | Lt => neg (round_pos (- q))
  end.

(** A rational that is a binary64 number: rounding leaves it as it is. *)
Definition representable (q : Q) : Prop :=
  exists z : Q, round q = Fin z /\ (z == q)%Q.

(** The smallest positive binary64 number. *)
Definition eta : Q := (2 ^ (-1074))%Q.
End Binary64.

(** ** The indicator functions in rounded arithmetic *)

Module Rounded.
Import JS.

Section Rounding.

(** The rounding of an exact finite result: the nearest representable
    number, or an infinity on overflow. *)
Variable round : Q -> num.

Definition rnd (a : num) : num :=
  match a with
  | Fin q => round q
  | _ => a
  end.

Definition add (a b : num) : num := rnd (JS.add a b).
Definition sub (a b : num) : num := rnd (JS.sub a b).
Definition mul (a b : num) : num := rnd (JS.mul a b).
Definition div (a b : num) : num := rnd (JS.div a b).

Definition sum (a : list num) : num := fold_left add a (Fin 0).

Definition computeSMA (values : option (list num)) (period : Z) : option num :=
  match values with
  | None => None
  | Some values =>
      if length values <? period then None
      else
        let slice := slice_from values (- period) in
        let avg := div (sum slice) (of_Z period) in
        Some avg
  end.

Definition computeEMA (values : option (list num)) (period : Z) : option num :=
  match values with
  | None => None
  | Some values =>
      if length values <? period then None
      else
        let k := div (Fin 2) (of_Z (period + 1)) in
        let ema := div (sum (slice values 0 period)) (of_Z period) in
        Some (for_loop period (length values)
                (fun i ema =>
                   add (mul (toNumber (get values i)) k) (mul ema (sub (Fin 1) k)))
                ema)
  end.

Definition rsi_step (values : list num) (i : Z) (acc : num * num) : num * num :=
  let '(gains, losses) := acc in
  let diff := sub (toNumber (get values i)) (toNumber (get values (i - 1))) in
  if geb diff (Fin 0) then (add gains diff, losses)
  else (gains, add losses (Math_abs diff)).

(** [gains] and [losses] when the loop of [computeRSI] ends. *)
Definition rsi_sums (values : list num) (period : Z) : num * num :=
  for_loop (length values - period) (length values) (rsi_step values) (Fin 0, Fin 0).

(** [avgGain] and [avgLoss]. *)
Definition rsi_averages (values : list num) (period : Z) : num * num :=
  let '(gains, losses) := rsi_sums values period in
  (div gains (of_Z period), div losses (of_Z period)).

Definition computeRSI (values : option (list num)) (period : Z) : option num :=
  match values with
  | None => None
  | Some values =>
      if length values <? period + 1 then None
      else
        let '(avgGain, avgLoss) := rsi_averages values period in
        if eqb avgLoss (Fin 0) then Some (Fin 100)
        else
          let rs := div avgGain avgLoss in
          Some (sub (Fin 100) (div (Fin 100) (add (Fin 1) rs)))
  end.

End Rounding.

End Rounded.

(** ** The kernel's binary64 numbers, for comparison *)

Module Kernel.
Import JS PrimFloat SpecFloat FloatOps.

(** The number a primitive float stands for. *)
Definition of_float (f : float) : num :=
  match Prim2SF f with
  | S754_zero _ => Fin 0
  | S754_infinity false => PInf
  | S754_infinity true => NInf
  | S754_nan => NaN
  | S754_finite s m e =>
      Fin (Qred ((if s then -1 else 1) * inject_Z (Z.pos m) * 2 ^ e))
  end.

(** A primitive operation and a rounded one give the same number. *)
Definition agree (f : float -> float -> float) (g : num -> num -> num)
  (x y : float) : bool :=
  match of_float (f x y), g (of_float x) (of_float y) with
  | Fin a, Fin b => Qeq_bool a b
  | PInf, PInf | NInf, NInf | NaN, NaN => true
  | _, _ => false
  end.

Definition agree_all (x y : float) : bool :=
  agree PrimFloat.add (Rounded.add Binary64.round) x y
  && agree PrimFloat.sub (Rounded.sub Binary64.round) x y
  && agree PrimFloat.mul (Rounded.mul Binary64.round) x y
  && agree PrimFloat.div (Rounded.div Binary64.round) x y.

(** Operands that meet ties, the subnormal range, overflow and the
    operations of the examples of this file. *)
Definition samples : list (float * float) :=
  [ (0x1.999999999999ap-4, 0x1.999999999999ap-3);
    (0x1.999999999999ap-3, 0x1.999999999999ap-4);
    (0x1.3333333333334p-2, 3);
    (100, 0x1.8ffffffffffffp+6);
    (400, 0x1.8ffffffffffffp+6);
    (150, 0x1p-47);
    (1, 0x1.2cp+54);
    (100, 0x1.2cp+54);
    (100, 0x1.5555555555555p-48);
    (1, 0x1p-53);
    (1, 0x1.8p-53);
    (0x1p+53, 1);
    (1, 3);
    (-0x1.4p+2, 0x1.8p+1);
    (0x1.fffffffffffffp+1023, 0x1.fffffffffffffp+1023);
    (0x1p+1023, 0x1p+970);
    (0x1p+1023, -1);
    (0x0.0000000000001p-1022, 3);
    (0x0.0000000000001p-1022, 2);
    (0x1p-1022, -0x0.0000000000001p-1022) ]%float.

(** [values[i]], NaN standing for [undefined]. *)
Definition at_index (values : list float) (i : Z) : float :=
  match get values i with
  | Some v => v
  | None => nan
  end.

(** [computeRSI] on the kernel's numbers; [period] is a whole number from 0
    to [2^62]. *)
Definition computeRSI (values : list float) (period : Z) : option float :=
  if length values <? period + 1 then None
  else
    let '(gains, losses) :=
      for_loop (length values - period) (length values)
        (fun i acc =>
           let '(gains, losses) := acc in
           let diff := PrimFloat.sub (at_index values i) (at_index values (i - 1)) in
           if PrimFloat.leb 0 diff then (PrimFloat.add gains diff, losses)
           else (gains, PrimFloat.add losses (PrimFloat.abs diff)))
        (0%float, 0%float) in
    let p := PrimFloat.of_uint63 (Uint63.of_Z period) in
    let avgGain := PrimFloat.div gains p in
    let avgLoss := PrimFloat.div losses p in
    if PrimFloat.eqb avgLoss 0 then Some 100%float
    else
      let rs := PrimFloat.div avgGain avgLoss in
      Some (PrimFloat.sub 100 (PrimFloat.div 100 (PrimFloat.add 1 rs))).

(** 100, its predecessor, 400; and fifteen values alternating between 1
    and [2^1023]. *)
Definition dip_and_rise : list float :=
  [100; 0x1.8ffffffffffffp+6; 400]%float.

Definition alternating : list float :=
  [1; 0x1p+1023; 1; 0x1p+1023; 1; 0x1p+1023; 1; 0x1p+1023; 1; 0x1p+1023;
   1; 0x1p+1023; 1; 0x1p+1023; 1]%float.

Definition hundred : float := 100%float.

End Kernel.

(* ================================================================= *)
(** * Part II: properties *)
(* ================================================================= *)

(** ** Comparisons and division on finite numbers *)

Module JSFacts.
Import JS.

Lemma ltb_Fin (a b : Q) : ltb (Fin a) (Fin b) = true <-> (a < b)%Q.
Proof.
  unfold ltb. rewrite Qlt_alt.
  destruct (a ?= b)%Q; split; intros H; congruence.
Qed.

Lemma gtb_Fin (a b : Q) : gtb (Fin a) (Fin b) = true <-> (b < a)%Q.
Proof. unfold gtb. apply ltb_Fin. Qed.

Lemma eqb_Fin (a b : Q) : eqb (Fin a) (Fin b) = true <-> (a == b)%Q.
Proof. simpl. apply Qeq_bool_iff. Qed.

Lemma leb_Fin (a b : Q) : leb (Fin a) (Fin b) = true <-> (a <= b)%Q.
Proof.
  unfold leb. rewrite orb_true_iff, ltb_Fin, eqb_Fin, Qle_lteq. tauto.
Qed.

Lemma geb_Fin (a b : Q) : geb (Fin a) (Fin b) = true <-> (b <= a)%Q.
Proof. unfold geb. apply leb_Fin. Qed.

Lemma ltb_Fin_false (a b : Q) : ltb (Fin a) (Fin b) = false <-> (b <= a)%Q.
Proof.
  rewrite <- not_true_iff_false, ltb_Fin. split; [apply Qnot_lt_le | apply Qle_not_lt].
Qed.

Lemma leb_Fin_false (a b : Q) : leb (Fin a) (Fin b) = false <-> (b < a)%Q.
Proof.
  rewrite <- not_true_iff_false, leb_Fin. split; [apply Qnot_le_lt | apply Qlt_not_le].
Qed.

Lemma geb_Fin_false (a b : Q) : geb (Fin a) (Fin b) = false <-> (a < b)%Q.
Proof. unfold geb. apply leb_Fin_false. Qed.

Lemma gtb_Fin_false (a b : Q) : gtb (Fin a) (Fin b) = false <-> (a <= b)%Q.
Proof. unfold gtb. apply ltb_Fin_false. Qed.

Lemma div_Fin (x y : Q) : ~ (y == 0)%Q -> div (Fin x) (Fin y) = Fin (x / y)%Q.
Proof.
  intros H. simpl. destruct (Qeq_bool y 0) eqn:E; [|reflexivity].
  apply Qeq_bool_iff in E. contradiction.
Qed.

Lemma Qpos_nonzero (y : Q) : (0 < y)%Q -> ~ (y == 0)%Q.
Proof. intros H E. rewrite E in H. apply (Qlt_irrefl 0 H). Qed.

Lemma div_Fin_pos (x y : Q) : (0 < y)%Q -> div (Fin x) (Fin y) = Fin (x / y)%Q.
Proof. intros H. apply div_Fin. now apply Qpos_nonzero. Qed.

(** Comparisons with NaN are false, whatever the other side. *)
Lemma gtb_NaN_l (b : num) : gtb NaN b = false.
Proof. destruct b; reflexivity. Qed.

Lemma geb_NaN_l (b : num) : geb NaN b = false.
Proof. destruct b; reflexivity. Qed.

End JSFacts.

(** ** Horizon resolution *)

Module HorizonProps.
Import StockPrediction.

Lemma table_lookup (tf model : string) (requested : Z) :
  Spec.requested_steps Spec.horizon_table tf = Some requested ->
  getPredictionLengthForTimeframe tf model = requested.
Proof.
  unfold getPredictionLengthForTimeframe, Spec.horizon_table.
  cbn [Spec.requested_steps].
  rewrite !(String.eqb_sym _ tf).
  repeat (destruct (String.eqb tf _)); congruence.
Qed.

(** C1.  The horizon sent to the backend is the timeframe table's value
    (1D->1, 3D->3, 1W->7, 2W->14, 1M->30) clamped per model family: exactly 3
    for TIMESNET whatever the timeframe, [min(3, max(1, requested))] and hence
    within 1..3 for TRANSFORMER, and the table value itself for every other
    family. *)
Theorem horizon_resolution (tf model : string) (requested : Z) :
  Spec.requested_steps Spec.horizon_table tf = Some requested ->
  getPredictionLengthForTimeframe tf model = requested /\
  (forall tf' : string, prediction_length tf' "TIMESNET" = 3) /\
  prediction_length tf "TRANSFORMER" = Z.min 3 (Z.max 1 requested) /\
  (forall tf' : string, 1 <= prediction_length tf' "TRANSFORMER" <= 3) /\
  (model <> "TIMESNET"%string -> model <> "TRANSFORMER"%string ->
   prediction_length tf model = requested).
Proof.
  intros Htab. split; [now apply table_lookup|].
  split; [reflexivity|].
  split.
  { unfold prediction_length. simpl.
    now rewrite (table_lookup tf "TRANSFORMER" requested Htab). }
  split.
  { intros tf'. unfold prediction_length. simpl. lia. }
  intros Hts Htr. unfold prediction_length.
  apply String.eqb_neq in Hts, Htr. rewrite Hts, Htr.
  now apply table_lookup.
Qed.

Lemma horizon_resolution_witness :
  getPredictionLengthForTimeframe "1W" "LSTM" = 7 /\
  prediction_length "1W" "TIMESNET" = 3 /\
  prediction_length "1W" "TRANSFORMER" = 3 /\
  prediction_length "1W" "LSTM" = 7.
Proof.
  destruct (horizon_resolution "1W" "LSTM" 7 eq_refl) as (H1 & H2 & H3 & _ & H5).
  split; [exact H1|]. split; [exact (H2 "1W"%string)|]. split; [exact H3|].
  apply H5; discriminate.
Defined.

End HorizonProps.

(** ** Trend of the derived forecast *)

Module TrendProps.
Import JS StockPrediction.

Lemma ltb_irrefl (a : num) : ltb a a = false.
Proof.
  destruct a; simpl; try reflexivity.
  now rewrite (proj1 (Qeq_alt q q) (Qeq_refl q)).
Qed.

Lemma eqb_not_gtb (a b : num) : eqb a b = true -> gtb a b = false.
Proof.
  destruct a, b; simpl; try discriminate; try reflexivity.
  intros H. apply Qeq_bool_iff in H. apply JSFacts.gtb_Fin_false.
  rewrite H. apply Qle_refl.
Qed.

(** The first prediction of [runPrediction] when the forecast is empty is
    the current price itself, which is not greater than itself. *)
Lemma trend_of_first (preds : list num) (cp : num) :
  trend_of (nullish (get preds 0) cp) cp = Bullish <->
  exists p, get preds 0 = Some p /\ gtb p cp = true.
Proof.
  unfold trend_of. destruct (get preds 0) as [p|]; simpl.
  - destruct (gtb p cp) eqn:E; split; intros H.
    + now exists p.
    + reflexivity.
    + discriminate.
    + destruct H as (p' & Hp & Hg). congruence.
  - unfold gtb. rewrite ltb_irrefl. split; [discriminate|].
    intros (p & Hp & _). discriminate.
Qed.

Lemma runPrediction_trend (sqrtQ : Q -> Q) (api : Api) (stock tf model : string)
  (d : PredictionData) :
  runPrediction sqrtQ api stock tf model = Shown d ->
  trend d = trend_of (nullish (get (raw_predictions d) 0) (currentPrice d)) (currentPrice d).
Proof.
  unfold runPrediction.
  destruct (String.eqb stock EmptyString); [discriminate|].
  destruct (getLatestStockData api stock); [|discriminate].
  destruct (predict api _); [|discriminate].
  destruct (getStockData api stock 250); [|discriminate].
  intros H. injection H as <-. reflexivity.
Qed.

(** C3.  In the forecast [runPrediction] derives, the trend is Bullish
    exactly when there is a first prediction and it is greater than the
    current price; a first prediction equal to the current price gives
    Bearish. *)
Theorem trend_bullish_iff (sqrtQ : Q -> Q) (api : Api) (stock tf model : string)
  (d : PredictionData) :
  runPrediction sqrtQ api stock tf model = Shown d ->
  (trend d = Bullish <->
   exists p, get (raw_predictions d) 0 = Some p /\ gtb p (currentPrice d) = true) /\
  (forall p, get (raw_predictions d) 0 = Some p ->
             eqb p (currentPrice d) = true -> trend d = Bearish).
Proof.
  intros Hrun. rewrite (runPrediction_trend _ _ _ _ _ _ Hrun). split.
  - apply trend_of_first.
  - intros p Hp Heq. rewrite Hp. simpl. unfold trend_of.
    now rewrite (eqb_not_gtb _ _ Heq).
Qed.

(** On finite numbers the comparison of the rule is the order of the
    rationals. *)
Lemma trend_of_finite (p c : Q) :
  trend_of (Fin p) (Fin c) = Bullish <-> (c < p)%Q.
Proof.
  unfold trend_of. rewrite <- JSFacts.gtb_Fin.
  destruct (gtb (Fin p) (Fin c)); split; congruence.
Qed.

Lemma page_outcome_shown :
  exists d, Examples.page_outcome = Shown d /\
            raw_predictions d = [Fin 102; Fin 103; Fin 101] /\
            currentPrice d = Fin 100.
Proof. eexists. split; [reflexivity|]. split; reflexivity. Qed.

Lemma trend_bullish_iff_witness :
  exists d, Examples.page_outcome = Shown d /\ trend d = Bullish.
Proof.
  eexists. split; [reflexivity|].
  apply (proj2 (proj1 (trend_bullish_iff Examples.sqrt_milli Examples.page_api
                         "AAPL" "3D" "LSTM" _ eq_refl))).
  exists (Fin 102). split; reflexivity.
Defined.

End TrendProps.

(** ** Absent indicators *)

Module AbsenceProps.
Import JS StockPrediction.





(** The four indicator cells of the forecast are computed from the
    positive finite closes of the history. *)
Lemma runPrediction_indicators (sqrtQ : Q -> Q) (api : Api)
  (stock tf model : string) (d : PredictionData) :
  runPrediction sqrtQ api stock tf model = Shown d ->
  exists hist,
    getStockData api stock 250 = Some hist /\
    let closes :=
      filter (fun v => isFinite v && gtb v (Fin 0)) (map close_of hist) in
    technicalIndicators d =
      {| rsi := show (computeRSI (Some closes) 14) 1;
         macd := show (macd_of (computeEMA (Some closes) 12)
                               (computeEMA (Some closes) 26)) 2;
         movingAvg50 := show (computeSMA (Some closes) 50) 2;
         movingAvg200 := show (computeSMA (Some closes) 200) 2 |}.
Proof.
  unfold runPrediction.
  destruct (String.eqb stock EmptyString); [discriminate|].
  destruct (getLatestStockData api stock); [|discriminate].
  destruct (predict api _); [|discriminate].
  destruct (getStockData api stock 250) as [hist|]; [|discriminate].
  intros H. injection H as <-. exists hist. split; reflexivity.
Qed.

(** With fifteen closes the page shows an RSI and no moving average or
    MACD. *)
Example page_indicators :
  exists d,
    Examples.page_outcome = Shown d /\
    movingAvg50 (technicalIndicators d) = NA /\
    movingAvg200 (technicalIndicators d) = NA /\
    macd (technicalIndicators d) = NA /\
    rsi (technicalIndicators d) = Fixed (Fin 100) 1.
Proof. eexists. split; [reflexivity|]. repeat split; vm_compute; reflexivity. Qed.


End AbsenceProps.

(** ** Prediction and sentiment alerts *)

Module AlertRuleProps.
Import JS Alerts.

Lemma pct_of_same (c c' : Q) :
  (c' == c)%Q -> exists q, pct_of (Fin c') (Fin c) = Fin q /\ (q == 0)%Q.
Proof.
  intros E. unfold pct_of.
  destruct (gtb (Fin c) (Fin 0)) eqn:G.
  - apply JSFacts.gtb_Fin in G.
    unfold sub. cbn [neg add].
    rewrite JSFacts.div_Fin_pos by exact G.
    cbn [mul]. eexists. split; [reflexivity|].
    rewrite E. field. now apply JSFacts.Qpos_nonzero.
  - exists 0%Q. split; reflexivity.
Qed.

Lemma severityFromPct_zero (q : Q) : (q == 0)%Q -> severityFromPct (Fin (Qabs q)) = low.
Proof.
  intros E. unfold severityFromPct.
  assert (A : (Qabs q == 0)%Q) by (rewrite E; reflexivity).
  rewrite (proj2 (JSFacts.geb_Fin_false _ _)) by (rewrite A; reflexivity).
  rewrite (proj2 (JSFacts.geb_Fin_false _ _)) by (rewrite A; reflexivity).
  reflexivity.
Qed.



(** The direction rule in general. *)
Lemma prediction_alert_direction (api : Api) (sym : string) (r : Run)
  (pred : StockPrediction.PredictResult) :
  predict api (prediction_request sym) = Some pred ->
  exists a,
    built (prediction_alert api sym r) = built r ++ [a] /\
    (title a = Title_prediction Bullish sym <->
     geb (pct_of (p1_of pred) (current_of pred)) (Fin 0) = true).
Proof.
  intros Hp. unfold prediction_alert. rewrite Hp.
  eexists. split; [reflexivity|]. cbn.
  destruct (geb _ _); split; congruence.
Qed.



End AlertRuleProps.

(** ** The order of the alert list *)

Module OrderProps.
Import Alerts.

Lemma sevRank_spec (s : Severity) : sevRank s = Spec.severity_rank s.
Proof. now destruct s. Qed.

(** The comparator is non-positive exactly on the pairs the contract puts
    in order. *)
Lemma compare_alerts_le (a b : Alert) :
  compare_alerts a b <= 0 <-> Spec.ranked_before a b.
Proof.
  unfold compare_alerts, Spec.ranked_before, Spec.by_severity_then_id.
  destruct (read a), (read b), (severity a), (severity b); simpl;
    try destruct (Z.eqb_spec (id b - id a) 0);
    intuition (try discriminate; try lia).
Qed.

Lemma ranked_before_total (a b : Alert) :
  Spec.ranked_before a b \/ Spec.ranked_before b a.
Proof.
  unfold Spec.ranked_before, Spec.by_severity_then_id.
  destruct (read a), (read b); intuition (try discriminate; try lia).
Qed.

Lemma ranked_before_trans (a b c : Alert) :
  Spec.ranked_before a b -> Spec.ranked_before b c -> Spec.ranked_before a c.
Proof.
  unfold Spec.ranked_before, Spec.by_severity_then_id.
  destruct (read a), (read b), (read c); intuition (try discriminate; try lia).
Qed.

Lemma insert_by_In {A : Type} (cmp : A -> A -> Z) (x y : A) (l : list A) :
  In y (insert_by cmp x l) <-> y = x \/ In y l.
Proof.
  induction l as [|z l IH]; simpl.
  - intuition.
  - destruct (cmp x z <=? 0); simpl; [intuition|].
    rewrite IH. intuition.
Qed.

Lemma insert_by_perm {A : Type} (cmp : A -> A -> Z) (x : A) (l : list A) :
  Permutation (x :: l) (insert_by cmp x l).
Proof.
  induction l as [|z l IH]; simpl; [reflexivity|].
  destruct (cmp x z <=? 0); [reflexivity|].
  apply perm_trans with (z :: x :: l); [apply perm_swap | now constructor].
Qed.

Lemma sort_by_perm {A : Type} (cmp : A -> A -> Z) (l : list A) :
  Permutation l (sort_by cmp l).
Proof.
  induction l as [|x l IH]; simpl; [constructor|].
  rewrite <- insert_by_perm. now constructor.
Qed.

Lemma insert_ranked (x : Alert) (l : list Alert) :
  Spec.ranked l -> Spec.ranked (insert_by compare_alerts x l).
Proof.
  unfold Spec.ranked. induction 1 as [|y l Hl IH Hy]; simpl.
  - repeat constructor.
  - destruct (Z.leb_spec (compare_alerts x y) 0) as [Hle|Hgt].
    + apply compare_alerts_le in Hle.
      constructor; [now constructor|].
      constructor; [exact Hle|].
      eapply Forall_impl; [|exact Hy].
      intros z Hz. eapply ranked_before_trans; eauto.
    + constructor; [exact IH|].
      apply Forall_forall. intros z Hz. apply insert_by_In in Hz.
      destruct Hz as [->|Hz].
      * destruct (ranked_before_total y x) as [H|H]; [exact H|].
        apply compare_alerts_le in H. lia.
      * rewrite Forall_forall in Hy. now apply Hy.
Qed.

Lemma sort_ranked (l : list Alert) : Spec.ranked (sort_by compare_alerts l).
Proof.
  induction l as [|x l IH]; simpl; [constructor|now apply insert_ranked].
Qed.

Lemma StronglySorted_filter {A : Type} (R : A -> A -> Prop) (f : A -> bool)
  (l : list A) :
  StronglySorted R l -> StronglySorted R (filter f l).
Proof.
  induction 1 as [|x l Hl IH Hx]; simpl; [constructor|].
  destruct (f x); [|exact IH].
  constructor; [exact IH|].
  apply Forall_forall. intros y Hy. apply filter_In in Hy.
  rewrite Forall_forall in Hx. now apply Hx.
Qed.

Lemma StronglySorted_map {A : Type} (R : A -> A -> Prop) (g : A -> A) (l : list A) :
  (forall x y, R x y -> R (g x) (g y)) ->
  StronglySorted R l -> StronglySorted R (map g l).
Proof.
  intros Hg. induction 1 as [|x l Hl IH Hx]; simpl; [constructor|].
  constructor; [exact IH|].
  apply Forall_forall. intros y Hy. apply in_map_iff in Hy.
  destruct Hy as (z & <- & Hz). apply Hg.
  rewrite Forall_forall in Hx. now apply Hx.
Qed.

Lemma StronglySorted_impl {A : Type} (R R' : A -> A -> Prop) (P : A -> Prop)
  (l : list A) :
  (forall x y, P x -> P y -> R x y -> R' x y) ->
  Forall P l -> StronglySorted R l -> StronglySorted R' l.
Proof.
  intros HR HP. induction 1 as [|x l Hl IH Hx]; [constructor|].
  inversion HP as [|? ? Px Pl]; subst.
  constructor; [now apply IH|].
  rewrite Forall_forall in *. intros y Hy. apply HR; auto.
Qed.

(** Deleting keeps the contract's order. *)
Lemma deleteAlert_ranked (alerts : list Alert) (i : Z) :
  Spec.ranked alerts -> Spec.ranked (deleteAlert alerts i).
Proof. apply StronglySorted_filter. Qed.

Lemma deleteAlert_ranked_by_severity (alerts : list Alert) (i : Z) :
  Spec.ranked_by_severity alerts -> Spec.ranked_by_severity (deleteAlert alerts i).
Proof. apply StronglySorted_filter. Qed.

(** Marking as read changes neither severity nor id. *)
Lemma markAsRead_ranked_by_severity (alerts : list Alert) (i : Z) :
  Spec.ranked_by_severity alerts -> Spec.ranked_by_severity (markAsRead alerts i).
Proof.
  apply StronglySorted_map. intros x y.
  unfold Spec.by_severity_then_id.
  destruct (id x =? i), (id y =? i); simpl; auto.
Qed.

Lemma markAllAsRead_ranked_by_severity (alerts : list Alert) :
  Spec.ranked_by_severity alerts -> Spec.ranked_by_severity (markAllAsRead alerts).
Proof. apply StronglySorted_map. intros x y H. exact H. Qed.

(** Among alerts of one read-state the contract's order is the order by
    severity and id. *)
Lemma ranked_unread (l : list Alert) :
  Forall (fun a => read a = false) l -> Spec.ranked l -> Spec.ranked_by_severity l.
Proof.
  apply StronglySorted_impl. intros x y Hx Hy [[_ H]|[_ H]]; [congruence|exact H].
Qed.

End OrderProps.

(** ** What a run of [loadAlerts] sends and builds *)

Module RunProps.
Import JS Alerts Gate.

Lemma slice_prefix {A : Type} (l : list A) (n : Z) :
  0 <= n -> slice l 0 n = firstn (Z.to_nat n) l.
Proof.
  intros Hn. unfold slice, rel_index, length.
  replace (0 <? 0) with false by reflexivity.
  rewrite (proj2 (Z.ltb_ge n 0) Hn).
  rewrite (Z.min_l 0) by lia. simpl skipn. rewrite Z.sub_0_r.
  destruct (Z.min_spec n (Z.of_nat (List.length l))) as [[H ->]|[H ->]];
    [reflexivity|].
  rewrite Nat2Z.id, firstn_all. symmetry. apply firstn_all2. lia.
Qed.

Lemma slice_prefix_nonempty {A : Type} (l : list A) (n : Z) :
  0 < n -> l <> [] -> slice l 0 n <> [].
Proof.
  intros Hn Hl. rewrite slice_prefix by lia.
  destruct l as [|x l]; [contradiction|].
  destruct (Z.to_nat n) eqn:E; [lia|]. discriminate.
Qed.

Lemma run_symbols_nonempty (wl : option (list (option string))) :
  run_symbols wl <> [].
Proof.
  unfold run_symbols. apply slice_prefix_nonempty; [lia|].
  match goal with |- (if length ?l =? 0 then _ else _) <> _ => destruct l end;
    discriminate.
Qed.

Lemma effect_none (t : AlertType) (c : Call) (r : Run) : effect_of t c r (sent c r).
Proof.
  split; [reflexivity|]. exists []. split; [now rewrite app_nil_r|constructor].
Qed.

Lemma effect_push (t : AlertType) (c : Call) (r : Run) (mk : Z -> Alert) :
  pushed_by t (mk (nextId r)) -> effect_of t c r (push mk (sent c r)).
Proof.
  intros H. split; [reflexivity|].
  exists [mk (nextId r)]. split; [reflexivity|]. constructor; [exact H|constructor].
Qed.

Lemma price_alert_effect (api : Api) (sym : string) (r : Run) :
  effect_of price (Call_getStockData sym 2) r (price_alert api sym r).
Proof.
  unfold price_alert. destruct (getStockData api sym 2).
  - apply effect_push. now split.
  - apply effect_none.
Qed.

Lemma sentiment_alert_effect (api : Api) (sym : string) (r : Run) :
  effect_of sentiment (Call_getLatestNews sym 7 10) r (sentiment_alert api sym r).
Proof.
  unfold sentiment_alert. destruct (getLatestNews api sym 7 10).
  - destruct (_ || _).
    + apply effect_push. now split.
    + apply effect_none.
  - apply effect_none.
Qed.

Lemma prediction_alert_effect (api : Api) (sym : string) (r : Run) :
  effect_of prediction (Call_predict (prediction_request sym)) r
            (prediction_alert api sym r).
Proof.
  unfold prediction_alert. destruct (predict api (prediction_request sym)).
  - apply effect_push. now split.
  - apply effect_none.
Qed.

Lemma batch_effect_fold (t : AlertType) (c : string -> Call)
  (gen : string -> Run -> Run) :
  (forall sym r, effect_of t (c sym) r (gen sym r)) ->
  forall symbols r,
    batch_effect t (map c symbols) r (fold_left (fun r sym => gen sym r) symbols r).
Proof.
  intros Hgen. induction symbols as [|sym symbols IH]; intros r; simpl.
  - split; [now rewrite app_nil_r|]. exists []. split; [now rewrite app_nil_r|constructor].
  - destruct (Hgen sym r) as (Hc & l1 & Hb & Hl1).
    destruct (IH (gen sym r)) as (Hc' & l2 & Hb' & Hl2).
    split.
    + rewrite Hc', Hc, <- app_assoc. reflexivity.
    + exists (l1 ++ l2). split.
      * rewrite Hb', Hb, <- app_assoc. reflexivity.
      * now apply Forall_app.
Qed.

(** A gated generator: nothing is sent and nothing is built when the gate is
    closed. *)
Lemma gated_batch (t : AlertType) (c : string -> Call) (gen : string -> Run -> Run)
  (g : bool) (symbols : list string) (r : Run) :
  (forall sym r, effect_of t (c sym) r (gen sym r)) ->
  let r' := if g then fold_left (fun r sym => gen sym r) symbols r else r in
  calls r' = calls r ++ (if g then map c symbols else []) /\
  exists l, built r' = built r ++ l /\ Forall (pushed_by t) l /\ (g = false -> l = []).
Proof.
  intros Hgen. destruct g; simpl.
  - destruct (batch_effect_fold t c gen Hgen symbols r) as (Hc & l & Hb & Hl).
    split; [exact Hc|]. exists l. repeat split; auto. discriminate.
  - split; [now rewrite app_nil_r|]. exists [].
    repeat split; auto. now rewrite app_nil_r.
Qed.

(** The three batches of [generate], each behind its gate. *)
Lemma generate_effect (api : Api) (ns : NotificationSettings) (symbols : list string)
  (r : Run) :
  calls (generate api ns symbols r) =
    calls r
    ++ (if gate ns price then map (fun sym => Call_getStockData sym 2) symbols else [])
    ++ (if gate ns sentiment
        then map (fun sym => Call_getLatestNews sym 7 10) (slice symbols 0 6) else [])
    ++ (if gate ns prediction
        then map (fun sym => Call_predict (prediction_request sym)) (slice symbols 0 3)
        else []) /\
  exists lp ls lq,
    built (generate api ns symbols r) = built r ++ lp ++ ls ++ lq /\
    Forall (pushed_by price) lp /\ (gate ns price = false -> lp = []) /\
    Forall (pushed_by sentiment) ls /\ (gate ns sentiment = false -> ls = []) /\
    Forall (pushed_by prediction) lq /\ (gate ns prediction = false -> lq = []).
Proof.
  unfold generate.
  pose proof (gated_batch price _ _ (priceAlerts ns) symbols r
                (price_alert_effect api)) as H1.
  cbv zeta in H1.
  set (r1 := if priceAlerts ns then _ else r) in *.
  pose proof (gated_batch sentiment _ _ (sentimentAlerts ns || newsAlerts ns)
                (slice symbols 0 6) r1 (sentiment_alert_effect api)) as H2.
  cbv zeta in H2.
  set (r2 := if sentimentAlerts ns || newsAlerts ns then _ else r1) in *.
  pose proof (gated_batch prediction _ _ (predictionAlerts ns)
                (slice symbols 0 3) r2 (prediction_alert_effect api)) as H3.
  cbv zeta in H3.
  set (r3 := if predictionAlerts ns then _ else r2) in *.
  destruct H1 as (C1 & lp & B1 & F1 & G1).
  destruct H2 as (C2 & ls & B2 & F2 & G2).
  destruct H3 as (C3 & lq & B3 & F3 & G3).
  split.
  - rewrite C3, C2, C1. cbn [gate]. now rewrite <- !app_assoc.
  - exists lp, ls, lq. rewrite B3, B2, B1. cbn [gate].
    repeat split; auto. now rewrite <- !app_assoc.
Qed.

Lemma built_unread (st : Storage) (api : Api) (now : Z) :
  Forall (fun a => read a = false) (built (run_of st api now)).
Proof.
  unfold run_of.
  destruct (generate_effect api (load_settings (notificationSettings st))
              (run_symbols (watchlist st))
              {| nextId := now; built := []; calls := [] |})
    as (_ & lp & ls & lq & -> & Fp & _ & Fs & _ & Fq & _).
  assert (U : forall t l, Forall (pushed_by t) l -> Forall (fun a => read a = false) l).
  { intros t l. apply Forall_impl. intros a [_ H]. exact H. }
  simpl. apply Forall_app. split; [now apply (U price)|].
  apply Forall_app. split; [now apply (U sentiment)|now apply (U prediction)].
Qed.

End RunProps.

(** ** The ordering contract on the page *)

Module ContractProps.
Import JS Alerts.

Lemma loadAlerts_ranked (st : Storage) (api : Api) (now : Z) :
  Spec.ranked (loadAlerts st api now).
Proof. apply OrderProps.sort_ranked. Qed.

Lemma loadAlerts_unread (st : Storage) (api : Api) (now : Z) :
  Forall (fun a => read a = false) (loadAlerts st api now).
Proof.
  unfold loadAlerts.
  eapply Permutation_Forall; [apply OrderProps.sort_by_perm|].
  apply RunProps.built_unread.
Qed.

Lemma step_ranked_by_severity (alerts : list Alert) (a : Action) :
  Spec.ranked_by_severity alerts -> Spec.ranked_by_severity (step alerts a).
Proof.
  intros H. destruct a; simpl.
  - apply OrderProps.ranked_unread;
      [apply loadAlerts_unread | apply loadAlerts_ranked].
  - now apply OrderProps.markAsRead_ranked_by_severity.
  - now apply OrderProps.markAllAsRead_ranked_by_severity.
  - now apply OrderProps.deleteAlert_ranked_by_severity.
  - constructor.
Qed.

Lemma run_actions_from (actions : list Action) (alerts : list Alert) :
  Spec.ranked_by_severity alerts ->
  Spec.ranked_by_severity (fold_left step actions alerts).
Proof.
  revert alerts. induction actions as [|a actions IH]; intros alerts H; simpl.
  - exact H.
  - apply IH. now apply step_ranked_by_severity.
Qed.

(** C7, as the code has it.  The list [loadAlerts] produces is in the
    contract's order (unread before read, then severity rank
    high < medium < low, then descending id), and [deleteAlert] keeps a list
    in that order.  [markAsRead] does not sort again: it sets the flag in
    place, which keeps the order by severity rank and descending id; that
    order holds of the list after any sequence of the page's actions. *)
Theorem alert_order (st : Storage) (api : Api) (now : Z) :
  Spec.ranked (loadAlerts st api now) /\
  (forall alerts i, Spec.ranked alerts -> Spec.ranked (deleteAlert alerts i)) /\
  (forall alerts i,
     Spec.ranked_by_severity alerts -> Spec.ranked_by_severity (markAsRead alerts i)) /\
  (forall actions, Spec.ranked_by_severity (run_actions actions)).
Proof.
  split; [apply loadAlerts_ranked|].
  split; [apply OrderProps.deleteAlert_ranked|].
  split; [apply OrderProps.markAsRead_ranked_by_severity|].
  intros actions. apply run_actions_from. constructor.
Qed.

Lemma alert_order_witness :
  Spec.ranked
    (deleteAlert (loadAlerts Examples.empty_storage Examples.alerts_api 1000) 1002) /\
  Spec.ranked_by_severity
    (markAsRead (loadAlerts Examples.empty_storage Examples.alerts_api 1000) 1002).
Proof.
  destruct (alert_order Examples.empty_storage Examples.alerts_api 1000)
    as (Hload & Hdel & Hread & Hall).
  split.
  - apply Hdel. exact Hload.
  - apply (Hall [Load Examples.empty_storage Examples.alerts_api 1000; MarkAsRead 1002]).
Defined.

(** The sample synthesis: three price alerts (high, ids 1000 to 1002), three
    sentiment alerts (medium, 1003 to 1005), three prediction alerts (low,
    1006 to 1008), sorted. *)
Example sample_synthesis :
  map (fun a => (id a, severity a, read a))
      (loadAlerts Examples.empty_storage Examples.alerts_api 1000) =
  [(1002, high, false); (1001, high, false); (1000, high, false);
   (1005, medium, false); (1004, medium, false); (1003, medium, false);
   (1008, low, false); (1007, low, false); (1006, low, false)].
Proof. vm_compute. reflexivity. Qed.

(** After a synthesis with the sample backend the first alert has id 1002;
    marking it as read leaves it in front of the unread ones. *)
Lemma markAsRead_breaks_order :
  Spec.ranked (loadAlerts Examples.empty_storage Examples.alerts_api 1000) /\
  ~ Spec.ranked
      (markAsRead (loadAlerts Examples.empty_storage Examples.alerts_api 1000) 1002).
Proof.
  split; [apply loadAlerts_ranked|].
  intros H. vm_compute in H.
  apply StronglySorted_inv in H. destruct H as [_ H].
  apply Forall_inv in H.
  destruct H as [[H _]|[H _]]; discriminate.
Qed.

End ContractProps.

(** ** Gating by the notification preferences *)

Module GateProps.
Import JS Alerts Gate.

Lemma existsb_calls (t : AlertType) (c : string -> Call) (t' : AlertType)
  (symbols : list string) :
  (forall sym, call_type (c sym) = t') ->
  symbols <> [] ->
  existsb (fun k => AlertType_eqb (call_type k) t) (map c symbols) = AlertType_eqb t' t.
Proof.
  intros Hc Hne. destruct symbols as [|sym symbols]; [contradiction|].
  clear Hne. simpl. rewrite Hc.
  destruct (AlertType_eqb t' t) eqn:E; [reflexivity|]. simpl.
  induction symbols as [|s symbols IH]; simpl; [reflexivity|].
  now rewrite Hc, E.
Qed.

Lemma existsb_pushed (t t' : AlertType) (l : list Alert) :
  Forall (pushed_by t') l ->
  existsb (fun a => AlertType_eqb (type a) t) l = true -> t = t' /\ l <> [].
Proof.
  intros Hl He. apply existsb_exists in He. destruct He as (a & Ha & Hta).
  rewrite Forall_forall in Hl. destruct (Hl a Ha) as [Ht _].
  rewrite Ht in Hta. split.
  - destruct t, t'; try discriminate; reflexivity.
  - intros ->. contradiction.
Qed.

Lemma fetched_gate (st : Storage) (api : Api) (now : Z) (t : AlertType) :
  fetched t (run_of st api now) = gate (load_settings (notificationSettings st)) t.
Proof.
  unfold fetched, run_of.
  set (ns := load_settings (notificationSettings st)).
  pose proof (run_symbols_nonempty := RunProps.run_symbols_nonempty (watchlist st)).
  set (symbols := run_symbols (watchlist st)) in *.
  destruct (RunProps.generate_effect api ns symbols
              {| nextId := now; built := []; calls := [] |}) as (-> & _).
  simpl calls. rewrite app_nil_l, !existsb_app.
  assert (H6 : slice symbols 0 6 <> [])
    by (apply RunProps.slice_prefix_nonempty; [lia|assumption]).
  assert (H3 : slice symbols 0 3 <> [])
    by (apply RunProps.slice_prefix_nonempty; [lia|assumption]).
  assert (Ep : existsb (fun k => AlertType_eqb (call_type k) t)
                 (map (fun sym => Call_getStockData sym 2) symbols)
               = AlertType_eqb price t)
    by (apply existsb_calls; [reflexivity|assumption]).
  assert (Es : existsb (fun k => AlertType_eqb (call_type k) t)
                 (map (fun sym => Call_getLatestNews sym 7 10) (slice symbols 0 6))
               = AlertType_eqb sentiment t)
    by (apply existsb_calls; [reflexivity|assumption]).
  assert (Eq : existsb (fun k => AlertType_eqb (call_type k) t)
                 (map (fun sym => Call_predict (prediction_request sym))
                      (slice symbols 0 3))
               = AlertType_eqb prediction t)
    by (apply existsb_calls; [reflexivity|assumption]).
  destruct t;
    destruct (gate ns price), (gate ns sentiment), (gate ns prediction);
    rewrite ?Ep, ?Es, ?Eq; reflexivity.
Qed.

Lemma generated_gate (st : Storage) (api : Api) (now : Z) (t : AlertType) :
  generated t (run_of st api now) = true ->
  gate (load_settings (notificationSettings st)) t = true.
Proof.
  unfold generated, run_of.
  set (ns := load_settings (notificationSettings st)).
  set (symbols := run_symbols (watchlist st)).
  destruct (RunProps.generate_effect api ns symbols
              {| nextId := now; built := []; calls := [] |})
    as (_ & lp & ls & lq & -> & Fp & Gp & Fs & Gs & Fq & Gq).
  simpl built. rewrite app_nil_l, !existsb_app, !orb_true_iff.
  intros [H|[H|H]].
  - destruct (existsb_pushed _ _ _ Fp H) as [-> Hne].
    destruct (gate ns price); [reflexivity|]. now destruct Hne; apply Gp.
  - destruct (existsb_pushed _ _ _ Fs H) as [-> Hne].
    destruct (gate ns sentiment); [reflexivity|]. now destruct Hne; apply Gs.
  - destruct (existsb_pushed _ _ _ Fq H) as [-> Hne].
    destruct (gate ns prediction); [reflexivity|]. now destruct Hne; apply Gq.
Qed.









(** With every switch at its default and a backend that answers nothing,
    the price requests are sent and no price alert is built. *)
Example open_gate_without_alert :
  let ns := load_settings (notificationSettings Examples.empty_storage) in
  let r := run_of Examples.empty_storage Examples.silent_api 1000 in
  priceAlerts ns = true /\
  fetched price r = true /\
  generated price r = false.
Proof. cbv zeta. repeat split; vm_compute; reflexivity. Qed.

End GateProps.

(** ** Periods that are not positive *)

Module PeriodProps.
Import JS StockPrediction.

Lemma inject_Z_nonzero (p : Z) : p <> 0 -> ~ (inject_Z p == 0)%Q.
Proof. intros Hp E. apply Hp. unfold Qeq in E. simpl in E. lia. Qed.

Lemma length_nonneg {A : Type} (l : list A) : 0 <= length l.
Proof. unfold length. lia. Qed.

Lemma add_NaN_l (b : num) : add NaN b = NaN.
Proof. now destruct b. Qed.

Lemma add_NaN_r (a : num) : add a NaN = NaN.
Proof. now destruct a. Qed.

Lemma mul_NaN_l (b : num) : mul NaN b = NaN.
Proof. now destruct b. Qed.

(** Once NaN, the running EMA stays NaN. *)
Lemma ema_loop_NaN (values : list num) (k : num) (n : nat) (i : Z) :
  for_range n i
    (fun i ema => add (mul (toNumber (get values i)) k) (mul ema (sub (Fin 1) k)))
    NaN = NaN.
Proof.
  revert i. induction n as [|n IH]; intros i; cbn [for_range]; [reflexivity|].
  rewrite mul_NaN_l, add_NaN_r. apply IH.
Qed.

Lemma computeSMA_nonpositive (values : list num) (p : Z) :
  p <= 0 ->
  computeSMA (Some values) p = Some (div (sum (slice_from values (- p))) (of_Z p)).
Proof.
  intros Hp. unfold computeSMA.
  pose proof (length_nonneg values).
  now rewrite (proj2 (Z.ltb_ge _ _)) by lia.
Qed.

Lemma computeEMA_nonpositive (values : list num) (p : Z) :
  p <= 0 -> computeEMA (Some values) p = Some NaN.
Proof.
  intros Hp. unfold computeEMA.
  pose proof (length_nonneg values) as Hl.
  rewrite (proj2 (Z.ltb_ge _ _)) by lia. f_equal.
  destruct (Z.eq_dec p 0) as [->|Hne].
  - unfold for_loop. replace (slice values 0 0) with (@nil num).
    + apply ema_loop_NaN.
    + unfold slice, rel_index. simpl. now rewrite Z.min_l by lia.
  - unfold for_loop.
    destruct (Z.to_nat (length values - p)) eqn:E; [lia|].
    assert (G : get values p = None).
    { unfold get. now rewrite (proj2 (Z.ltb_lt p 0)) by lia. }
    cbn [for_range]. rewrite G.
    cbn [toNumber nullish]. rewrite mul_NaN_l, add_NaN_l.
    apply ema_loop_NaN.
Qed.

Lemma computeRSI_negative (values : list num) (p : Z) :
  p < 0 -> computeRSI (Some values) p = Some (Fin 100).
Proof.
  intros Hp. unfold computeRSI.
  pose proof (length_nonneg values) as Hl.
  rewrite (proj2 (Z.ltb_ge _ _)) by lia.
  unfold for_loop.
  replace (Z.to_nat (length values - (length values - p))) with O by lia.
  cbn [for_range]. unfold of_Z.
  rewrite JSFacts.div_Fin by (apply inject_Z_nonzero; lia).
  replace (eqb (Fin (0 / inject_Z p)) (Fin 0)) with true; [reflexivity|].
  symmetry. apply JSFacts.eqb_Fin. unfold Qdiv. apply Qmult_0_l.
Qed.

Lemma computeRSI_zero (values : list num) :
  values <> [] -> computeRSI (Some values) 0 = Some NaN.
Proof.
  intros Hne. unfold computeRSI.
  assert (Hl : 1 <= length values).
  { destruct values; [contradiction|]. unfold length. simpl List.length. lia. }
  rewrite (proj2 (Z.ltb_ge _ _)) by lia.
  unfold for_loop.
  replace (Z.to_nat (length values - (length values - 0))) with O by lia.
  reflexivity.
Qed.

(** C9, as the code has it.  No indicator function checks its period.  For
    a period [p <= 0] the SMA is the number [sum(values.slice(-p)) / p], the
    EMA is NaN, and the RSI is 100 for [p < 0] and NaN for [p = 0] on a
    non-empty series: a number is returned, nothing is rejected. *)
Theorem nonpositive_period (values : list num) (p : Z) :
  p <= 0 ->
  computeSMA (Some values) p = Some (div (sum (slice_from values (- p))) (of_Z p)) /\
  computeEMA (Some values) p = Some NaN /\
  (p < 0 -> computeRSI (Some values) p = Some (Fin 100)) /\
  (p = 0 -> values <> [] -> computeRSI (Some values) p = Some NaN).
Proof.
  intros Hp.
  split; [now apply computeSMA_nonpositive|].
  split; [now apply computeEMA_nonpositive|].
  split; [apply computeRSI_negative|].
  intros ->. apply computeRSI_zero.
Qed.

Lemma nonpositive_period_witness :
  computeEMA (Some [Fin 1; Fin 2; Fin 3]) (-2) = Some NaN /\
  computeRSI (Some [Fin 1; Fin 2; Fin 3]) (-2) = Some (Fin 100).
Proof.
  assert (H : -2 <= 0) by lia.
  destruct (nonpositive_period [Fin 1; Fin 2; Fin 3] (-2) H) as (_ & He & Hr & _).
  split; [exact He|]. apply Hr. lia.
Defined.

(** With period -1 the SMA of 1, 2, 3 is -5 and the RSI is 100. *)
Lemma negative_period_returns_number :
  computeSMA (Some [Fin 1; Fin 2; Fin 3]) (-1) = Some (Fin (-5)) /\
  computeRSI (Some [Fin 1; Fin 2; Fin 3]) (-1) = Some (Fin 100).
Proof. split; vm_compute; reflexivity. Qed.

End PeriodProps.

(** ** The range of the RSI *)

Module RsiProps.
Import JS StockPrediction Finite.

(** The loop as a fold over its indices. *)
Lemma for_range_seq {S : Type} (body : Z -> S -> S) (n i0 : nat) (s : S) :
  for_range n (Z.of_nat i0) body s =
  fold_left (fun s k => body (Z.of_nat k) s) (seq i0 n) s.
Proof.
  revert i0 s. induction n as [|n IH]; intros i0 s; [reflexivity|].
  cbn [for_range seq fold_left].
  replace (Z.of_nat i0 + 1) with (Z.of_nat (Datatypes.S i0)) by lia.
  apply IH.
Qed.

Lemma get_Fin (qs : list Q) (k : nat) :
  (k < List.length qs)%nat ->
  get (map Fin qs) (Z.of_nat k) = Some (Fin (nth k qs 0%Q)).
Proof.
  intros Hk. unfold get.
  rewrite (proj2 (Z.ltb_ge _ _)) by lia.
  rewrite Nat2Z.id, nth_error_map, (nth_error_nth' qs 0%Q Hk). reflexivity.
Qed.


Lemma inject_Z_pos (p : Z) : 0 < p -> (0 < inject_Z p)%Q.
Proof. intros H. unfold Qlt. simpl. lia. Qed.

Lemma Qdiv_nonneg (a b : Q) : (0 <= a)%Q -> (0 < b)%Q -> (0 <= a / b)%Q.
Proof. intros Ha Hb. apply Qle_shift_div_l; [exact Hb|]. lra. Qed.

Lemma Qnonneg_nonzero_pos (a : Q) : (0 <= a)%Q -> ~ (a == 0)%Q -> (0 < a)%Q.
Proof.
  intros Ha Hne. destruct (Qlt_le_dec 0 a) as [H|H]; [exact H|].
  exfalso. apply Hne. now apply Qle_antisym.
Qed.

Lemma computeRSI_short (values : list num) (period : Z) :
  length values < period + 1 -> computeRSI (Some values) period = None.
Proof.
  intros H. unfold computeRSI. now rewrite (proj2 (Z.ltb_lt _ _) H).
Qed.

(** The specification's worked example. *)
Example rsi_all_gains :
  computeRSI
    (Some (map Fin [100; 101; 102; 103; 104; 105; 106; 107; 108; 109; 110; 111;
                    112; 113; 114]%Q)) 14 = Some (Fin 100).
Proof. vm_compute. reflexivity. Qed.

Example sma_last_five :
  exists q,
    computeSMA
      (Some (map Fin [100; 101; 102; 103; 104; 105; 106; 107; 108; 109; 110; 111;
                      112; 113; 114]%Q)) 5 = Some (Fin q) /\ (q == 112)%Q.
Proof. eexists. split; [vm_compute; reflexivity|]. reflexivity. Qed.

End RsiProps.

(** ** The confidence of the derived forecast *)

Module ConfidenceProps.
Import JS StockPrediction Finite.

(** A fold over finite numbers stays finite when each step does. *)
Lemma fold_Fin (f : num -> num -> num) (fq : Q -> Q -> Q) (qs : list Q) (a : Q) :
  (forall x p, f (Fin x) (Fin p) = Fin (fq x p)) ->
  fold_left f (map Fin qs) (Fin a) = Fin (fold_left fq qs a).
Proof.
  intros Hf. revert a. induction qs as [|q qs IH]; intros a; [reflexivity|].
  cbn [map fold_left]. rewrite Hf. apply IH.
Qed.

Lemma fold_plus_Qsum (qs : list Q) (a : Q) :
  (fold_left Qplus qs a == a + Spec.Qsum qs)%Q.
Proof.
  revert a. induction qs as [|q qs IH]; intros a; cbn [fold_left].
  - unfold Spec.Qsum. simpl. ring.
  - rewrite IH. unfold Spec.Qsum. cbn [fold_right]. ring.
Qed.

Lemma fold_sq_dev (avg m : Q) (qs : list Q) (a : Q) :
  (avg == m)%Q ->
  (fold_left (sq_dev avg) qs a
   == a + Spec.Qsum (map (fun p => (p - m) * (p - m)) qs))%Q.
Proof.
  intros Havg. revert a. induction qs as [|q qs IH]; intros a; cbn [fold_left map].
  - unfold Spec.Qsum. simpl. ring.
  - rewrite IH. unfold Spec.Qsum, sq_dev. cbn [fold_right]. rewrite Havg. ring.
Qed.

Lemma Qsquare_nonneg (x : Q) : (0 <= x * x)%Q.
Proof.
  destruct (Qlt_le_dec x 0) as [H|H].
  - setoid_replace (x * x)%Q with ((- x) * (- x))%Q by ring.
    apply Qmult_le_0_compat; lra.
  - now apply Qmult_le_0_compat.
Qed.

Lemma squares_nonneg (m : Q) (qs : list Q) :
  (0 <= Spec.Qsum (map (fun p => (p - m) * (p - m)) qs))%Q.
Proof.
  induction qs as [|q qs IH]; unfold Spec.Qsum in *; cbn [map fold_right].
  - apply Qle_refl.
  - pose proof (Qsquare_nonneg (q - m)) as H. lra.
Qed.

Lemma Qlen_pos (qs : list Q) : qs <> [] -> (0 < Spec.Qlen qs)%Q.
Proof.
  intros H. unfold Spec.Qlen. apply RsiProps.inject_Z_pos.
  destruct qs; [contradiction|]. simpl List.length. lia.
Qed.

Lemma pop_variance_nonneg (qs : list Q) : qs <> [] -> (0 <= Spec.pop_variance qs)%Q.
Proof.
  intros H. unfold Spec.pop_variance.
  apply RsiProps.Qdiv_nonneg; [apply squares_nonneg | now apply Qlen_pos].
Qed.

(** The mean and the variance [runPrediction] computes on finite
    predictions. *)
Lemma variance_Fin (qs : list Q) :
  qs <> [] ->
  exists v : Q,
    div (fold_left
           (fun sum p =>
              add sum (Math_pow (sub p (div (JS.sum (map Fin qs))
                                            (of_Z (length (map Fin qs))))) 2))
           (map Fin qs) (Fin 0))
        (of_Z (length (map Fin qs))) = Fin v /\
    (v == Spec.pop_variance qs)%Q.
Proof.
  intros Hne. pose proof (Qlen_pos qs Hne) as Hlen.
  unfold JS.sum, of_Z, length. rewrite length_map.
  fold (Spec.Qlen qs).
  rewrite (fold_Fin add Qplus) by reflexivity.
  rewrite JSFacts.div_Fin_pos by exact Hlen.
  set (avg := (fold_left Qplus qs 0 / Spec.Qlen qs)%Q).
  rewrite (fold_Fin _ (sq_dev avg)) by reflexivity.
  rewrite JSFacts.div_Fin_pos by exact Hlen.
  eexists. split; [reflexivity|].
  assert (Havg : (avg == Spec.mean qs)%Q).
  { unfold avg, Spec.mean. rewrite fold_plus_Qsum. now rewrite Qplus_0_l. }
  rewrite (fold_sq_dev avg (Spec.mean qs) qs 0 Havg).
  unfold Spec.pop_variance. now rewrite Qplus_0_l.
Qed.

Lemma Math_sqrt_Fin (sqrtQ : Q -> Q) (v : Q) :
  (0 <= v)%Q -> Math_sqrt sqrtQ (Fin v) = Fin (sqrtQ v).
Proof.
  intros H. unfold Math_sqrt. now rewrite (proj2 (Qle_bool_iff 0 v) H).
Qed.

Lemma Qle_bool_false (a b : Q) : (b < a)%Q -> Qle_bool a b = false.
Proof.
  intros H. apply not_true_iff_false. intros E.
  apply Qle_bool_iff in E. lra.
Qed.

(** [Math.max(50, Math.min(95, x))] on a finite [x] is the clamp of the
    specification. *)
Lemma max_min_clamp (x : Q) :
  exists c : Q,
    Math_max (Fin 50) (Math_min (Fin 95) (Fin x)) = Fin c /\
    (50 <= c)%Q /\ (c <= 95)%Q /\ (c == Spec.clamp x 50 95)%Q.
Proof.
  unfold Spec.clamp. cbn [Math_min].
  destruct (ltb (Fin x) (Fin 95)) eqn:E1.
  - apply JSFacts.ltb_Fin in E1. cbn [Math_max].
    rewrite (Qle_bool_false 95 x) by exact E1.
    destruct (ltb (Fin 50) (Fin x)) eqn:E2.
    + apply JSFacts.ltb_Fin in E2.
      rewrite (Qle_bool_false x 50) by exact E2.
      exists x. repeat split; try lra; reflexivity.
    + apply JSFacts.ltb_Fin_false in E2.
      rewrite (proj2 (Qle_bool_iff x 50)) by exact E2.
      exists 50%Q. repeat split; try lra; reflexivity.
  - apply JSFacts.ltb_Fin_false in E1. cbn [Math_max].
    replace (ltb (Fin 50) (Fin 95)) with true by reflexivity.
    rewrite (Qle_bool_false x 50) by lra.
    rewrite (proj2 (Qle_bool_iff 95 x)) by exact E1.
    exists 95%Q. repeat split; try lra; reflexivity.
Qed.

Lemma clamp_proper (x y lo hi : Q) :
  (x == y)%Q -> (Spec.clamp x lo hi == Spec.clamp y lo hi)%Q.
Proof.
  intros E. unfold Spec.clamp.
  rewrite (Qleb_comp x y E lo lo (Qeq_refl lo)).
  rewrite (Qleb_comp hi hi (Qeq_refl hi) x y E).
  destruct (Qle_bool y lo); [reflexivity|].
  destruct (Qle_bool hi y); [reflexivity|exact E].
Qed.

Lemma confidence_guard_closed (sqrtQ : Q -> Q) (ps : list num) (price : num) :
  ps = [] \/ gtb price (Fin 0) = false -> confidence_of sqrtQ ps price = Fin 50.
Proof.
  intros [-> | H]; unfold confidence_of.
  - reflexivity.
  - rewrite H. now rewrite andb_false_r.
Qed.

(** X27.  On a non-empty sequence of finite predictions and a positive
    current price, the confidence of [runPrediction] is a number between 50
    and 95, equal to [clamp(100 - sqrt(variance)/current_price*100, 50, 95)]
    for the population variance of the whole sequence; with no prediction,
    or with a current price that is not greater than zero, it is exactly
    50. *)
Theorem confidence_clamped (sqrtQ : Q -> Q) (preds : list Q) (cp : Q) :
  (preds <> [] -> (0 < cp)%Q ->
   exists c : Q,
     confidence_of sqrtQ (map Fin preds) (Fin cp) = Fin c /\
     (50 <= c)%Q /\ (c <= 95)%Q /\
     (Proper (Qeq ==> Qeq) sqrtQ -> (c == Spec.confidence sqrtQ preds cp)%Q)) /\
  (forall price : num, confidence_of sqrtQ [] price = Fin 50) /\
  (forall (ps : list num) (price : Q),
     (price <= 0)%Q -> confidence_of sqrtQ ps (Fin price) = Fin 50).
Proof.
  split; [|split].
  - intros Hne Hcp.
    destruct (variance_Fin preds Hne) as (v & Hv & Hvar).
    assert (Hv0 : (0 <= v)%Q) by (rewrite Hvar; now apply pop_variance_nonneg).
    unfold confidence_of.
    assert (Hlen : (0 <? length (map Fin preds)) = true).
    { apply Z.ltb_lt. destruct preds; [contradiction|].
      unfold length. simpl List.length. lia. }
    rewrite Hlen, (proj2 (JSFacts.gtb_Fin cp 0) Hcp). cbn [andb].
    cbv zeta. rewrite Hv, (Math_sqrt_Fin sqrtQ v Hv0).
    rewrite JSFacts.div_Fin_pos by exact Hcp.
    cbn [mul sub neg add].
    destruct (max_min_clamp (100 + - (sqrtQ v / cp * 100))%Q) as (c & Hc & Hlo & Hhi & Hcl).
    exists c. split; [exact Hc|]. split; [exact Hlo|]. split; [exact Hhi|].
    intros Hs. rewrite Hcl. unfold Spec.confidence.
    apply clamp_proper. rewrite (Hs v _ Hvar). reflexivity.
  - intros price. apply confidence_guard_closed. now left.
  - intros ps price Hle. apply confidence_guard_closed. right.
    now apply JSFacts.gtb_Fin_false.
Qed.

(** The confidence field of the forecast is this expression on the
    forecast's own predictions and current price. *)
Lemma runPrediction_confidence (sqrtQ : Q -> Q) (api : Api)
  (stock tf model : string) (d : PredictionData) :
  runPrediction sqrtQ api stock tf model = Shown d ->
  confidence d = confidence_of sqrtQ (raw_predictions d) (currentPrice d).
Proof.
  unfold runPrediction.
  destruct (String.eqb stock EmptyString); [discriminate|].
  destruct (getLatestStockData api stock); [|discriminate].
  destruct (predict api _); [|discriminate].
  destruct (getStockData api stock 250); [|discriminate].
  intros H. injection H as <-. reflexivity.
Qed.

Lemma sqrt_milli_proper : Proper (Qeq ==> Qeq) Examples.sqrt_milli.
Proof.
  intros x y E. unfold Examples.sqrt_milli.
  assert (F : Qfloor (x * 1000000) = Qfloor (y * 1000000))
    by (apply Qfloor_comp; now rewrite E).
  now rewrite F.
Qed.

(** The specification's worked example: predictions 102, 103, 101 against a
    current price of 100 give 95. *)
Lemma confidence_clamped_witness :
  exists c : Q,
    confidence_of Examples.sqrt_milli [Fin 102; Fin 103; Fin 101] (Fin 100) = Fin c /\
    (50 <= c)%Q /\ (c <= 95)%Q /\
    (c == Spec.confidence Examples.sqrt_milli [102; 103; 101] 100)%Q.
Proof.
  destruct (proj1 (confidence_clamped Examples.sqrt_milli [102; 103; 101]%Q 100%Q))
    as (c & Hc & Hlo & Hhi & Heq).
  - discriminate.
  - reflexivity.
  - exists c. split; [exact Hc|]. split; [exact Hlo|]. split; [exact Hhi|].
    apply Heq. exact sqrt_milli_proper.
Defined.

Example confidence_example :
  confidence_of Examples.sqrt_milli [Fin 102; Fin 103; Fin 101] (Fin 100) = Fin 95.
Proof. vm_compute. reflexivity. Qed.

(** The dashboard panel evaluates the same expression without the guard:
    with no prediction the result is NaN, and with a negative current price
    it is 95. *)
Example panel_confidence_unguarded :
  PredictionPanel.confidence_of Examples.sqrt_milli [] (Fin 100) = NaN /\
  PredictionPanel.confidence_of Examples.sqrt_milli [Fin 5; Fin 5] (Fin 0) = NaN /\
  PredictionPanel.confidence_of Examples.sqrt_milli [Fin 5; Fin 6] (Fin (-1)) = Fin 95.
Proof. repeat split; vm_compute; reflexivity. Qed.

End ConfidenceProps.

(** ** Moving averages on finite series *)

Module AverageProps.
Import JS StockPrediction.

(** [values.slice(-p)] keeps the last [p] values. *)
Lemma slice_from_last {A : Type} (l : list A) (p : Z) :
  0 < p <= length l ->
  slice_from l (- p) = Reference.last_n (Z.to_nat p) l.
Proof.
  intros Hp. unfold slice_from, slice, rel_index, Reference.last_n, length in *.
  rewrite (proj2 (Z.ltb_lt (- p) 0)) by lia.
  rewrite (proj2 (Z.ltb_ge (Z.of_nat (List.length l)) 0)) by lia.
  rewrite Z.max_l, Z.min_id by lia.
  replace (Z.to_nat (Z.of_nat (List.length l) + - p))
    with (List.length l - Z.to_nat p)%nat by lia.
  apply firstn_all2. rewrite length_skipn. lia.
Qed.

Lemma Forall_firstn {A : Type} (P : A -> Prop) (n : nat) (l : list A) :
  Forall P l -> Forall P (firstn n l).
Proof.
  intros H. rewrite <- (firstn_skipn n l) in H. now apply Forall_app in H.
Qed.

(** X3.  When the period is the whole length of the series the EMA loop has
    nothing to smooth and [computeEMA] returns what [computeSMA] returns,
    whatever the values are. *)
Theorem ema_over_whole_series_is_sma (values : list num) :
  computeEMA (Some values) (length values) = computeSMA (Some values) (length values).
Proof.
  unfold computeEMA, computeSMA.
  rewrite Z.ltb_irrefl. f_equal.
  unfold for_loop. rewrite Z.sub_diag. cbn [Z.to_nat for_range].
  f_equal. f_equal.
  pose proof (PeriodProps.length_nonneg values) as Hl.
  rewrite RunProps.slice_prefix by exact Hl.
  unfold length. rewrite Nat2Z.id, firstn_all.
  destruct values as [|v values]; [reflexivity|].
  rewrite slice_from_last.
  - unfold Reference.last_n, length. rewrite Nat2Z.id, Nat.sub_diag. reflexivity.
  - unfold length. simpl List.length. lia.
Qed.

End AverageProps.

(** ** The value of the RSI *)

Module RsiValueProps.
Import JS StockPrediction.


End RsiValueProps.

(** ** The forecast shown by the prediction page *)

Module PageProps.
Import JS StockPrediction.

Lemma change_sign (p c : Q) :
  (0 < c)%Q -> ((0 < (p - c) / c * 100)%Q <-> (c < p)%Q).
Proof.
  intros Hc. pose proof (JSFacts.Qpos_nonzero c Hc) as Hne.
  pose proof (Qmult_div_r (p - c) c Hne) as Hm.
  set (t := ((p - c) / c)%Q) in *.
  split; intros H.
  - assert (Ht : (0 < t)%Q) by lra.
    assert (Hct : (0 < c * t)%Q) by (apply Qmult_lt_0_compat; assumption).
    lra.
  - assert (Ht : (0 < t)%Q).
    { destruct (Qlt_le_dec 0 t) as [Ht|Ht]; [exact Ht|].
      assert (Hct : (c * - t >= 0)%Q) by (apply Qmult_le_0_compat; lra).
      exfalso.
      setoid_replace (c * - t)%Q with (- (c * t))%Q in Hct by ring. lra. }
    lra.
Qed.

(** X9.  Whatever the timeframe token and the model name, known or not,
    the horizon [runPrediction] asks for is one of 1, 3, 7, 14 and 30; a
    token outside the table asks for 3. *)
Theorem horizon_is_a_table_value (tf model : string) :
  In (prediction_length tf model) [1; 3; 7; 14; 30] /\
  (Spec.requested_steps Spec.horizon_table tf = None -> prediction_length tf model = 3).
Proof.
  unfold prediction_length, getPredictionLengthForTimeframe, Spec.horizon_table.
  cbn [Spec.requested_steps]. rewrite !(String.eqb_sym _ tf).
  destruct (String.eqb model "TIMESNET"), (String.eqb model "TRANSFORMER");
    repeat (destruct (String.eqb tf _));
    (split; [cbn; tauto | intros H; try discriminate H; reflexivity]).
Qed.

End PageProps.

(** ** Relative time on the alerts page *)

Module RelativeTimeProps.
Import AlertsPage.

(** X10.  [toRelativeTime] reports whole minutes from 1 to 59, whole hours
    from 1 to 23 and whole days from 1 on, each being the age rounded down;
    an age under one minute, a date in the future included, reads 'just
    now'; and the 'Today' counter takes a timestamp exactly when the age is
    under 24 hours. *)
Theorem relative_time_buckets (now d : Z) :
  match toRelativeTime now d with
  | JustNow => now - d < 60000
  | MinutesAgo m => 1 <= m <= 59 /\ m * 60000 <= now - d < (m + 1) * 60000
  | HoursAgo h => 1 <= h <= 23 /\ h * 3600000 <= now - d < (h + 1) * 3600000
  | DaysAgo n => 1 <= n /\ n * 86400000 <= now - d < (n + 1) * 86400000
  end /\
  (counts_as_today (toRelativeTime now d) = true <-> now - d < 86400000).
Proof.
  unfold toRelativeTime. cbv zeta.
  set (diff := Z.max 0 (now - d)).
  assert (Hdiff : 0 <= diff /\ (now - d <= diff) /\ (0 <= now - d -> diff = now - d))
    by (unfold diff; lia).
  assert (Hh : diff / 60000 / 60 = diff / 3600000)
    by (rewrite Z.div_div by lia; reflexivity).
  assert (Hd : diff / 60000 / 60 / 24 = diff / 86400000)
    by (rewrite !Z.div_div by lia; reflexivity).
  pose proof (Z.div_mod diff 60000 ltac:(lia)) as E1.
  pose proof (Z.mod_pos_bound diff 60000 ltac:(lia)) as B1.
  pose proof (Z.div_mod diff 3600000 ltac:(lia)) as E2.
  pose proof (Z.mod_pos_bound diff 3600000 ltac:(lia)) as B2.
  pose proof (Z.div_mod diff 86400000 ltac:(lia)) as E3.
  pose proof (Z.mod_pos_bound diff 86400000 ltac:(lia)) as B3.
  rewrite Hd, Hh.
  destruct (Z.ltb_spec (diff / 60000) 1) as [H1|H1].
  { cbn [counts_as_today]. split; [lia|]. split; [intros _; lia|reflexivity]. }
  destruct (Z.ltb_spec (diff / 60000) 60) as [H2|H2].
  { cbn [counts_as_today]. split; [lia|]. split; [intros _; lia|reflexivity]. }
  destruct (Z.ltb_spec (diff / 3600000) 24) as [H3|H3].
  { cbn [counts_as_today]. split; [lia|]. split; [intros _; lia|reflexivity]. }
  cbn [counts_as_today]. split; [lia|]. split; [discriminate|lia].
Qed.

End RelativeTimeProps.

(** ** Symbols, ids and size of a synthesis run *)

Module RunShapeProps.
Import JS Alerts AlertsPage.

Lemma toUpperCase_nonempty (s : string) :
  toUpperCase s = EmptyString <-> s = EmptyString.
Proof. destruct s; simpl; split; intros H; try reflexivity; discriminate. Qed.

(** The symbols read from a saved watchlist, before the fallback and the
    cut to eight. *)
Lemma run_symbols_shape (wl : list (option string)) :
  let valid :=
    filter (fun s => negb (String.eqb s EmptyString))
           (map (fun s => toUpperCase (nullish s EmptyString)) wl) in
  run_symbols (Some wl) =
    firstn 8 (if length valid =? 0 then ["AAPL"; "GOOGL"; "MSFT"]%string else valid).
Proof.
  cbv zeta. unfold run_symbols. now rewrite RunProps.slice_prefix by lia.
Qed.

(** X11.  A run always works on between one and eight symbols, none of
    them empty: the first eight upper-cased non-empty symbols of the saved
    watchlist, or AAPL, GOOGL, MSFT when the watchlist is missing or holds no
    symbol. *)
Theorem run_symbols_bounds (watchlist : option (list (option string))) :
  (1 <= List.length (run_symbols watchlist) <= 8)%nat /\
  Forall (fun s => s <> EmptyString) (run_symbols watchlist) /\
  (run_symbols None = ["AAPL"; "GOOGL"; "MSFT"]%string) /\
  (forall wl,
     watchlist = Some wl ->
     Forall (fun s => nullish s EmptyString = EmptyString) wl ->
     run_symbols watchlist = ["AAPL"; "GOOGL"; "MSFT"]%string) /\
  (forall wl s,
     watchlist = Some wl -> In (Some s) wl -> s <> EmptyString ->
     run_symbols watchlist =
       firstn 8 (filter (fun s => negb (String.eqb s EmptyString))
                        (map (fun s => toUpperCase (nullish s EmptyString)) wl))).
Proof.
  assert (Hvalid : forall wl,
             Forall (fun s => s <> EmptyString)
               (filter (fun s => negb (String.eqb s EmptyString))
                       (map (fun s => toUpperCase (nullish s EmptyString)) wl))).
  { intros wl. apply Forall_forall. intros s Hs. apply filter_In in Hs.
    destruct Hs as [_ Hs]. apply negb_true_iff, String.eqb_neq in Hs. exact Hs. }
  split; [|split; [|split; [reflexivity|split]]].
  - pose proof (RunProps.run_symbols_nonempty watchlist) as Hne.
    split.
    + destruct (run_symbols watchlist); [contradiction|simpl; lia].
    + unfold run_symbols. rewrite RunProps.slice_prefix by lia.
      rewrite length_firstn. change (Z.to_nat 8) with 8%nat. lia.
  - destruct watchlist as [wl|]; [|repeat constructor; discriminate].
    rewrite run_symbols_shape. cbv zeta. apply AverageProps.Forall_firstn.
    destruct (length _ =? 0); [repeat constructor; discriminate | apply Hvalid].
  - intros wl -> Hall. rewrite run_symbols_shape. cbv zeta.
    replace (filter _ _) with (@nil string); [reflexivity|].
    symmetry. induction Hall as [|x wl Hx _ IH]; [reflexivity|].
    cbn [map filter]. rewrite Hx. cbn. exact IH.
  - intros wl s -> Hin Hs. rewrite run_symbols_shape. cbv zeta.
    match goal with |- context [length ?l =? 0] => destruct l eqn:E end;
      [|reflexivity].
    exfalso.
    assert (Hin' : In (toUpperCase s)
                     (filter (fun s => negb (String.eqb s EmptyString))
                        (map (fun s => toUpperCase (nullish s EmptyString)) wl))).
    { apply filter_In. split.
      - apply in_map_iff. exists (Some s). split; [reflexivity|exact Hin].
      - apply negb_true_iff, String.eqb_neq. now rewrite toUpperCase_nonempty. }
    rewrite E in Hin'. contradiction.
Qed.

Lemma run_symbols_bounds_witness :
  run_symbols (Some [Some "tsla"; None; Some "nvda"]%string) = ["TSLA"; "NVDA"]%string.
Proof.
  destruct (run_symbols_bounds (Some [Some "tsla"; None; Some "nvda"]%string))
    as (_ & _ & _ & _ & H).
  rewrite (H _ "tsla"%string eq_refl); [reflexivity | now left | discriminate].
Defined.

(** *** Ids *)

Lemma consecutive_snoc (start : Z) (n : nat) :
  consecutive start (Datatypes.S n) = consecutive start n ++ [start + Z.of_nat n].
Proof.
  unfold consecutive. now rewrite seq_S, map_app.
Qed.

Lemma numbered_sent (start : Z) (c : Call) (r : Run) :
  numbered start r -> numbered start (sent c r).
Proof.
  intros (H1 & H2 & H3). repeat split; cbn [sent built nextId calls]; auto.
  rewrite length_app. simpl. lia.
Qed.

Lemma numbered_push (start : Z) (mk : Z -> Alert) (r : Run) :
  (forall i, id (mk i) = i) ->
  (List.length (built r) < List.length (calls r))%nat ->
  numbered start r -> numbered start (push mk r).
Proof.
  intros Hmk Hlt (H1 & H2 & H3). unfold numbered. cbn [push built nextId calls].
  rewrite length_app, map_app. cbn [List.length map].
  replace (List.length (built r) + 1)%nat with (Datatypes.S (List.length (built r))) by lia.
  rewrite consecutive_snoc, H1, Hmk, H2.
  repeat split; lia.
Qed.

Lemma numbered_sent_push (start : Z) (c : Call) (mk : Z -> Alert) (r : Run) :
  (forall i, id (mk i) = i) ->
  numbered start r -> numbered start (push mk (sent c r)).
Proof.
  intros Hmk H. apply numbered_push; [exact Hmk| |now apply numbered_sent].
  destruct H as (_ & _ & H). cbn [sent built calls]. rewrite length_app. simpl. lia.
Qed.

Lemma price_alert_numbered (start : Z) (api : Api) (sym : string) (r : Run) :
  numbered start r -> numbered start (price_alert api sym r).
Proof.
  intros H. unfold price_alert. destruct (getStockData api sym 2).
  - now apply numbered_sent_push.
  - now apply numbered_sent.
Qed.

Lemma sentiment_alert_numbered (start : Z) (api : Api) (sym : string) (r : Run) :
  numbered start r -> numbered start (sentiment_alert api sym r).
Proof.
  intros H. unfold sentiment_alert. destruct (getLatestNews api sym 7 10).
  - destruct (_ || _); [now apply numbered_sent_push | now apply numbered_sent].
  - now apply numbered_sent.
Qed.

Lemma prediction_alert_numbered (start : Z) (api : Api) (sym : string) (r : Run) :
  numbered start r -> numbered start (prediction_alert api sym r).
Proof.
  intros H. unfold prediction_alert. destruct (predict api (prediction_request sym)).
  - now apply numbered_sent_push.
  - now apply numbered_sent.
Qed.

Lemma fold_numbered (start : Z) (gen : string -> Run -> Run) (symbols : list string) :
  (forall sym r, numbered start r -> numbered start (gen sym r)) ->
  forall r, numbered start r ->
            numbered start (fold_left (fun r sym => gen sym r) symbols r).
Proof.
  intros Hgen. induction symbols as [|sym symbols IH]; intros r Hr; simpl; auto.
Qed.

Lemma generate_numbered (start : Z) (api : Api) (ns : NotificationSettings)
  (symbols : list string) (r : Run) :
  numbered start r -> numbered start (generate api ns symbols r).
Proof.
  intros Hr. unfold generate.
  destruct (priceAlerts ns), (sentimentAlerts ns || newsAlerts ns), (predictionAlerts ns);
    repeat (apply fold_numbered;
            [intros; first [now apply price_alert_numbered
                           |now apply sentiment_alert_numbered
                           |now apply prediction_alert_numbered]|]);
    exact Hr.
Qed.

Lemma run_of_numbered (st : Storage) (api : Api) (now : Z) :
  numbered now (run_of st api now).
Proof.
  apply generate_numbered. repeat split; simpl; lia.
Qed.

Lemma consecutive_NoDup (start : Z) (n : nat) : NoDup (consecutive start n).
Proof.
  induction n as [|n IH]; [constructor|].
  rewrite consecutive_snoc. apply NoDup_app; [exact IH | repeat constructor; intros [] |].
  intros x Hx [<-|[]]. unfold consecutive in Hx.
  apply in_map_iff in Hx. destruct Hx as (k & Hk & Hin). apply in_seq in Hin. lia.
Qed.

Lemma calls_bound (st : Storage) (api : Api) (now : Z) :
  (List.length (calls (run_of st api now)) <= 17)%nat.
Proof.
  unfold run_of.
  set (ns := load_settings (notificationSettings st)).
  pose proof (proj1 (run_symbols_bounds (watchlist st))) as Hs.
  set (symbols := run_symbols (watchlist st)) in *.
  destruct (RunProps.generate_effect api ns symbols
              {| nextId := now; built := []; calls := [] |}) as (-> & _).
  simpl calls. rewrite app_nil_l, !length_app.
  assert (H6 : (List.length (slice symbols 0 6) <= 6)%nat).
  { rewrite RunProps.slice_prefix by lia. rewrite length_firstn.
    change (Z.to_nat 6) with 6%nat. lia. }
  assert (H3 : (List.length (slice symbols 0 3) <= 3)%nat).
  { rewrite RunProps.slice_prefix by lia. rewrite length_firstn.
    change (Z.to_nat 3) with 3%nat. lia. }
  destruct (Gate.gate ns price), (Gate.gate ns sentiment), (Gate.gate ns prediction);
    rewrite ?length_map; simpl; lia.
Qed.

Lemma loadAlerts_ids_NoDup (st : Storage) (api : Api) (now : Z) :
  NoDup (map id (loadAlerts st api now)).
Proof.
  unfold loadAlerts.
  pose proof (OrderProps.sort_by_perm compare_alerts (built (run_of st api now))) as P.
  destruct (run_of_numbered st api now) as (Hids & _ & _).
  eapply Permutation_NoDup; [apply Permutation_map; exact P|].
  rewrite Hids. apply consecutive_NoDup.
Qed.

(** X12.  The alerts of a synthesis carry the ids [now], [now + 1], ... in
    the order they were built; so the ids of the list [loadAlerts] returns
    are pairwise distinct, the list holds the built alerts and no others,
    all unread, and there are at most seventeen of them. *)
Theorem load_ids_distinct (st : Storage) (api : Api) (now : Z) :
  let alerts := loadAlerts st api now in
  Permutation (map id alerts) (consecutive now (List.length alerts)) /\
  NoDup (map id alerts) /\
  Permutation alerts (built (run_of st api now)) /\
  Forall (fun a => read a = false) alerts /\
  (List.length alerts <= 17)%nat.
Proof.
  cbv zeta. unfold loadAlerts.
  pose proof (OrderProps.sort_by_perm compare_alerts (built (run_of st api now))) as P.
  destruct (run_of_numbered st api now) as (Hids & _ & Hlen).
  pose proof (Permutation_length P) as Hn.
  assert (Pid : Permutation (map id (sort_by compare_alerts (built (run_of st api now))))
                  (consecutive now
                     (List.length (sort_by compare_alerts (built (run_of st api now)))))).
  { rewrite <- Hn, <- Hids. apply Permutation_map. now symmetry. }
  split; [exact Pid|]. split.
  - eapply Permutation_NoDup; [symmetry; exact Pid | apply consecutive_NoDup].
  - split; [now symmetry|]. split.
    + eapply Permutation_Forall; [exact P | apply RunProps.built_unread].
    + rewrite <- Hn. pose proof (calls_bound st api now). lia.
Qed.

End RunShapeProps.

(** ** Price and prediction alerts *)

Module AlertKindProps.
Import JS Alerts.

(** The three tiers of [severityFromPct] on a finite number. *)
Lemma severityFromPct_tiers (x : Q) :
  (severityFromPct (Fin x) = high <-> (2 <= x)%Q) /\
  (severityFromPct (Fin x) = medium <-> (1 <= x)%Q /\ (x < 2)%Q) /\
  (severityFromPct (Fin x) = low <-> (x < 1)%Q).
Proof.
  unfold severityFromPct.
  destruct (geb (Fin x) (Fin 2)) eqn:E2.
  - apply JSFacts.geb_Fin in E2.
    intuition; try discriminate; try lra.
  - apply JSFacts.geb_Fin_false in E2.
    destruct (geb (Fin x) (Fin 1)) eqn:E1.
    + apply JSFacts.geb_Fin in E1.
      intuition; try discriminate; try lra.
    + apply JSFacts.geb_Fin_false in E1.
      intuition; try discriminate; try lra.
Qed.

Lemma pct_of_finite (v b : Q) :
  (0 < b)%Q ->
  exists q : Q, pct_of (Fin v) (Fin b) = Fin q /\ (q == (v - b) / b * 100)%Q.
Proof.
  intros Hb. unfold pct_of. rewrite (proj2 (JSFacts.gtb_Fin b 0) Hb).
  cbn [sub neg add]. rewrite JSFacts.div_Fin_pos by exact Hb.
  cbn [mul]. eexists. split; reflexivity.
Qed.

Lemma pct_of_nonpositive (v : num) (b : Q) : (b <= 0)%Q -> pct_of v (Fin b) = Fin 0.
Proof.
  intros Hb. unfold pct_of. now rewrite (proj2 (JSFacts.gtb_Fin_false b 0) Hb).
Qed.

(** The move is non-negative exactly when the value is not below its
    base. *)
Lemma move_sign (v b : Q) :
  (0 < b)%Q -> ((0 <= (v - b) / b * 100)%Q <-> (b <= v)%Q).
Proof.
  intros Hb. pose proof (JSFacts.Qpos_nonzero b Hb) as Hne.
  pose proof (Qmult_div_r (v - b) b Hne) as Hm.
  set (t := ((v - b) / b)%Q) in *.
  split; intros H.
  - assert (Ht : (0 <= t)%Q) by lra.
    assert (Hbt : (0 <= b * t)%Q) by (apply Qmult_le_0_compat; lra).
    lra.
  - assert (Ht : (0 <= t)%Q).
    { destruct (Qlt_le_dec t 0) as [Ht|Ht]; [|exact Ht].
      assert (Hbt : (0 < b * - t)%Q) by (apply Qmult_lt_0_compat; lra).
      exfalso.
      setoid_replace (b * - t)%Q with (- (b * t))%Q in Hbt by ring. lra. }
    lra.
Qed.

Lemma get_last_two {A : Type} (pre : list A) (x y : A) :
  let rows := pre ++ [x; y] in
  (1 <? length rows) = true /\
  get rows (length rows - 1) = Some y /\
  get rows (length rows - 2) = Some x.
Proof.
  cbv zeta. unfold length, get. rewrite length_app. cbn [List.length].
  split; [apply Z.ltb_lt; lia|].
  split.
  - rewrite (proj2 (Z.ltb_ge _ 0)) by lia.
    replace (Z.to_nat (Z.of_nat (List.length pre + 2) - 1))
      with (List.length pre + 1)%nat by lia.
    rewrite nth_error_app2 by lia.
    replace (List.length pre + 1 - List.length pre)%nat with 1%nat by lia.
    reflexivity.
  - rewrite (proj2 (Z.ltb_ge _ 0)) by lia.
    replace (Z.to_nat (Z.of_nat (List.length pre + 2) - 2))
      with (List.length pre + 0)%nat by lia.
    rewrite nth_error_app2 by lia.
    replace (List.length pre + 0 - List.length pre)%nat with 0%nat by lia.
    reflexivity.
Qed.

(** X13.  The price generator pushes exactly one alert for every symbol
    whose request is answered, and none when the request fails.  An answer
    without rows, or with a single row, still gives an alert: it says up and
    has low severity. *)
Theorem price_alert_per_answer (api : Api) (sym : string) (r : Run) :
  (forall rows,
     getStockData api sym 2 = Some rows ->
     exists a,
       built (price_alert api sym r) = built r ++ [a] /\
       type a = price /\ stock a = sym /\ id a = nextId r /\ read a = false /\
       (List.length rows <= 1 ->
        Forall (fun d => exists c, StockPrediction.close_of d = Fin c) rows ->
        severity a = low /\
        exists x c, message a = Msg_price sym up (Fin x) (Fin c) /\ (x == 0)%Q)%nat) /\
  (getStockData api sym 2 = None -> built (price_alert api sym r) = built r).
Proof.
  split.
  - intros rows Hrows. unfold price_alert. rewrite Hrows.
    eexists. split; [reflexivity|]. cbn [type stock id read severity message].
    split; [reflexivity|]. split; [reflexivity|]. split; [reflexivity|].
    split; [reflexivity|].
    intros Hlen Hfin. destruct rows as [|d [|d' rows]]; [| |simpl in Hlen; lia].
    + split; [reflexivity|]. exists 0%Q, 0%Q. split; reflexivity.
    + apply Forall_inv in Hfin. destruct Hfin as (c & Hc).
      replace (get [d] (length [d] - 1)) with (Some d) by reflexivity.
      replace (1 <? length [d]) with false by reflexivity.
      rewrite Hc.
      destruct (AlertRuleProps.pct_of_same c c (Qeq_refl c)) as (q & Hq & Hq0).
      rewrite Hq. cbn [Math_abs]. split.
      * now apply AlertRuleProps.severityFromPct_zero.
      * exists (Qabs q), c. split.
        -- unfold word_of.
           rewrite (proj2 (JSFacts.geb_Fin q 0)) by (rewrite Hq0; apply Qle_refl).
           reflexivity.
        -- rewrite Hq0. reflexivity.
  - intros Hnone. unfold price_alert. now rewrite Hnone.
Qed.

Lemma price_alert_per_answer_witness :
  exists a,
    built (price_alert Examples.alerts_api "AAPL" Examples.fresh_run) = [a] /\
    type a = price /\ id a = 1000.
Proof.
  destruct (proj1 (price_alert_per_answer Examples.alerts_api "AAPL" Examples.fresh_run)
              _ eq_refl) as (a & Hb & Ht & _ & Hi & _).
  exists a. split; [exact Hb|]. split; [exact Ht|exact Hi].
Defined.

(** X14.  For a history that ends with a positive finite close [prev]
    followed by a finite close [last], the price alert reports the move
    [(last - prev) / prev * 100] in absolute value: high from 2 percent, medium
    from 1 percent, low below, and the word is up exactly when [last] is not
    below [prev]. *)
Theorem price_alert_classification (api : Api) (sym : string) (r : Run)
  (pre : list StockPrediction.Row) (dp dl : StockPrediction.Row) (prev last : Q) :
  getStockData api sym 2 = Some (pre ++ [dp; dl]) ->
  StockPrediction.Close dp = Some (Fin prev) ->
  StockPrediction.close_of dl = Fin last ->
  (0 < prev)%Q ->
  exists (a : Alert) (w : Word) (x : Q),
    built (price_alert api sym r) = built r ++ [a] /\
    message a = Msg_price sym w (Fin x) (Fin last) /\
    (x == Qabs ((last - prev) / prev * 100))%Q /\
    (w = up <-> (prev <= last)%Q) /\
    (severity a = high <-> (2 <= x)%Q) /\
    (severity a = medium <-> (1 <= x)%Q /\ (x < 2)%Q) /\
    (severity a = low <-> (x < 1)%Q).
Proof.
  intros Hrows Hp Hl Hpos. unfold price_alert. rewrite Hrows.
  destruct (get_last_two pre dp dl) as (H1 & H2 & H3). cbv zeta in H1, H2, H3.
  rewrite H1, H2, H3, Hl, Hp. cbn [nullish].
  destruct (pct_of_finite last prev Hpos) as (q & Hq & Hv). rewrite Hq.
  cbn [Math_abs]. eexists. exists (word_of (Fin q)), (Qabs q).
  split; [reflexivity|]. cbn [message severity].
  split; [reflexivity|]. split; [now rewrite Hv|]. split.
  - unfold word_of. rewrite <- (move_sign last prev Hpos), <- Hv, <- JSFacts.geb_Fin.
    destruct (geb (Fin q) (Fin 0)); split; congruence.
  - apply severityFromPct_tiers.
Qed.

Lemma price_alert_classification_witness :
  exists (a : Alert) (x : Q),
    built (price_alert Examples.alerts_api "AAPL" Examples.fresh_run) = [a] /\
    message a = Msg_price "AAPL" up (Fin x) (Fin 103) /\
    severity a = high.
Proof.
  destruct (price_alert_classification Examples.alerts_api "AAPL" Examples.fresh_run
              [] (Examples.row 100) (Examples.row 103) 100 103
              eq_refl eq_refl eq_refl eq_refl)
    as (a & w & x & Hb & Hm & Hx & Hw & Hh & _).
  exists a, x. split; [exact Hb|].
  assert (Ew : w = up) by (apply Hw; vm_compute; discriminate).
  rewrite Ew in Hm. split; [exact Hm|].
  apply Hh. rewrite Hx. vm_compute. discriminate.
Defined.

(** X15.  A prediction alert compares the one-step forecast with the
    model's own current price.  When that price is not positive the alert is
    Bullish, up and low whatever the forecast.  When it is positive and the
    forecast is finite, the alert is Bullish and up exactly when the forecast
    is not below the price, with the severity tiers of the move.  When it is
    positive and the predictions array is empty, the move is NaN and the
    alert is Bearish, down and low. *)
Theorem prediction_alert_classification (api : Api) (sym : string) (r : Run)
  (pred : StockPrediction.PredictResult) (c : Q) :
  predict api (prediction_request sym) = Some pred ->
  current_of pred = Fin c ->
  exists a : Alert,
    built (prediction_alert api sym r) = built r ++ [a] /\
    type a = prediction /\
    ((c <= 0)%Q ->
     title a = Title_prediction Bullish sym /\
     message a = Msg_prediction sym up (Fin (Qabs 0)) /\
     severity a = low) /\
    ((0 < c)%Q ->
     forall p : Q,
       p1_of pred = Fin p ->
       exists x : Q,
         (x == Qabs ((p - c) / c * 100))%Q /\
         ((c <= p)%Q ->
          title a = Title_prediction Bullish sym /\
          message a = Msg_prediction sym up (Fin x)) /\
         ((p < c)%Q ->
          title a = Title_prediction Bearish sym /\
          message a = Msg_prediction sym down (Fin x)) /\
         (severity a = high <-> (2 <= x)%Q) /\
         (severity a = medium <-> (1 <= x)%Q /\ (x < 2)%Q) /\
         (severity a = low <-> (x < 1)%Q)) /\
    ((0 < c)%Q ->
     StockPrediction.predictions pred = Some [] ->
     title a = Title_prediction Bearish sym /\
     message a = Msg_prediction sym down NaN /\
     severity a = low).
Proof.
  intros Hp Hc. unfold prediction_alert. rewrite Hp, Hc.
  eexists. split; [reflexivity|]. cbn [type title message severity].
  split; [reflexivity|]. split; [|split].
  - intros Hle. rewrite (pct_of_nonpositive _ c Hle). repeat split.
  - intros Hpos p Hp1. rewrite Hp1.
    destruct (pct_of_finite p c Hpos) as (q & Hq & Hv). rewrite Hq.
    cbn [Math_abs]. exists (Qabs q). split; [now rewrite Hv|].
    unfold word_of.
    split; [|split; [|apply severityFromPct_tiers]].
    + intros Hge.
      rewrite (proj2 (JSFacts.geb_Fin q 0))
        by (rewrite Hv; now apply move_sign).
      split; reflexivity.
    + intros Hlt.
      rewrite (proj2 (JSFacts.geb_Fin_false q 0)).
      * split; reflexivity.
      * apply Qnot_le_lt. intros Hq0. rewrite Hv in Hq0.
        apply (move_sign p c Hpos) in Hq0. lra.
  - intros Hpos Hempty. unfold p1_of. rewrite Hempty.
    cbn [get Z.ltb Z.compare Z.to_nat nth_error toNumber nullish].
    unfold pct_of. rewrite (proj2 (JSFacts.gtb_Fin c 0) Hpos).
    cbn [sub neg add div mul word_of geb leb ltb eqb orb Math_abs severityFromPct].
    repeat split.
Qed.

Lemma prediction_alert_classification_witness :
  exists a : Alert,
    built (prediction_alert Examples.alerts_api "AAPL" Examples.fresh_run) = [a] /\
    title a = Title_prediction Bullish "AAPL" /\ severity a = low.
Proof.
  destruct (prediction_alert_classification Examples.alerts_api "AAPL"
              Examples.fresh_run Examples.flat_pred 150 eq_refl eq_refl)
    as (a & Hb & _ & _ & Hfin & _).
  destruct (Hfin eq_refl 150%Q eq_refl) as (x & Hx & Hup & _ & _ & _ & Hlow).
  exists a. split; [exact Hb|]. split.
  - apply Hup. apply Qle_refl.
  - apply Hlow. rewrite Hx. vm_compute. reflexivity.
Defined.

End AlertKindProps.

(** ** Reading, deleting, counting and filtering alerts *)

Module ListProps.
Import JS Alerts AlertsPage.

Lemma set_read_id (a : Alert) : id (set_read a) = id a.
Proof. reflexivity. Qed.

Lemma markAsRead_ids (l : list Alert) (i : Z) : map id (markAsRead l i) = map id l.
Proof.
  unfold markAsRead. rewrite map_map. apply map_ext.
  intros a. now destruct (id a =? i).
Qed.

Lemma markAllAsRead_ids (l : list Alert) : map id (markAllAsRead l) = map id l.
Proof. unfold markAllAsRead. rewrite map_map. now apply map_ext. Qed.

Lemma deleteAlert_In (l : list Alert) (i : Z) (a : Alert) :
  In a (deleteAlert l i) <-> In a l /\ id a <> i.
Proof.
  unfold deleteAlert. rewrite filter_In, negb_true_iff, Z.eqb_neq. tauto.
Qed.

(** X16.  [deleteAlert] removes every alert with the given id and nothing
    else; [markAsRead] changes no id, is idempotent, leaves an alert with
    another id as it is and leaves every alert with the given id read; the
    two commute, and [markAllAsRead] makes an earlier [markAsRead]
    irrelevant. *)
Theorem alert_list_updates (l : list Alert) (i j : Z) :
  (forall a, In a (deleteAlert l i) <-> In a l /\ id a <> i) /\
  map id (markAsRead l i) = map id l /\
  markAsRead (markAsRead l i) i = markAsRead l i /\
  (forall a, In a l -> id a <> i -> In a (markAsRead l i)) /\
  (forall a, In a (markAsRead l i) -> id a = i -> read a = true) /\
  markAsRead (deleteAlert l i) j = deleteAlert (markAsRead l j) i /\
  markAllAsRead (markAsRead l i) = markAllAsRead l.
Proof.
  split; [intros a; apply deleteAlert_In|].
  split; [apply markAsRead_ids|].
  split.
  { unfold markAsRead. rewrite map_map. apply map_ext. intros a.
    destruct (id a =? i) eqn:E; [|now rewrite E].
    rewrite set_read_id, E. reflexivity. }
  split.
  { intros a Ha Hne. unfold markAsRead. apply in_map_iff. exists a.
    split; [|exact Ha]. now rewrite (proj2 (Z.eqb_neq _ _) Hne). }
  split.
  { intros a Ha Hid. unfold markAsRead in Ha. apply in_map_iff in Ha.
    destruct Ha as (b & Hb & _). destruct (id b =? i) eqn:E.
    - now subst a.
    - subst a. apply Z.eqb_neq in E. contradiction. }
  split.
  { unfold markAsRead, deleteAlert.
    induction l as [|a l IH]; [reflexivity|]. cbn [filter map].
    destruct (id a =? j) eqn:Ej; cbn [id set_read];
      destruct (negb (id a =? i)); cbn [map]; rewrite ?Ej, IH; reflexivity. }
  unfold markAllAsRead, markAsRead. rewrite map_map. apply map_ext.
  intros a. now destruct (id a =? i).
Qed.

Lemma step_ids_NoDup (alerts : list Alert) (a : Action) :
  NoDup (map id alerts) -> NoDup (map id (step alerts a)).
Proof.
  intros H. destruct a; cbn [step].
  - apply RunShapeProps.loadAlerts_ids_NoDup.
  - now rewrite markAsRead_ids.
  - now rewrite markAllAsRead_ids.
  - unfold deleteAlert. induction alerts as [|x alerts IH]; [constructor|].
    cbn [filter map] in *. inversion H as [|? ? Hx Hrest]; subst.
    destruct (negb (id x =? i)); [|now apply IH].
    cbn [map]. constructor; [|now apply IH].
    intros Hin. apply Hx. apply in_map_iff in Hin. destruct Hin as (b & Hb & Hin).
    apply filter_In in Hin. apply in_map_iff. exists b. tauto.
  - constructor.
Qed.

Lemma run_actions_ids_NoDup (actions : list Action) (alerts : list Alert) :
  NoDup (map id alerts) -> NoDup (map id (fold_left step actions alerts)).
Proof.
  revert alerts. induction actions as [|a actions IH]; intros alerts H; simpl.
  - exact H.
  - apply IH. now apply step_ids_NoDup.
Qed.

Lemma unread_filter_map (l : list Alert) (f : Alert -> Alert) :
  (forall a, read (f a) = true \/ f a = a) ->
  (List.length (filter (fun a => negb (read a)) (map f l))
   <= List.length (filter (fun a => negb (read a)) l))%nat.
Proof.
  intros Hf. induction l as [|a l IH]; [simpl; lia|].
  cbn [map filter]. destruct (Hf a) as [E|E].
  - rewrite E. cbn [negb]. destruct (negb (read a)); simpl; lia.
  - rewrite E. destruct (negb (read a)); simpl; lia.
Qed.

Lemma unread_filter_filter (l : list Alert) (keep : Alert -> bool) :
  (List.length (filter (fun a => negb (read a)) (filter keep l))
   <= List.length (filter (fun a => negb (read a)) l))%nat.
Proof.
  induction l as [|a l IH]; [simpl; lia|]. cbn [filter].
  destruct (keep a); cbn [filter]; destruct (negb (read a)); simpl; lia.
Qed.

(** Marking the only alert with id [i], unread so far, takes one off the
    unread ones. *)
Lemma mark_one (l : list Alert) (i : Z) (a : Alert) :
  NoDup (map id l) -> In a l -> id a = i -> read a = false ->
  List.length (filter (fun a => negb (read a)) l)
  = Datatypes.S (List.length (filter (fun a => negb (read a)) (markAsRead l i))).
Proof.
  intros Hnd Hin Hid Hread. induction l as [|b l IH]; [contradiction|].
  cbn [map] in Hnd. inversion Hnd as [|? ? Hb Hrest]; subst.
  unfold markAsRead in *. cbn [map filter].
  destruct Hin as [->|Hin].
  - rewrite Z.eqb_refl. cbn [read set_read negb]. rewrite Hread. cbn [negb List.length].
    f_equal. f_equal. rewrite <- (map_id l) at 1. f_equal. apply map_ext_in.
    intros c Hc. destruct (id c =? id a) eqn:E; [|reflexivity].
    apply Z.eqb_eq in E. exfalso. apply Hb. rewrite <- E. now apply in_map.
  - assert (Hne : (id b =? id a) = false).
    { apply Z.eqb_neq. intros E. apply Hb. rewrite E. now apply in_map. }
    rewrite Hne. destruct (negb (read b)); cbn [List.length];
      rewrite (IH Hrest Hin); reflexivity.
Qed.

Lemma delete_one (l : list Alert) (i : Z) (a : Alert) :
  NoDup (map id l) -> In a l -> id a = i ->
  List.length l = Datatypes.S (List.length (deleteAlert l i)).
Proof.
  intros Hnd Hin Hid. induction l as [|b l IH]; [contradiction|].
  cbn [map] in Hnd. inversion Hnd as [|? ? Hb Hrest]; subst.
  unfold deleteAlert in *. cbn [filter].
  destruct Hin as [->|Hin].
  - rewrite Z.eqb_refl. cbn [negb List.length]. f_equal.
    symmetry. f_equal. apply forallb_filter_id. apply forallb_forall.
    intros c Hc. apply negb_true_iff, Z.eqb_neq. intros E.
    apply Hb. rewrite <- E. now apply in_map.
  - assert (Hne : (id b =? id a) = false).
    { apply Z.eqb_neq. intros E. apply Hb. rewrite E. now apply in_map. }
    rewrite Hne. cbn [negb List.length]. now rewrite (IH Hrest Hin).
Qed.

(** X17.  In every list the page can reach, from any sequence of its
    actions, no two alerts share an id; hence marking an unread alert as read
    lowers the unread counter by exactly one, and deleting an alert shortens
    the list by exactly one. *)
Theorem act_on_one_alert (actions : list Action) (i : Z) (a : Alert) :
  let alerts := run_actions actions in
  In a alerts -> id a = i ->
  NoDup (map id alerts) /\
  (read a = false -> unreadCount (markAsRead alerts i) = unreadCount alerts - 1) /\
  length (deleteAlert alerts i) = length alerts - 1.
Proof.
  cbv zeta. intros Hin Hid.
  assert (Hnd : NoDup (map id (run_actions actions)))
    by (apply run_actions_ids_NoDup; constructor).
  split; [exact Hnd|]. split.
  - intros Hread. unfold unreadCount, length.
    rewrite (mark_one _ i a Hnd Hin Hid Hread). lia.
  - unfold length. rewrite (delete_one _ i a Hnd Hin Hid). lia.
Qed.

Lemma act_on_one_alert_witness :
  unreadCount
    (markAsRead (run_actions [Load Examples.empty_storage Examples.alerts_api 1000]) 1002)
  = 8.
Proof.
  pose (a := {| id := 1002; type := price; severity := high; stock := "MSFT";
                title := Title_price "MSFT";
                message := Msg_price "MSFT" up (Fin (Qabs ((103 + - 100) / 100 * 100)))
                                     (Fin 103);
                read := false |}).
  destruct (act_on_one_alert [Load Examples.empty_storage Examples.alerts_api 1000]
              1002 a) as (_ & H & _).
  - vm_compute. left. reflexivity.
  - reflexivity.
  - rewrite (H eq_refl). vm_compute. reflexivity.
Defined.

(** X18.  Right after a synthesis every alert is unread, so the unread
    counter equals the number of alerts; after [markAllAsRead] the counter is
    0, the 'Mark All as Read' button is hidden and the unread view is empty;
    reading or deleting never raises the counter, which stays between 0 and
    the length of the list. *)
Theorem unread_counter (st : Storage) (api : Api) (now : Z) (l : list Alert) (i : Z) :
  unreadCount (loadAlerts st api now) = length (loadAlerts st api now) /\
  unreadCount (markAllAsRead l) = 0 /\
  showsMarkAll (markAllAsRead l) = false /\
  showsEmptyState (markAllAsRead l) Unread = true /\
  unreadCount (markAsRead l i) <= unreadCount l /\
  unreadCount (deleteAlert l i) <= unreadCount l /\
  0 <= unreadCount l <= length l.
Proof.
  assert (Hall : filter (fun a => negb (read a)) (markAllAsRead l) = []).
  { unfold markAllAsRead. induction l as [|a l IH]; [reflexivity|].
    cbn [map filter read set_read negb]. exact IH. }
  split.
  { unfold unreadCount. f_equal. apply forallb_filter_id. apply forallb_forall.
    intros a Ha.
    pose proof (ContractProps.loadAlerts_unread st api now) as Hu.
    rewrite Forall_forall in Hu. now rewrite (Hu a Ha). }
  split; [unfold unreadCount; now rewrite Hall|].
  split; [unfold showsMarkAll, unreadCount; now rewrite Hall|].
  split; [unfold showsEmptyState, filteredAlerts; now rewrite Hall|].
  split.
  { unfold unreadCount, length, markAsRead. apply inj_le.
    apply unread_filter_map. intros a. destruct (id a =? i); [now left|now right]. }
  split.
  { unfold unreadCount, length, deleteAlert. apply inj_le. apply unread_filter_filter. }
  unfold unreadCount, length. split; [lia|]. apply inj_le. apply filter_length_le.
Qed.

(** X19.  The view [filteredAlerts] never reorders: a list in the
    contract's order stays in it under every filter; 'all' shows the whole
    list, the unread view has as many rows as the unread counter says, every
    row of a type view has that type, and the three type views together hold
    every alert exactly once. *)
Theorem filtered_views (l : list Alert) (f : Filter) :
  (Spec.ranked l -> Spec.ranked (filteredAlerts l f)) /\
  filteredAlerts l All = l /\
  length (filteredAlerts l Unread) = unreadCount l /\
  (forall t a, In a (filteredAlerts l (OfType t)) <-> In a l /\ type a = t) /\
  length (filteredAlerts l (OfType price))
  + length (filteredAlerts l (OfType sentiment))
  + length (filteredAlerts l (OfType prediction)) = length l.
Proof.
  split; [apply OrderProps.StronglySorted_filter|].
  split.
  { unfold filteredAlerts. apply forallb_filter_id. now apply forallb_forall. }
  split; [reflexivity|].
  split.
  { intros t a. unfold filteredAlerts. rewrite filter_In.
    destruct (type a), t; cbn; intuition congruence. }
  unfold filteredAlerts, length. induction l as [|a l IH]; [reflexivity|].
  cbn [filter]. destruct (type a); cbn [Gate.AlertType_eqb List.length]; lia.
Qed.

Lemma filtered_views_witness :
  Spec.ranked
    (filteredAlerts (loadAlerts Examples.empty_storage Examples.alerts_api 1000)
                    (OfType sentiment)).
Proof.
  apply (proj1 (filtered_views _ (OfType sentiment))).
  apply ContractProps.loadAlerts_ranked.
Defined.

End ListProps.

(** ** Saved notification switches *)

Module SettingsProps.
Import Alerts.

(** X20.  What the Settings page saves is what the alerts page reads back:
    the six switches survive the round trip, both pages rebuild the same
    settings from the stored item, and in the next synthesis requests of a
    type are sent exactly when the saved switches open its gate. *)
Theorem saved_switches_round_trip (ns : NotificationSettings)
  (wl : option (list (option string))) (api : Api) (now : Z) (t : AlertType) :
  load_settings (Some (Settings.saveNotifications ns)) = ns /\
  Settings.restore Settings.initial (Some (Settings.saveNotifications ns)) = ns /\
  (forall raw, Settings.restore Settings.initial raw = load_settings raw) /\
  Gate.fetched t
    (run_of {| notificationSettings := Some (Settings.saveNotifications ns);
               watchlist := wl |} api now)
  = Gate.gate ns t.
Proof.
  assert (R : load_settings (Some (Settings.saveNotifications ns)) = ns)
    by (destruct ns; reflexivity).
  split; [exact R|]. split; [destruct ns; reflexivity|].
  split; [intros [raw|]; reflexivity|].
  rewrite GateProps.fetched_gate. cbn [notificationSettings]. now rewrite R.
Qed.

End SettingsProps.

(** ** The dashboard prediction panel *)

Module PanelProps.
Import JS PanelRun.

Lemma or_else_or_zero (x : option num) : or_else (Some (or_zero x)) (Fin 0) = or_zero x.
Proof.
  destruct x as [[q| | |]|]; cbn; try reflexivity.
  destruct (Qeq_bool q 0) eqn:E; cbn; [reflexivity|]. now rewrite E.
Qed.

(** The fields of a shown panel prediction in terms of the response. *)
Lemma generatePrediction_shown (sqrtQ : Q -> Q)
  (predict : StockPrediction.PredictRequest -> option StockPrediction.PredictResult)
  (stock : string) (p : Prediction) :
  generatePrediction sqrtQ predict stock = Shown p ->
  let first := or_else (get (predictions p) 0) (currentPrice p) in
  direction p =
    (if gtb first (currentPrice p) then PredictionPanel.UP else PredictionPanel.DOWN) /\
  confidence p = PredictionPanel.confidence_of sqrtQ (predictions p) (currentPrice p) /\
  changePercent p =
    (if gtb (currentPrice p) (Fin 0)
     then toFixed_value 2
            (mul (div (sub first (currentPrice p)) (currentPrice p)) (Fin 100))
     else Fin 0) /\
  priceChangeType p = (if gtb (changePercent p) (Fin 0) then positive else negative) /\
  (exists x, currentPrice p = or_zero x) /\
  predictionSteps p = length (predictions p).
Proof.
  unfold generatePrediction.
  destruct (String.eqb stock EmptyString); [discriminate|].
  destruct (predict _) as [result|]; [|discriminate].
  destruct (StockPrediction.predictions result) as [ps|]; [|discriminate].
  intros H. cbv zeta in H. rewrite or_else_or_zero in H. injection H as <-.
  cbn [direction confidence changePercent priceChangeType currentPrice predictions
       predictionSteps].
  repeat split. now eexists.
Qed.

(** The guarded expression of [runPrediction] on finite predictions. *)
Lemma guarded_confidence_range (sqrtQ : Q -> Q) (qs : list Q) (c : Q) :
  qs <> [] -> (0 < c)%Q ->
  exists x : Q,
    StockPrediction.confidence_of sqrtQ (map Fin qs) (Fin c) = Fin x /\
    (50 <= x)%Q /\ (x <= 95)%Q.
Proof.
  intros Hne Hc.
  destruct (ConfidenceProps.variance_Fin qs Hne) as (v & Hv & Hvar).
  assert (Hv0 : (0 <= v)%Q)
    by (rewrite Hvar; now apply ConfidenceProps.pop_variance_nonneg).
  unfold StockPrediction.confidence_of.
  assert (Hlen : (0 <? length (map Fin qs)) = true).
  { apply Z.ltb_lt. destruct qs; [contradiction|].
    unfold length. simpl List.length. lia. }
  rewrite Hlen, (proj2 (JSFacts.gtb_Fin c 0) Hc). cbn [andb].
  cbv zeta. rewrite Hv, (ConfidenceProps.Math_sqrt_Fin sqrtQ v Hv0).
  rewrite JSFacts.div_Fin_pos by exact Hc.
  cbn [mul sub neg add].
  destruct (ConfidenceProps.max_min_clamp (100 + - (sqrtQ v / c * 100))%Q)
    as (x & Hx & Hlo & Hhi & _).
  exists x. split; [exact Hx|]. split; assumption.
Qed.

(** X21.  When the panel has at least one prediction and a current price
    greater than zero, its confidence is the very value [runPrediction]
    computes from the same numbers; on finite predictions it lies between 50
    and 95. *)
Theorem panel_confidence_under_guard (sqrtQ : Q -> Q)
  (predict : StockPrediction.PredictRequest -> option StockPrediction.PredictResult)
  (stock : string) (p : Prediction) :
  generatePrediction sqrtQ predict stock = Shown p ->
  predictions p <> [] ->
  gtb (currentPrice p) (Fin 0) = true ->
  confidence p = StockPrediction.confidence_of sqrtQ (predictions p) (currentPrice p) /\
  (forall (qs : list Q) (c : Q),
     predictions p = map Fin qs -> currentPrice p = Fin c ->
     exists x : Q, confidence p = Fin x /\ (50 <= x)%Q /\ (x <= 95)%Q).
Proof.
  intros Hrun Hne Hpos.
  destruct (generatePrediction_shown _ _ _ _ Hrun) as (_ & Hconf & _).
  assert (Hagree : confidence p
                   = StockPrediction.confidence_of sqrtQ (predictions p) (currentPrice p)).
  { rewrite Hconf. unfold StockPrediction.confidence_of, PredictionPanel.confidence_of.
    rewrite Hpos.
    assert (Hlen : (0 <? length (predictions p)) = true).
    { apply Z.ltb_lt. destruct (predictions p); [contradiction|].
      unfold length. simpl List.length. lia. }
    now rewrite Hlen. }
  split; [exact Hagree|].
  intros qs c Hqs Hc. rewrite Hagree, Hqs, Hc.
  apply guarded_confidence_range.
  - intros E. apply Hne. now rewrite Hqs, E.
  - apply JSFacts.gtb_Fin. now rewrite <- Hc.
Qed.

Lemma panel_confidence_under_guard_witness :
  exists (p : Prediction) (x : Q),
    generatePrediction Examples.sqrt_milli
      (StockPrediction.predict Examples.page_api) "AAPL" = Shown p /\
    confidence p = Fin x /\ (50 <= x)%Q /\ (x <= 95)%Q.
Proof.
  destruct (panel_confidence_under_guard Examples.sqrt_milli
              (StockPrediction.predict Examples.page_api) "AAPL" _ eq_refl)
    as (_ & H).
  - discriminate.
  - reflexivity.
  - destruct (H [102; 103; 101]%Q 99%Q eq_refl eq_refl) as (x & Hx & Hlo & Hhi).
    eexists. exists x. split; [reflexivity|]. split; [exact Hx|]. now split.
Defined.






(** A rounded percentage is positive only if the percentage is. *)
Lemma toFixed_value_positive (digits : nat) (q : Q) :
  gtb (toFixed_value digits (Fin q)) (Fin 0) = true -> (0 < q)%Q.
Proof.
  unfold toFixed_value. cbv zeta. intros H. apply JSFacts.gtb_Fin in H.
  assert (Hp : (0 < pow10 digits)%Q).
  { unfold pow10. apply RsiProps.inject_Z_pos. apply Z.pow_pos_nonneg; lia. }
  destruct (Qle_bool 0 q) eqn:E.
  - apply Qle_bool_iff in E. apply RsiProps.Qnonneg_nonzero_pos; [exact E|].
    intros Hz.
    assert (F : Qfloor (Qabs q * pow10 digits + (1 # 2)) = 0).
    { rewrite (Qfloor_comp _ (1 # 2)); [reflexivity|]. rewrite Hz. simpl. ring. }
    rewrite F in H. unfold Qdiv in H. rewrite Qmult_0_l in H.
    apply (Qlt_irrefl 0 H).
  - exfalso.
    assert (Hn : (0 <= inject_Z (Qfloor (Qabs q * pow10 digits + (1 # 2))))%Q).
    { change 0%Q with (inject_Z 0). rewrite <- Zle_Qle.
      change 0 with (Qfloor 0). apply Qfloor_resp_le.
      pose proof (Qabs_nonneg q).
      assert (0 <= Qabs q * pow10 digits)%Q by (apply Qmult_le_0_compat; lra).
      lra. }
    pose proof (RsiProps.Qdiv_nonneg _ _ Hn Hp). lra.
Qed.

(** X23.  The panel says UP exactly when the response has a first
    prediction that is neither 0 nor NaN and is greater than the current
    price; a missing or zero first prediction falls back to the current price
    and reads DOWN.  Whenever the Price Change factor is marked positive the
    direction is UP. *)
Theorem panel_direction (sqrtQ : Q -> Q)
  (predict : StockPrediction.PredictRequest -> option StockPrediction.PredictResult)
  (stock : string) (p : Prediction) :
  generatePrediction sqrtQ predict stock = Shown p ->
  (direction p = PredictionPanel.UP <->
   exists v, get (predictions p) 0 = Some v /\ truthy v = true /\
             gtb v (currentPrice p) = true) /\
  (priceChangeType p = positive -> direction p = PredictionPanel.UP).
Proof.
  intros Hrun.
  destruct (generatePrediction_shown _ _ _ _ Hrun) as (Hdir & _ & Hch & Hty & _).
  cbv zeta in Hdir, Hch. split.
  - rewrite Hdir. unfold or_else.
    destruct (get (predictions p) 0) as [v|].
    + destruct (truthy v) eqn:T.
      * destruct (gtb v (currentPrice p)) eqn:G; split; intros H;
          try discriminate H; try reflexivity.
        -- now exists v.
        -- destruct H as (v' & Hv' & _ & G'). congruence.
      * unfold gtb. rewrite TrendProps.ltb_irrefl. split; [discriminate|].
        intros (v' & Hv' & T' & _). congruence.
    + unfold gtb. rewrite TrendProps.ltb_irrefl. split; [discriminate|].
      intros (v' & Hv' & _). discriminate.
  - intros Hpos. rewrite Hty in Hpos.
    destruct (gtb (changePercent p) (Fin 0)) eqn:G; [clear Hpos|discriminate].
    rewrite Hch in G. rewrite Hdir.
    set (first := or_else (get (predictions p) 0) (currentPrice p)) in *.
    destruct (gtb (currentPrice p) (Fin 0)) eqn:Gc; [|discriminate G].
    destruct (currentPrice p) as [c| | |]; try discriminate Gc.
    + apply JSFacts.gtb_Fin in Gc.
      destruct first as [f| | |]; try reflexivity.
      * cbn [sub neg add] in G. rewrite JSFacts.div_Fin_pos in G by exact Gc.
        cbn [mul] in G. apply toFixed_value_positive in G.
        apply (PageProps.change_sign f c Gc) in G.
        now rewrite (proj2 (JSFacts.gtb_Fin f c) G).
      * exfalso. cbn [sub neg add div] in G. unfold sgn in G.
        rewrite (proj1 (Qgt_alt _ _) Gc) in G. discriminate G.
      * discriminate G.
    + exfalso. destruct first; discriminate G.
Qed.

Lemma panel_direction_witness :
  exists p : Prediction,
    generatePrediction Examples.sqrt_milli
      (StockPrediction.predict Examples.page_api) "AAPL" = Shown p /\
    direction p = PredictionPanel.UP.
Proof.
  eexists. split; [reflexivity|].
  apply (proj1 (panel_direction Examples.sqrt_milli
                  (StockPrediction.predict Examples.page_api) "AAPL" _ eq_refl)).
  exists (Fin 102). repeat split.
Defined.

(** C2.  The claim fails on the dashboard panel, which evaluates the
    expression without the guard that [runPrediction] has.  For an answer with
    an empty predictions array the panel's confidence is NaN; for a flat
    forecast without a current price, read as 0, it is NaN; and for an answer
    with a current price of -1 it is 95.  On the same numbers the expression
    of [runPrediction] gives 50. *)
Theorem panel_confidence_misses_guard :
  (exists p : Prediction,
     generatePrediction Examples.sqrt_milli Examples.empty_forecast "AAPL" = Shown p /\
     predictions p = [] /\
     confidence p = NaN /\
     StockPrediction.confidence_of Examples.sqrt_milli (predictions p) (currentPrice p)
     = Fin 50) /\
  (exists p : Prediction,
     generatePrediction Examples.sqrt_milli Examples.missing_price "AAPL" = Shown p /\
     currentPrice p = Fin 0 /\
     confidence p = NaN /\
     StockPrediction.confidence_of Examples.sqrt_milli (predictions p) (currentPrice p)
     = Fin 50) /\
  (exists p : Prediction,
     generatePrediction Examples.sqrt_milli Examples.negative_price "AAPL" = Shown p /\
     currentPrice p = Fin (-1) /\
     confidence p = Fin 95 /\
     StockPrediction.confidence_of Examples.sqrt_milli (predictions p) (currentPrice p)
     = Fin 50).
Proof.
  split; [|split]; eexists; (split; [reflexivity|]); repeat split;
    vm_compute; reflexivity.
Qed.

End PanelProps.

(** ** The change and the trend of a shown forecast *)

Module ChangeProps.
Import JS StockPrediction.

(** A rounded percentage is negative only if the percentage is. *)
Lemma toFixed_value_negative (digits : nat) (q : Q) :
  ltb (toFixed_value digits (Fin q)) (Fin 0) = true -> (q < 0)%Q.
Proof.
  unfold toFixed_value. cbv zeta. intros H. apply JSFacts.ltb_Fin in H.
  destruct (Qle_bool 0 q) eqn:E.
  - exfalso.
    assert (Hp : (0 < pow10 digits)%Q).
    { unfold pow10. apply RsiProps.inject_Z_pos. apply Z.pow_pos_nonneg; lia. }
    assert (Hn : (0 <= inject_Z (Qfloor (Qabs q * pow10 digits + (1 # 2))))%Q).
    { change 0%Q with (inject_Z 0). rewrite <- Zle_Qle.
      change 0 with (Qfloor 0). apply Qfloor_resp_le.
      pose proof (Qabs_nonneg q).
      assert (0 <= Qabs q * pow10 digits)%Q by (apply Qmult_le_0_compat; lra).
      lra. }
    pose proof (RsiProps.Qdiv_nonneg _ _ Hn Hp) as H0.
    apply (Qlt_irrefl 0). now apply Qle_lt_trans with (2 := H).
  - apply Qnot_le_lt. intros Hq. apply Qle_bool_iff in Hq. congruence.
Qed.

Lemma toFixed_value_zero (digits : nat) :
  eqb (toFixed_value digits (Fin 0)) (Fin 0) = true.
Proof.
  unfold toFixed_value. cbv zeta. cbn [Qle_bool Qnum Qden Z.leb Z.mul Z.compare].
  apply JSFacts.eqb_Fin.
  assert (F : Qfloor (Qabs 0 * pow10 digits + (1 # 2)) = 0).
  { rewrite (Qfloor_comp _ (1 # 2)); [reflexivity|]. simpl Qabs. ring. }
  rewrite F. unfold Qdiv. apply Qmult_0_l.
Qed.

(** The trend and the stored change of a shown forecast, from the same
    first prediction and current price. *)
Lemma runPrediction_change (sqrtQ : Q -> Q) (api : Api)
  (stock tf model : string) (d : PredictionData) :
  runPrediction sqrtQ api stock tf model = Shown d ->
  let first := nullish (get (raw_predictions d) 0) (currentPrice d) in
  changePercent d = toFixed_value 2 (changePercent_of first (currentPrice d)) /\
  trend d = trend_of first (currentPrice d).
Proof.
  unfold runPrediction.
  destruct (String.eqb stock EmptyString); [discriminate|].
  destruct (getLatestStockData api stock); [|discriminate].
  destruct (predict api _) as [result|]; [|discriminate].
  destruct (getStockData api stock 250); [|discriminate].
  intros H. injection H as <-. split; reflexivity.
Qed.

(** The sign of the rounded change against the comparison of the trend. *)
Lemma change_and_trend (first cp : num) :
  (gtb (toFixed_value 2 (changePercent_of first cp)) (Fin 0) = true ->
   trend_of first cp = Bullish) /\
  (ltb (toFixed_value 2 (changePercent_of first cp)) (Fin 0) = true ->
   trend_of first cp = Bearish) /\
  (gtb cp (Fin 0) = false ->
   eqb (toFixed_value 2 (changePercent_of first cp)) (Fin 0) = true).
Proof.
  unfold changePercent_of, trend_of.
  destruct (gtb cp (Fin 0)) eqn:Gc.
  - split; [|split; [|discriminate]].
    + destruct cp as [c| | |]; try discriminate Gc.
      * apply JSFacts.gtb_Fin in Gc.
        destruct first as [f| | |]; try reflexivity.
        -- cbn [sub neg add]. rewrite JSFacts.div_Fin_pos by exact Gc.
           cbn [mul]. intros G. apply PanelProps.toFixed_value_positive in G.
           apply (PageProps.change_sign f c Gc) in G.
           now rewrite (proj2 (JSFacts.gtb_Fin f c) G).
        -- cbn [sub neg add div]. unfold sgn.
           rewrite (proj1 (Qgt_alt _ _) Gc). discriminate.
        -- discriminate.
      * destruct first; discriminate.
    + destruct cp as [c| | |]; try discriminate Gc.
      * apply JSFacts.gtb_Fin in Gc.
        destruct first as [f| | |]; try reflexivity.
        -- cbn [sub neg add]. rewrite JSFacts.div_Fin_pos by exact Gc.
           cbn [mul]. intros L. apply toFixed_value_negative in L.
           assert (Hfc : (f <= c)%Q).
           { apply Qnot_lt_le. intros Hlt.
             apply (PageProps.change_sign f c Gc) in Hlt.
             apply (Qlt_irrefl 0). now apply Qlt_trans with (1 := Hlt). }
           now rewrite (proj2 (JSFacts.gtb_Fin_false f c) Hfc).
        -- cbn [sub neg add div]. unfold sgn.
           rewrite (proj1 (Qgt_alt _ _) Gc). discriminate.
      * destruct first; discriminate.
  - split; [|split].
    + intros G. pose proof (toFixed_value_zero 2) as Z.
      apply TrendProps.eqb_not_gtb in Z. congruence.
    + intros L. pose proof (toFixed_value_zero 2) as Z.
      exfalso. revert L Z. generalize (toFixed_value 2 (Fin 0)).
      intros [q| | |]; try discriminate. intros L Z.
      apply JSFacts.ltb_Fin in L. apply JSFacts.eqb_Fin in Z. lra.
    + intros _. apply toFixed_value_zero.
Qed.

(** X7.  In a forecast shown by [runPrediction] the stored change, rounded
    to two decimals, and the trend never disagree in sign: a change above
    zero comes with Bullish and a change below zero with Bearish; with a
    current price that is not above zero the change is 0. *)
Theorem change_agrees_with_trend (sqrtQ : Q -> Q) (api : Api)
  (stock tf model : string) (d : PredictionData) :
  runPrediction sqrtQ api stock tf model = Shown d ->
  (gtb (changePercent d) (Fin 0) = true -> trend d = Bullish) /\
  (ltb (changePercent d) (Fin 0) = true -> trend d = Bearish) /\
  (gtb (currentPrice d) (Fin 0) = false -> eqb (changePercent d) (Fin 0) = true).
Proof.
  intros Hrun.
  destruct (runPrediction_change _ _ _ _ _ _ Hrun) as (-> & ->).
  apply change_and_trend.
Qed.

Lemma change_agrees_with_trend_witness :
  exists d, Examples.page_outcome = Shown d /\ trend d = Bullish.
Proof.
  eexists. split; [reflexivity|].
  apply (proj1 (change_agrees_with_trend Examples.sqrt_milli Examples.page_api
                  "AAPL" "3D" "LSTM" _ eq_refl)).
  vm_compute. reflexivity.
Defined.

(** The converse fails: a first prediction of 100.001 against a close of
    100 is Bullish with a stored change of 0. *)
Example bullish_with_zero_change :
  exists d,
    runPrediction Examples.sqrt_milli Examples.near_flat_api "AAPL" "1D" "LSTM"
    = Shown d /\
    trend d = Bullish /\ eqb (changePercent d) (Fin 0) = true.
Proof. eexists. split; [reflexivity|]. split; vm_compute; reflexivity. Qed.

End ChangeProps.

(** ** The Watchlist page *)

Module WatchlistProps.
Import Watchlist.

Lemma upper_ascii_idem (c : Ascii.ascii) :
  Alerts.upper_ascii (Alerts.upper_ascii c) = Alerts.upper_ascii c.
Proof. destruct c as [[] [] [] [] [] [] [] []]; reflexivity. Qed.

Lemma toUpperCase_idem (s : string) :
  Alerts.toUpperCase (Alerts.toUpperCase s) = Alerts.toUpperCase s.
Proof.
  induction s as [|c s IH]; [reflexivity|].
  simpl. now rewrite upper_ascii_idem, IH.
Qed.

Lemma existsb_symbol (l : list Stock) (x : string) :
  existsb (fun s => String.eqb (symbol s) x) l = true <-> In x (map symbol l).
Proof.
  rewrite existsb_exists, in_map_iff. split.
  - intros (s & Hin & E). apply String.eqb_eq in E. now exists s.
  - intros (s & E & Hin). exists s. split; [exact Hin|]. now apply String.eqb_eq.
Qed.

Lemma symbols_filter (l : list Stock) (x : string) :
  map symbol (filter (fun stock => negb (String.eqb (symbol stock) x)) l) =
  filter (fun y => negb (String.eqb y x)) (map symbol l).
Proof.
  induction l as [|s l IH]; [reflexivity|].
  simpl. destruct (String.eqb (symbol s) x); simpl; now rewrite IH.
Qed.

Lemma symbols_refresh (l : list Stock) (draw : Stock -> string * string * string) :
  map symbol
    (map (fun stock =>
            let '(p, c, cp) := draw stock in
            {| symbol := symbol stock;
               name := name stock;
               price := Text p;
               change := Text c;
               changePercent := Text cp;
               sentiment := sentiment stock;
               prediction := prediction stock;
               addedDate := addedDate stock |}) l) = map symbol l.
Proof.
  rewrite map_map. apply map_ext. intros s. now destruct (draw s) as [[p c] cp].
Qed.

Lemma filter_absent (l : list string) (x : string) :
  ~ In x l -> filter (fun y => negb (String.eqb y x)) l = l.
Proof.
  induction l as [|y l IH]; [reflexivity|].
  intros Hn. simpl. destruct (String.eqb y x) eqn:E.
  - apply String.eqb_eq in E. exfalso. apply Hn. now left.
  - simpl. rewrite IH; [reflexivity|]. intros Hin. apply Hn. now right.
Qed.

Lemma filter_stock_absent (l : list Stock) (x : string) :
  ~ In x (map symbol l) ->
  filter (fun stock => negb (String.eqb (symbol stock) x)) l = l.
Proof.
  induction l as [|s l IH]; [reflexivity|].
  intros Hn. simpl. destruct (String.eqb (symbol s) x) eqn:E.
  - apply String.eqb_eq in E. exfalso. apply Hn. now left.
  - simpl. rewrite IH; [reflexivity|]. intros Hin. apply Hn. now right.
Qed.

Lemma NoDup_filter (l : list string) (f : string -> bool) :
  NoDup l -> NoDup (filter f l).
Proof.
  induction 1 as [|y l Hn Hd IH]; [constructor|].
  simpl. destruct (f y); [|exact IH].
  constructor; [|exact IH]. intros Hin. apply Hn. now apply filter_In in Hin.
Qed.

(** The three outcomes of [addToWatchlist]. *)
Lemma addToWatchlist_cases (trim : string -> string) (st : State)
  (newStock : string) (fetched : option string) (random today : string) :
  let x := Alerts.toUpperCase (trim newStock) in
  let st' := addToWatchlist trim st newStock fetched random today in
  (x = EmptyString /\ st' = st) \/
  (x <> EmptyString /\ In x (symbols st) /\
   watchlist st' = watchlist st /\ stored st' = stored st /\
   addError st' = Some (String.append x " is already in your watchlist.")) \/
  (x <> EmptyString /\ ~ In x (symbols st) /\
   symbols st' = symbols st ++ [x] /\
   stored st' = Some (watchlist st') /\ addError st' = None /\
   exists stock, watchlist st' = watchlist st ++ [stock] /\ symbol stock = x).
Proof.
  cbv zeta. unfold addToWatchlist. cbv zeta.
  destruct (String.eqb (Alerts.toUpperCase (trim newStock)) EmptyString) eqn:E.
  - left. apply String.eqb_eq in E. now split.
  - right. apply String.eqb_neq in E.
    destruct (existsb _ (watchlist st)) eqn:X.
    + left. apply existsb_symbol in X. repeat split; assumption.
    + right. split; [exact E|]. split.
      * intros Hin. apply existsb_symbol in Hin. congruence.
      * cbn [watchlist stored addError]. unfold symbols. cbn [watchlist].
        rewrite map_app. repeat split. eexists. split; reflexivity.
Qed.

Lemma step_symbols_NoDup (trim : string -> string) (st : State) (a : Action) :
  NoDup (symbols st) -> NoDup (symbols (step trim st a)).
Proof.
  intros Hd. destruct a as [newStock fetched random today | x | draw]; cbn [step].
  - destruct (addToWatchlist_cases trim st newStock fetched random today)
      as [(_ & ->) | [(_ & _ & Hw & _) | (_ & Hn & Hs & _)]].
    + exact Hd.
    + unfold symbols. now rewrite Hw.
    + rewrite Hs. apply NoDup_app; repeat split.
      * exact Hd.
      * constructor; [intros []|constructor].
      * intros y Hy [<-|[]]. contradiction.
  - unfold symbols, removeFromWatchlist. cbn [watchlist].
    rewrite symbols_filter. now apply NoDup_filter.
  - unfold symbols, refreshPrices. cbn [watchlist]. now rewrite symbols_refresh.
Qed.

Lemma step_in_step (trim : string -> string) (st : State) (a : Action) :
  in_step st -> in_step (step trim st a).
Proof.
  intros (Hst & Hall).
  destruct a as [newStock fetched random today | x | draw]; cbn [step].
  - destruct (addToWatchlist_cases trim st newStock fetched random today)
      as [(_ & ->) | [(_ & _ & Hw & Hs & _) | (Hne & _ & Hs & Hsto & _)]].
    + now split.
    + split; [now rewrite Hs, Hw|]. unfold symbols. now rewrite Hw.
    + split; [exact Hsto|]. rewrite Hs. apply Forall_app. split; [exact Hall|].
      constructor; [|constructor]. split; [exact Hne|apply toUpperCase_idem].
  - split; [reflexivity|]. unfold symbols, removeFromWatchlist. cbn [watchlist].
    rewrite symbols_filter. apply Forall_forall. intros y Hy.
    apply filter_In in Hy. destruct Hy as [Hy _].
    exact (proj1 (Forall_forall _ _) Hall y Hy).
  - split; [reflexivity|]. unfold symbols, refreshPrices. cbn [watchlist].
    now rewrite symbols_refresh.
Qed.

Lemma run_actions_inv (P : State -> Prop) (trim : string -> string) :
  (forall st a, P st -> P (step trim st a)) ->
  forall actions st, P st -> P (run_actions trim actions st).
Proof.
  intros Hstep actions. unfold run_actions.
  induction actions as [|a actions IH]; intros st H; [exact H|].
  simpl. apply IH. now apply Hstep.
Qed.

Lemma default_in_step : in_step (loadWatchlist None).
Proof.
  split; [reflexivity|]. repeat constructor; discriminate.
Qed.

Lemma default_NoDup : NoDup (symbols (loadWatchlist None)).
Proof.
  repeat constructor; simpl; intuition discriminate.
Qed.

Lemma valid_symbols (l : list Stock) :
  Forall (fun x => x <> EmptyString /\ Alerts.toUpperCase x = x) (map symbol l) ->
  filter (fun s => negb (String.eqb s EmptyString))
         (map (fun s => Alerts.toUpperCase (JS.nullish s EmptyString))
              (map (fun s => Some (symbol s)) l)) = map symbol l.
Proof.
  induction l as [|s l IH]; [reflexivity|].
  intros H. inversion H as [|? ? (Hne & Hup) Hrest]; subst.
  cbn [map JS.nullish filter]. rewrite Hup.
  apply String.eqb_neq in Hne. rewrite Hne. cbn [negb]. now rewrite IH.
Qed.

(** X24.  The symbols of the watchlist stay distinct: from a list without a
    repeated symbol, no sequence of adding, removing and refreshing produces
    one, whatever the texts typed and the prices drawn. *)
Theorem symbols_stay_distinct (trim : string -> string) (actions : list Action)
  (st : State) :
  NoDup (symbols st) ->
  NoDup (symbols (run_actions trim actions st)).
Proof.
  apply (run_actions_inv (fun st => NoDup (symbols st))).
  intros st' a. apply step_symbols_NoDup.
Qed.

Lemma symbols_stay_distinct_witness :
  NoDup (symbols
           (run_actions (fun s => s)
              [Add "tsla" None "120.50" "2025-02-01";
               Add "TSLA" (Some "250.00"%string) "99.00" "2025-02-02";
               Remove "GOOGL"]
              (loadWatchlist None))).
Proof.
  apply (symbols_stay_distinct (fun s => s)). exact default_NoDup.
Defined.

(** X25.  Adding a symbol: an input that is empty after trimming changes
    nothing; a symbol already listed changes neither the list nor the saved
    item and sets the error text; otherwise one row with the upper-cased
    symbol is appended and saved, and removing that symbol afterwards gives
    the list back.  After a removal the symbol is not in the list. *)
Theorem add_and_remove (trim : string -> string) (st : State)
  (newStock : string) (fetched : option string) (random today : string) :
  let x := Alerts.toUpperCase (trim newStock) in
  let st' := addToWatchlist trim st newStock fetched random today in
  (x = EmptyString -> st' = st) /\
  (x <> EmptyString -> In x (symbols st) ->
   watchlist st' = watchlist st /\ stored st' = stored st /\
   addError st' = Some (String.append x " is already in your watchlist.")) /\
  (x <> EmptyString -> ~ In x (symbols st) ->
   symbols st' = symbols st ++ [x] /\
   stored st' = Some (watchlist st') /\
   watchlist (removeFromWatchlist st' x) = watchlist st) /\
  (forall y, ~ In y (symbols (removeFromWatchlist st y))).
Proof.
  cbv zeta.
  pose proof (addToWatchlist_cases trim st newStock fetched random today) as H.
  cbv zeta in H.
  split; [|split; [|split]].
  - intros E. destruct H as [(_ & H) | [(Hne & _) | (Hne & _)]];
      [exact H | contradiction | contradiction].
  - intros Hne Hin. destruct H as [(E & _) | [(_ & _ & H) | (_ & Hn & _)]];
      [contradiction | exact H | contradiction].
  - intros Hne Hn.
    destruct H as [(E & _) | [(_ & Hin & _) | (_ & _ & Hs & Hsto & _ & stock & Hw & Hx)]];
      [contradiction | contradiction |].
    split; [exact Hs|]. split; [exact Hsto|].
    unfold removeFromWatchlist. cbn [watchlist]. rewrite Hw, filter_app.
    rewrite (filter_stock_absent _ _ Hn). cbn [filter]. rewrite Hx.
    rewrite String.eqb_refl. cbn [negb]. apply app_nil_r.
  - intros y Hin. unfold symbols, removeFromWatchlist in Hin. cbn [watchlist] in Hin.
    rewrite symbols_filter in Hin. apply filter_In in Hin.
    destruct Hin as [_ Hin]. now rewrite String.eqb_refl in Hin.
Qed.

(** X26.  The Alerts page follows the watchlist as this page saves it: in a
    browser without a saved watchlist, after any sequence of adding, removing
    and refreshing, a run of [loadAlerts] works on the first eight symbols of
    the list, in the order of the list, or on AAPL, GOOGL, MSFT once the list
    has been emptied. *)
Theorem alerts_follow_watchlist (trim : string -> string) (actions : list Action) :
  let st := run_actions trim actions (loadWatchlist None) in
  NoDup (symbols st) /\
  Alerts.run_symbols (saved_symbols st) =
    match watchlist st with
    | [] => ["AAPL"; "GOOGL"; "MSFT"]%string
    | _ => firstn 8 (symbols st)
    end.
Proof.
  cbv zeta. split.
  - apply (run_actions_inv (fun st => NoDup (symbols st)));
      [intros st a; apply step_symbols_NoDup | exact default_NoDup].
  - destruct (run_actions_inv in_step trim (step_in_step trim) actions _ default_in_step)
      as (Hst & Hall).
    unfold saved_symbols. rewrite Hst. rewrite RunShapeProps.run_symbols_shape.
    cbv zeta. rewrite (valid_symbols _ Hall). unfold symbols.
    destruct (watchlist (run_actions trim actions (loadWatchlist None))) as [|s l];
      [reflexivity|].
    unfold JS.length. cbn [map List.length].
    replace (Z.of_nat (S (List.length (map symbol l))) =? 0) with false
      by (symmetry; apply Z.eqb_neq; lia).
    reflexivity.
Qed.

End WatchlistProps.

(** ** Binary64 rounding is monotone *)

Module Binary64Props.
Import JS Binary64.

Lemma pow2_pos (e : Z) : (0 < 2 ^ e)%Q.
Proof. apply Qpower_0_lt. reflexivity. Qed.

Lemma pow2_add (a b : Z) : (2 ^ (a + b) == 2 ^ a * 2 ^ b)%Q.
Proof. apply Qpower_plus. discriminate. Qed.

Lemma pow2_le (a b : Z) : a <= b -> (2 ^ a <= 2 ^ b)%Q.
Proof. intros H. apply Qpower_le_compat_l; [exact H|discriminate]. Qed.

Lemma pow2_lt (a b : Z) : a < b -> (2 ^ a < 2 ^ b)%Q.
Proof. intros H. apply Qpower_lt_compat_l; [exact H|reflexivity]. Qed.

Lemma pow2_Z (n : Z) : 0 <= n -> (inject_Z (2 ^ n) == 2 ^ n)%Q.
Proof. intros H. now rewrite Zpower_Qpower. Qed.

(** A quotient against a quotient of powers of two. *)
Lemma ilog2_spec (q : Q) :
  (0 < q)%Q -> (2 ^ ilog2 q <= q)%Q /\ (q < 2 ^ (ilog2 q + 1))%Q.
Proof.
  intros Hq. unfold ilog2. cbv zeta.
  destruct q as [n d]. cbn [Qnum Qden].
  assert (Hn : 0 < n) by (unfold Qlt in Hq; simpl in Hq; lia).
  set (a := Z.log2 n). set (b := Z.log2 (Z.pos d)).
  destruct (Z.log2_spec n Hn) as [Ha1 Ha2]. fold a in Ha1, Ha2.
  destruct (Z.log2_spec (Z.pos d) (Pos2Z.is_pos d)) as [Hb1 Hb2]. fold b in Hb1, Hb2.
  assert (Ha0 : 0 <= a) by apply Z.log2_nonneg.
  assert (Hb0 : 0 <= b) by apply Z.log2_nonneg.
  assert (Hnd : (n # d == inject_Z n / inject_Z (Z.pos d))%Q) by apply Qmake_Qdiv.
  assert (Hd : (0 < inject_Z (Z.pos d))%Q) by (unfold Qlt; simpl; lia).
  assert (Hup : (n # d < 2 ^ (a - b + 1))%Q).
  { rewrite Hnd. apply Qlt_shift_div_r; [exact Hd|].
    apply Qlt_le_trans with (inject_Z (2 ^ Z.succ a)).
    - rewrite <- Zlt_Qlt. exact Ha2.
    - rewrite pow2_Z by lia.
      replace (Z.succ a) with ((a - b + 1) + b) by lia.
      rewrite pow2_add. apply Qmult_le_l; [apply pow2_pos|].
      rewrite <- pow2_Z by lia. rewrite <- Zle_Qle. exact Hb1. }
  assert (Hlo : (2 ^ (a - b - 1) <= n # d)%Q).
  { rewrite Hnd. apply Qle_shift_div_l; [exact Hd|].
    apply Qle_trans with (inject_Z (2 ^ a)).
    - rewrite pow2_Z by lia.
      replace a with ((a - b - 1) + Z.succ b) at 2 by lia.
      rewrite pow2_add. apply Qmult_le_l; [apply pow2_pos|].
      rewrite <- pow2_Z by lia. rewrite <- Zle_Qle. lia.
    - rewrite <- Zle_Qle. exact Ha1. }
  destruct (Qle_bool (2 ^ (a - b)) (n # d)) eqn:E.
  - apply Qle_bool_iff in E. split; assumption.
  - split; [exact Hlo|].
    replace (a - b - 1 + 1) with (a - b) by lia.
    apply Qnot_le_lt. intros H. apply Qle_bool_iff in H. congruence.
Qed.

Lemma ilog2_unique (q : Q) (k : Z) :
  (2 ^ k <= q)%Q -> (q < 2 ^ (k + 1))%Q -> ilog2 q = k.
Proof.
  intros Hlo Hhi.
  assert (Hq : (0 < q)%Q) by (apply Qlt_le_trans with (2 ^ k)%Q; [apply pow2_pos|exact Hlo]).
  destruct (ilog2_spec q Hq) as [Slo Shi].
  assert (H1 : ilog2 q < k + 1).
  { apply (Qpower_lt_compat_l_inv 2); [|reflexivity].
    apply Qle_lt_trans with q; assumption. }
  assert (H2 : k < ilog2 q + 1).
  { apply (Qpower_lt_compat_l_inv 2); [|reflexivity].
    apply Qle_lt_trans with q; assumption. }
  lia.
Qed.

Lemma ilog2_mono (a b : Q) : (0 < a)%Q -> (a <= b)%Q -> ilog2 a <= ilog2 b.
Proof.
  intros Ha Hab.
  assert (Hb : (0 < b)%Q) by (apply Qlt_le_trans with a; assumption).
  destruct (ilog2_spec a Ha) as [Alo _], (ilog2_spec b Hb) as [_ Bhi].
  assert (H : ilog2 a < ilog2 b + 1).
  { apply (Qpower_lt_compat_l_inv 2); [|reflexivity].
    apply Qle_lt_trans with a; [exact Alo|].
    apply Qle_lt_trans with b; assumption. }
  lia.
Qed.

Lemma ilog2_comp (a b : Q) : (0 < a)%Q -> (a == b)%Q -> ilog2 a = ilog2 b.
Proof.
  intros Ha E. destruct (ilog2_spec a Ha) as [Alo Ahi].
  symmetry. apply ilog2_unique; now rewrite <- E.
Qed.

(** *** Rounding to an integer *)

Lemma rne_bounds (x : Q) : Qfloor x <= rne x <= Qfloor x + 1.
Proof.
  unfold rne. cbv zeta. destruct (x - inject_Z (Qfloor x) ?= 1 # 2)%Q;
    [destruct (Z.even (Qfloor x))| |]; lia.
Qed.

Lemma rne_mono (x y : Q) : (x <= y)%Q -> rne x <= rne y.
Proof.
  intros Hxy. pose proof (Qfloor_resp_le x y Hxy) as Hf.
  pose proof (rne_bounds x) as Bx. pose proof (rne_bounds y) as By.
  destruct (Z.eq_dec (Qfloor x) (Qfloor y)) as [E|N]; [|lia].
  unfold rne in *. cbv zeta in *. rewrite <- E in *.
  set (f := Qfloor x) in *.
  destruct (x - inject_Z f ?= 1 # 2)%Q eqn:Cx;
    destruct (y - inject_Z f ?= 1 # 2)%Q eqn:Cy;
    try (destruct (Z.even f)); try lia;
    first [apply (proj2 (Qeq_alt _ _)) in Cx | apply (proj2 (Qlt_alt _ _)) in Cx
          | apply (proj2 (Qgt_alt _ _)) in Cx];
    first [apply (proj2 (Qeq_alt _ _)) in Cy | apply (proj2 (Qlt_alt _ _)) in Cy
          | apply (proj2 (Qgt_alt _ _)) in Cy];
    exfalso; lra.
Qed.

Lemma rne_Z (n : Z) (x : Q) : (x == inject_Z n)%Q -> rne x = n.
Proof.
  intros E. unfold rne. cbv zeta.
  rewrite (Qfloor_comp _ _ E), Qfloor_Z.
  assert (H : (x - inject_Z n ?= 1 # 2)%Q = Lt).
  { apply (proj1 (Qlt_alt _ _)). rewrite E. unfold Qminus. rewrite Qplus_opp_r. reflexivity. }
  now rewrite H.
Qed.

(** *** Mantissa and exponent *)

Lemma expo_mono (a b : Q) : (0 < a)%Q -> (a <= b)%Q -> expo a <= expo b.
Proof.
  intros Ha Hab. unfold expo. pose proof (ilog2_mono a b Ha Hab). lia.
Qed.

Lemma scaled_le (x y : Q) (e : Z) : (x <= y * 2 ^ e)%Q -> (x / 2 ^ e <= y)%Q.
Proof.
  intros H. apply Qle_shift_div_r; [apply pow2_pos|exact H].
Qed.

Lemma scaled_ge (x y : Q) (e : Z) : (y * 2 ^ e <= x)%Q -> (y <= x / 2 ^ e)%Q.
Proof. intros H. apply Qle_shift_div_l; [apply pow2_pos|exact H]. Qed.

Lemma mant_upper (q : Q) : (0 < q)%Q -> mant q <= 2 ^ 53.
Proof.
  intros Hq. unfold mant.
  assert (R : rne (inject_Z (2 ^ 53)) = 2 ^ 53) by (apply rne_Z; apply Qeq_refl).
  rewrite <- R at 1. clear R.
  apply rne_mono, scaled_le.
  rewrite pow2_Z by lia. rewrite <- pow2_add.
  destruct (ilog2_spec q Hq) as [_ Hhi].
  apply Qlt_le_weak, Qlt_le_trans with (1 := Hhi).
  apply pow2_le. unfold expo. lia.
Qed.

Lemma mant_lower (q : Q) :
  (0 < q)%Q -> expo q = ilog2 q - 52 -> 2 ^ 52 <= mant q.
Proof.
  intros Hq He. unfold mant.
  assert (R : rne (inject_Z (2 ^ 52)) = 2 ^ 52) by (apply rne_Z; apply Qeq_refl).
  rewrite <- R at 1. clear R.
  apply rne_mono, scaled_ge.
  rewrite pow2_Z by lia. rewrite <- pow2_add.
  destruct (ilog2_spec q Hq) as [Hlo _].
  apply Qle_trans with (2 := Hlo). apply pow2_le. lia.
Qed.

Lemma mant_nonneg (q : Q) : (0 < q)%Q -> 0 <= mant q.
Proof.
  intros Hq. unfold mant.
  rewrite <- (rne_Z 0 (inject_Z 0)) by reflexivity.
  apply rne_mono, scaled_ge. rewrite Qmult_0_l. now apply Qlt_le_weak.
Qed.

Lemma value_nonneg (q : Q) : (0 < q)%Q -> (0 <= value q)%Q.
Proof.
  intros Hq. unfold value. apply Qmult_le_0_compat.
  - change 0%Q with (inject_Z 0). rewrite <- Zle_Qle. now apply mant_nonneg.
  - apply Qlt_le_weak, pow2_pos.
Qed.

Lemma value_mono (a b : Q) : (0 < a)%Q -> (a <= b)%Q -> (value a <= value b)%Q.
Proof.
  intros Ha Hab.
  assert (Hb : (0 < b)%Q) by (apply Qlt_le_trans with a; assumption).
  pose proof (expo_mono a b Ha Hab) as He. unfold value.
  destruct (Z.eq_dec (expo a) (expo b)) as [E|N].
  - rewrite <- E. apply Qmult_le_compat_r; [|apply Qlt_le_weak, pow2_pos].
    rewrite <- Zle_Qle. unfold mant. rewrite <- E.
    apply rne_mono. apply Qmult_le_compat_r; [exact Hab|].
    apply Qlt_le_weak, Qinv_lt_0_compat, pow2_pos.
  - assert (Hnorm : expo b = ilog2 b - 52) by (unfold expo in *; lia).
    apply Qle_trans with (2 ^ 53 * 2 ^ expo a)%Q.
    + apply Qmult_le_compat_r; [|apply Qlt_le_weak, pow2_pos].
      rewrite <- pow2_Z by lia. rewrite <- Zle_Qle. now apply mant_upper.
    + apply Qle_trans with (2 ^ 52 * 2 ^ expo b)%Q.
      * rewrite <- !pow2_add. apply pow2_le. lia.
      * apply Qmult_le_compat_r; [|apply Qlt_le_weak, pow2_pos].
        rewrite <- pow2_Z by lia. rewrite <- Zle_Qle. now apply mant_lower.
Qed.

Lemma value_comp (a b : Q) : (0 < a)%Q -> (a == b)%Q -> (value a == value b)%Q.
Proof.
  intros Ha E. assert (Hb : (0 < b)%Q) by now rewrite <- E.
  apply Qle_antisym; apply value_mono;
    [exact Ha | rewrite E; apply Qle_refl | exact Hb | rewrite E; apply Qle_refl].
Qed.

(** *** The rounding is monotone *)

Lemma round_pos_cases (q : Q) :
  (round_pos q = PInf /\ (2 ^ 1024 <= value q)%Q) \/
  (round_pos q = Fin (Qred (value q)) /\ (value q < 2 ^ 1024)%Q).
Proof.
  unfold round_pos. destruct (Qle_bool (2 ^ 1024) (value q)) eqn:E.
  - left. split; [reflexivity|]. now apply Qle_bool_iff.
  - right. split; [reflexivity|]. apply Qnot_le_lt. intros H.
    apply Qle_bool_iff in H. congruence.
Qed.

Lemma round_pos_nonneg (q : Q) : (0 < q)%Q -> leb (Fin 0) (round_pos q) = true.
Proof.
  intros Hq. destruct (round_pos_cases q) as [[-> _] | [-> _]]; [reflexivity|].
  apply JSFacts.leb_Fin. rewrite Qred_correct. now apply value_nonneg.
Qed.

Lemma round_pos_mono (a b : Q) :
  (0 < a)%Q -> (a <= b)%Q -> leb (round_pos a) (round_pos b) = true.
Proof.
  intros Ha Hab. pose proof (value_mono a b Ha Hab) as Hv.
  destruct (round_pos_cases a) as [[-> Va] | [-> Va]],
           (round_pos_cases b) as [[-> Vb] | [-> Vb]]; try reflexivity.
  - exfalso. lra.
  - apply JSFacts.leb_Fin. now rewrite !Qred_correct.
Qed.

Lemma leb_neg (a b : num) : leb a b = true -> leb (neg b) (neg a) = true.
Proof.
  destruct a as [x| | |], b as [y| | |]; cbn [neg]; try discriminate; try reflexivity.
  intros H. apply JSFacts.leb_Fin in H. apply JSFacts.leb_Fin.
  now apply Qopp_le_compat.
Qed.

Lemma leb_trans (a b c : num) : leb a b = true -> leb b c = true -> leb a c = true.
Proof.
  destruct a as [x| | |], b as [y| | |], c as [z| | |];
    try discriminate; try reflexivity.
  intros H1 H2. apply JSFacts.leb_Fin in H1. apply JSFacts.leb_Fin in H2.
  apply JSFacts.leb_Fin. now apply Qle_trans with y.
Qed.

Lemma round_sign (q : Q) :
  ((q < 0)%Q -> leb (round q) (Fin 0) = true) /\
  ((0 <= q)%Q -> leb (Fin 0) (round q) = true).
Proof.
  unfold round. destruct (q ?= 0)%Q eqn:C.
  - split; reflexivity.
  - apply (proj2 (Qlt_alt _ _)) in C. split; [intros _|intros H; exfalso; lra].
    apply (leb_neg (Fin 0) (round_pos (- q))), round_pos_nonneg. lra.
  - apply (proj2 (Qgt_alt _ _)) in C. split; [intros H; exfalso; lra|intros _].
    now apply round_pos_nonneg.
Qed.

Theorem round_mono (a b : Q) : (a <= b)%Q -> leb (round a) (round b) = true.
Proof.
  intros Hab.
  destruct (Qlt_le_dec a 0) as [Ha|Ha], (Qlt_le_dec b 0) as [Hb|Hb].
  - unfold round.
    rewrite (proj1 (Qlt_alt _ _) Ha), (proj1 (Qlt_alt _ _) Hb).
    apply leb_neg, round_pos_mono; lra.
  - apply leb_trans with (Fin 0); now apply round_sign.
  - exfalso. lra.
  - destruct (Qeq_dec a 0) as [E|N].
    + unfold round at 1. rewrite (proj1 (Qeq_alt _ _) E). now apply round_sign.
    + assert (Ha' : (0 < a)%Q) by (apply RsiProps.Qnonneg_nonzero_pos; assumption).
      assert (Hb' : (0 < b)%Q) by lra.
      unfold round.
      rewrite (proj1 (Qgt_alt _ _) Ha'), (proj1 (Qgt_alt _ _) Hb').
      now apply round_pos_mono.
Qed.

(** On the sample operands the four rounded operations return what the
    kernel's binary64 operations return. *)
Example round_agrees_with_the_kernel :
  forallb (fun p => Kernel.agree_all (fst p) (snd p)) Kernel.samples = true.
Proof. vm_compute. reflexivity. Qed.

(** So does [computeRSI] on the two series on which the claimed range and
    the claimed rule for 100 fail. *)
Example rsi_agrees_with_the_kernel :
  option_map Kernel.of_float (Kernel.computeRSI Kernel.dip_and_rise 2)
  = Rounded.computeRSI round (Some (map Kernel.of_float Kernel.dip_and_rise)) 2 /\
  option_map Kernel.of_float (Kernel.computeRSI Kernel.alternating 14)
  = Rounded.computeRSI round (Some (map Kernel.of_float Kernel.alternating)) 14 /\
  Kernel.computeRSI Kernel.dip_and_rise 2 = Some Kernel.hundred /\
  map Kernel.of_float Kernel.dip_and_rise
  = map Fin [100; 7036874417766399 # 70368744177664; 400]%Q.
Proof. repeat split; vm_compute; reflexivity. Qed.

Lemma round_0 : round 0 = Fin 0.
Proof. reflexivity. Qed.

Lemma round_1 : round 1 = Fin 1.
Proof. vm_compute. reflexivity. Qed.

Lemma round_100 : round 100 = Fin 100.
Proof. vm_compute. reflexivity. Qed.

(** In binary64 the mean of three values 0.1 is above 0.1, for the simple
    and for the exponential moving average, and the mean of two values
    [2^1023] is Infinity. *)
Example binary64_means :
  let tenth := (3602879701896397 # 36028797018963968)%Q in
  let above := (7205759403792795 # 72057594037927936)%Q in
  round (1 # 10) = Fin tenth /\
  Rounded.computeSMA round (Some [Fin tenth; Fin tenth; Fin tenth]) 3 = Some (Fin above) /\
  Rounded.computeEMA round (Some [Fin tenth; Fin tenth; Fin tenth]) 3 = Some (Fin above) /\
  (tenth < above)%Q /\
  Rounded.computeSMA round
    (Some [Fin (inject_Z (2 ^ 1023)); Fin (inject_Z (2 ^ 1023))]) 2 = Some PInf.
Proof.
  cbv zeta. repeat split; vm_compute; reflexivity.
Qed.

(** *** Representable numbers *)

Lemma eta_pos : (0 < eta)%Q.
Proof. apply pow2_pos. Qed.

Lemma round_pos_value (q z : Q) :
  round_pos q = Fin z -> (z == value q)%Q /\ (value q < 2 ^ 1024)%Q.
Proof.
  intros H. destruct (round_pos_cases q) as [[E _] | [E Hv]]; [congruence|].
  assert (Hz : z = Qred (value q)) by congruence.
  split; [rewrite Hz; apply Qred_correct | exact Hv].
Qed.

(** A value of the rounding is a whole number of [2^-1074]. *)
Lemma value_multiple (q : Q) :
  exists k : Z, (value q == inject_Z k * eta)%Q.
Proof.
  exists (mant q * 2 ^ (expo q + 1074)). unfold value, eta.
  rewrite inject_Z_mult, pow2_Z by (unfold expo; lia).
  rewrite <- Qmult_assoc, <- pow2_add.
  replace (expo q + 1074 + -1074) with (expo q) by lia. reflexivity.
Qed.

Lemma representable_multiple (q : Q) :
  representable q -> exists k : Z, (q == inject_Z k * eta)%Q.
Proof.
  intros (z & Hz & E). unfold round in Hz.
  destruct (q ?= 0)%Q eqn:C.
  - exists 0. apply (proj2 (Qeq_alt _ _)) in C. rewrite C. ring.
  - destruct (round_pos (- q)) as [w| | |] eqn:Ew; try discriminate Hz.
    assert (Hzw : z = (- w)%Q) by (cbn [neg] in Hz; congruence).
    destruct (round_pos_value _ _ Ew) as [Hw _].
    destruct (value_multiple (- q)) as (k & Hk). exists (- k).
    rewrite inject_Z_opp. rewrite <- E, Hzw, Hw, Hk. ring.
  - destruct (round_pos_value _ _ Hz) as [Hw _].
    destruct (value_multiple q) as (k & Hk). exists k.
    now rewrite <- E, Hw.
Qed.

(** The small multiples of [2^-1074] are representable. *)
Lemma small_multiple (k : Z) :
  0 <= k < 2 ^ 53 -> representable (inject_Z k * eta).
Proof.
  intros Hk. set (q := (inject_Z k * eta)%Q).
  destruct (Z.eq_dec k 0) as [-> | Hne].
  - exists 0%Q. split; [|unfold q; ring].
    unfold round. replace (q ?= 0)%Q with Eq; [reflexivity|].
    symmetry. apply Qeq_alt. unfold q. ring.
  - assert (Hkq : (0 < inject_Z k)%Q) by (apply RsiProps.inject_Z_pos; lia).
    assert (Hq : (0 < q)%Q) by (apply Qmult_lt_0_compat; [exact Hkq|apply eta_pos]).
    assert (Hup : (q < 2 ^ (-1021))%Q).
    { unfold q, eta. replace (-1021) with (53 + -1074) by lia. rewrite pow2_add.
      apply Qmult_lt_compat_r; [apply pow2_pos|].
      rewrite <- pow2_Z by lia. rewrite <- Zlt_Qlt. lia. }
    assert (He : expo q = -1074).
    { unfold expo. destruct (ilog2_spec q Hq) as [Hlo _].
      assert (ilog2 q < -1021).
      { apply (Qpower_lt_compat_l_inv 2); [|reflexivity].
        now apply Qle_lt_trans with q. }
      lia. }
    assert (Hm : mant q = k).
    { unfold mant. rewrite He. apply rne_Z. unfold q, eta.
      field. apply Qnot_eq_sym, Qlt_not_eq, pow2_pos. }
    assert (Hv : (value q == q)%Q).
    { unfold value. rewrite Hm, He. reflexivity. }
    exists (Qred (value q)). split; [|now rewrite Qred_correct].
    unfold round. rewrite (proj1 (Qgt_alt _ _) Hq).
    destruct (round_pos_cases q) as [[_ Hbig] | [E _]]; [|exact E].
    exfalso. rewrite Hv in Hbig.
    assert (2 ^ (-1021) < 2 ^ 1024)%Q by (apply pow2_lt; lia). lra.
Qed.

Lemma round_pos_comp (a b : Q) :
  (0 < a)%Q -> (a == b)%Q -> round_pos a = round_pos b.
Proof.
  intros Ha E. pose proof (value_comp a b Ha E) as Hv. unfold round_pos.
  assert (Hb : Qle_bool (2 ^ 1024) (value a) = Qle_bool (2 ^ 1024) (value b)).
  { destruct (Qle_bool (2 ^ 1024) (value b)) eqn:B.
    - apply Qle_bool_iff. rewrite Hv. now apply Qle_bool_iff.
    - destruct (Qle_bool (2 ^ 1024) (value a)) eqn:A; [|reflexivity].
      apply Qle_bool_iff in A. rewrite Hv in A. apply Qle_bool_iff in A. congruence. }
  rewrite Hb. destruct (Qle_bool (2 ^ 1024) (value b)); [reflexivity|].
  f_equal. now apply Qred_complete.
Qed.

Lemma round_comp (a b : Q) : (a == b)%Q -> round a = round b.
Proof.
  intros E. unfold round. rewrite (Qcompare_comp a b E 0%Q 0%Q (Qeq_refl 0%Q)).
  destruct (b ?= 0)%Q eqn:C; [reflexivity| |].
  - apply (proj2 (Qlt_alt _ _)) in C. f_equal.
    apply round_pos_comp; [lra|now rewrite E].
  - apply (proj2 (Qgt_alt _ _)) in C. apply round_pos_comp; [lra|exact E].
Qed.

Lemma representable_comp (a b : Q) :
  (a == b)%Q -> representable a -> representable b.
Proof.
  intros E (z & Hz & Ez). exists z. split; [now rewrite <- (round_comp a b E)|].
  now rewrite <- E.
Qed.

Lemma leb_Fin_l (x : Q) (a : num) :
  leb (Fin x) a = true -> a = PInf \/ exists y : Q, a = Fin y /\ (x <= y)%Q.
Proof.
  destruct a as [y| | |]; try discriminate; [|now left].
  intros H. right. exists y. split; [reflexivity|]. now apply JSFacts.leb_Fin.
Qed.

(** At or above a representable bound after rounding. *)
Lemma round_above (b q : Q) :
  representable b -> (b <= q)%Q ->
  round q = PInf \/ exists y : Q, round q = Fin y /\ (b <= y)%Q.
Proof.
  intros (z & Hz & E) Hq. pose proof (round_mono b q Hq) as H.
  rewrite Hz in H. apply leb_Fin_l in H.
  destruct H as [H | (y & Hy & Hzy)]; [now left|].
  right. exists y. split; [exact Hy|]. now rewrite <- E.
Qed.

End Binary64Props.

(** ** Exact arithmetic is the rounding that changes nothing *)

Module ExactProps.
Import JS.

Lemma rnd_Fin (a : num) : Rounded.rnd Fin a = a.
Proof. now destruct a. Qed.

Lemma for_range_ext {S : Type} (f g : Z -> S -> S) (n : nat) (i : Z) (s : S) :
  (forall k x, f k x = g k x) -> for_range n i f s = for_range n i g s.
Proof.
  intros H. revert i s. induction n as [|n IH]; intros i s; [reflexivity|].
  cbn [for_range]. now rewrite H, IH.
Qed.

Lemma sum_exact (l : list num) : Rounded.sum Fin l = sum l.
Proof.
  unfold Rounded.sum, sum. generalize (Fin 0).
  induction l as [|v l IH]; intros s; [reflexivity|].
  cbn [fold_left]. unfold Rounded.add at 2. now rewrite rnd_Fin, IH.
Qed.

(** With no rounding the three indicator functions are the ones of
    [StockPrediction]. *)
Lemma indicators_exact (values : option (list num)) (period : Z) :
  Rounded.computeSMA Fin values period = StockPrediction.computeSMA values period /\
  Rounded.computeEMA Fin values period = StockPrediction.computeEMA values period /\
  Rounded.computeRSI Fin values period = StockPrediction.computeRSI values period.
Proof.
  destruct values as [values|]; [|repeat split].
  split; [|split].
  - unfold Rounded.computeSMA, StockPrediction.computeSMA.
    destruct (length values <? period); [reflexivity|].
    unfold Rounded.div. now rewrite rnd_Fin, sum_exact.
  - unfold Rounded.computeEMA, StockPrediction.computeEMA.
    destruct (length values <? period); [reflexivity|].
    unfold Rounded.div, for_loop. rewrite !rnd_Fin, sum_exact. f_equal.
    apply for_range_ext. intros k x.
    unfold Rounded.add, Rounded.mul, Rounded.sub. now rewrite !rnd_Fin.
  - unfold Rounded.computeRSI, StockPrediction.computeRSI.
    destruct (length values <? period + 1); [reflexivity|].
    unfold Rounded.rsi_averages, Rounded.rsi_sums, for_loop.
    rewrite (for_range_ext (Rounded.rsi_step Fin values)
               (StockPrediction.rsi_step values)).
    + destruct (for_range _ _ (StockPrediction.rsi_step values) (Fin 0, Fin 0))
        as [gains losses].
      unfold Rounded.div, Rounded.sub, Rounded.add. now rewrite !rnd_Fin.
    + intros k [g l]. unfold Rounded.rsi_step, StockPrediction.rsi_step.
      unfold Rounded.sub, Rounded.add. now rewrite !rnd_Fin.
Qed.

End ExactProps.

(** ** The RSI loop under a monotone rounding *)

Module RoundedProps.
Import JS.

Section Laws.

Variable round : Q -> num.
Hypothesis round_mono : forall a b : Q, (a <= b)%Q -> leb (round a) (round b) = true.
Hypothesis round_0 : round 0 = Fin 0.
Hypothesis round_1 : round 1 = Fin 1.
Hypothesis round_100 : round 100 = Fin 100.

Lemma leb_NaN_r (a : num) : leb a NaN = false.
Proof. now destruct a. Qed.

Lemma round_not_NaN (q : Q) : round q <> NaN.
Proof.
  intros E. pose proof (round_mono q q (Qle_refl q)) as H.
  rewrite E in H. discriminate H.
Qed.

(** A result between two numbers that round to themselves. *)
Lemma round_between (lo hi lo' hi' q : Q) :
  round lo = Fin lo' -> round hi = Fin hi' ->
  (lo <= q)%Q -> (q <= hi)%Q ->
  exists z : Q, round q = Fin z /\ (lo' <= z)%Q /\ (z <= hi')%Q.
Proof.
  intros Elo Ehi Hlo Hhi.
  pose proof (round_mono lo q Hlo) as H1. pose proof (round_mono q hi Hhi) as H2.
  rewrite Elo in H1. rewrite Ehi in H2.
  destruct (round q) as [z| | |]; try discriminate.
  exists z. split; [reflexivity|].
  split; now apply JSFacts.leb_Fin.
Qed.

Lemma round_zero (q : Q) : (q == 0)%Q -> exists z : Q, round q = Fin z /\ (z == 0)%Q.
Proof.
  intros E.
  destruct (round_between 0 0 0 0 q round_0 round_0) as (z & Hz & Hlo & Hhi);
    try (rewrite E; apply Qle_refl).
  exists z. split; [exact Hz|]. now apply Qle_antisym.
Qed.

(** Not below zero: a finite number that is not negative, or Infinity. *)
Lemma nn_cases (a : num) :
  geb a (Fin 0) = true <-> a = PInf \/ exists q : Q, a = Fin q /\ (0 <= q)%Q.
Proof.
  destruct a as [q| | |]; split; try discriminate;
    try (intros [H|(x & Hx & _)]; discriminate).
  - intros H. right. exists q. split; [reflexivity|]. now apply JSFacts.geb_Fin.
  - intros [H|(x & Hx & H0)]; [discriminate|]. injection Hx as ->.
    now apply JSFacts.geb_Fin.
  - now left.
  - reflexivity.
Qed.

Lemma round_nn (q : Q) : (0 <= q)%Q -> geb (round q) (Fin 0) = true.
Proof. intros H. unfold geb. rewrite <- round_0. now apply round_mono. Qed.

Lemma radd_nn (a b : num) :
  geb a (Fin 0) = true -> geb b (Fin 0) = true -> geb (Rounded.add round a b) (Fin 0) = true.
Proof.
  intros Ha Hb. apply nn_cases in Ha. apply nn_cases in Hb.
  destruct Ha as [-> | (x & -> & Hx)], Hb as [-> | (y & -> & Hy)];
    try reflexivity.
  unfold Rounded.add. cbn [JS.add Rounded.rnd]. apply round_nn. lra.
Qed.







Lemma rdiv_period_nn (a : num) (period : Z) :
  0 < period -> geb a (Fin 0) = true -> geb (Rounded.div round a (of_Z period)) (Fin 0) = true.
Proof.
  intros Hp Ha. pose proof (RsiProps.inject_Z_pos period Hp) as Hip.
  apply nn_cases in Ha. destruct Ha as [-> | (x & -> & Hx)].
  - unfold Rounded.div, of_Z. cbn [JS.div]. unfold sgn.
    now rewrite (proj1 (Qgt_alt _ _) Hip).
  - unfold Rounded.div, of_Z. rewrite JSFacts.div_Fin_pos by exact Hip.
    cbn [Rounded.rnd]. apply round_nn. now apply RsiProps.Qdiv_nonneg.
Qed.


(** [100 - 100 / (1 + rs)] for a relative strength that is not negative. *)
Lemma rsi_value_nn (rs : num) :
  geb rs (Fin 0) = true ->
  exists x : Q,
    Rounded.sub round (Fin 100) (Rounded.div round (Fin 100) (Rounded.add round (Fin 1) rs))
    = Fin x /\ (0 <= x)%Q /\ (x <= 100)%Q.
Proof.
  intros Hrs.
  assert (Hinf : exists x : Q,
             Rounded.sub round (Fin 100) (Rounded.div round (Fin 100) PInf) = Fin x /\
             (0 <= x)%Q /\ (x <= 100)%Q).
  { unfold Rounded.div. cbn [JS.div Rounded.rnd]. rewrite round_0.
    unfold Rounded.sub. cbn [JS.sub neg JS.add Rounded.rnd].
    destruct (round_between 0 100 0 100 (100 + - 0)%Q round_0 round_100)
      as (z & -> & Hz); [lra|lra|]. now exists z. }
  apply nn_cases in Hrs. destruct Hrs as [-> | (q & -> & Hq)]; [exact Hinf|].
  unfold Rounded.add at 1. cbn [JS.add Rounded.rnd].
  pose proof (round_mono 1 (1 + q)%Q) as H1. rewrite round_1 in H1.
  specialize (H1 ltac:(lra)).
  destruct (round (1 + q)) as [t| | |] eqn:Et; try discriminate H1; [|exact Hinf].
  apply JSFacts.leb_Fin in H1.
  unfold Rounded.div. rewrite JSFacts.div_Fin_pos by lra. cbn [Rounded.rnd].
  assert (Hu0 : (0 <= 100 / t)%Q) by (apply RsiProps.Qdiv_nonneg; lra).
  assert (Hu1 : (100 / t <= 100)%Q) by (apply Qle_shift_div_r; lra).
  destruct (round_between 0 100 0 100 (100 / t)%Q round_0 round_100 Hu0 Hu1)
    as (u & -> & Hu & Hu').
  unfold Rounded.sub. cbn [JS.sub neg JS.add Rounded.rnd].
  destruct (round_between 0 100 0 100 (100 + - u)%Q round_0 round_100)
    as (z & -> & Hz); [lra|lra|]. now exists z.
Qed.


Lemma rdiv_nn_or_NaN (a b : num) :
  geb a (Fin 0) = true \/ a = NaN ->
  geb b (Fin 0) = true \/ b = NaN ->
  eqb b (Fin 0) = false ->
  geb (Rounded.div round a b) (Fin 0) = true \/ Rounded.div round a b = NaN.
Proof.
  intros [Ha | ->] [Hb | ->] Hz; try (now right); [|right; now destruct a].
  apply nn_cases in Ha. apply nn_cases in Hb.
  destruct Ha as [-> | (x & -> & Hx)], Hb as [-> | (y & -> & Hy)].
  - now right.
  - left. unfold Rounded.div. cbn [JS.div]. unfold sgn.
    destruct (y ?= 0)%Q eqn:C; try reflexivity.
    apply (proj2 (Qlt_alt _ _)) in C. exfalso. lra.
  - left. unfold Rounded.div. cbn [JS.div Rounded.rnd]. now rewrite round_0.
  - left. assert (Hy' : (0 < y)%Q).
    { apply RsiProps.Qnonneg_nonzero_pos; [exact Hy|]. intros E.
      apply JSFacts.eqb_Fin in E. congruence. }
    unfold Rounded.div. rewrite JSFacts.div_Fin_pos by exact Hy'.
    cbn [Rounded.rnd]. apply round_nn. now apply RsiProps.Qdiv_nonneg.
Qed.


(** *** Finite series *)

Lemma abs_nn (d : num) : d <> NaN -> geb (Math_abs d) (Fin 0) = true.
Proof.
  destruct d as [q| | |]; cbn [Math_abs]; try reflexivity; [|contradiction].
  intros _. apply JSFacts.geb_Fin. apply Qabs_nonneg.
Qed.

(** The difference the loop takes at a valid index of a finite series. *)
Lemma diff_Fin (qs : list Q) (k : nat) :
  (1 <= k < List.length qs)%nat ->
  Rounded.sub round (toNumber (get (map Fin qs) (Z.of_nat k)))
                    (toNumber (get (map Fin qs) (Z.of_nat k - 1)))
  = round (Finite.diff_at qs k).
Proof.
  intros Hk. rewrite RsiProps.get_Fin by lia.
  replace (Z.of_nat k - 1) with (Z.of_nat (k - 1)) by lia.
  rewrite RsiProps.get_Fin by lia. reflexivity.
Qed.

Lemma rsi_step_finite (qs : list Q) (k : nat) (g l : num) :
  (1 <= k < List.length qs)%nat ->
  geb g (Fin 0) = true -> geb l (Fin 0) = true ->
  geb (fst (Rounded.rsi_step round (map Fin qs) (Z.of_nat k) (g, l))) (Fin 0) = true /\
  geb (snd (Rounded.rsi_step round (map Fin qs) (Z.of_nat k) (g, l))) (Fin 0) = true.
Proof.
  intros Hk Hg Hl. unfold Rounded.rsi_step. rewrite diff_Fin by exact Hk.
  destruct (geb (round (Finite.diff_at qs k)) (Fin 0)) eqn:E; cbn [fst snd].
  - split; [now apply radd_nn | exact Hl].
  - split; [exact Hg|]. apply radd_nn; [exact Hl|]. apply abs_nn, round_not_NaN.
Qed.

(** A difference that is not negative goes to the gains. *)
Lemma rsi_step_gain (qs : list Q) (k : nat) (g l : num) :
  (1 <= k < List.length qs)%nat -> (0 <= Finite.diff_at qs k)%Q ->
  snd (Rounded.rsi_step round (map Fin qs) (Z.of_nat k) (g, l)) = l.
Proof.
  intros Hk Hd. unfold Rounded.rsi_step. rewrite diff_Fin by exact Hk.
  now rewrite (round_nn _ Hd).
Qed.

Lemma rsi_fold_finite (qs : list Q) (ks : list nat) (s : num * num) :
  Forall (fun k => (1 <= k < List.length qs)%nat) ks ->
  geb (fst s) (Fin 0) = true -> geb (snd s) (Fin 0) = true ->
  let s' := fold_left (fun s k => Rounded.rsi_step round (map Fin qs) (Z.of_nat k) s)
                      ks s in
  geb (fst s') (Fin 0) = true /\ geb (snd s') (Fin 0) = true /\
  (Forall (fun k => (0 <= Finite.diff_at qs k)%Q) ks -> snd s' = snd s).
Proof.
  cbv zeta. intros Hks. revert s.
  induction Hks as [|k ks Hk _ IH]; intros [g l] Hg Hl; cbn [fold_left fst snd].
  - repeat split; assumption.
  - destruct (rsi_step_finite qs k g l Hk Hg Hl) as [Hg' Hl'].
    pose proof (rsi_step_gain qs k g l Hk) as Hgain.
    destruct (Rounded.rsi_step round (map Fin qs) (Z.of_nat k) (g, l)) as [g' l'].
    cbn [fst snd] in *. destruct (IH (g', l') Hg' Hl') as (A & B & C).
    split; [exact A|]. split; [exact B|].
    intros Hall. inversion Hall as [|? ? Hd Hrest]; subst.
    rewrite (C Hrest). cbn [snd]. now apply Hgain.
Qed.

Lemma rsi_sums_finite (qs : list Q) (period : Z) :
  0 < period -> period + 1 <= length qs ->
  let s := Rounded.rsi_sums round (map Fin qs) period in
  geb (fst s) (Fin 0) = true /\ geb (snd s) (Fin 0) = true /\
  (Forall (fun d => (0 <= d)%Q) (Spec.last_diffs qs (Z.to_nat period)) ->
   snd s = Fin 0).
Proof.
  cbv zeta. intros Hp Hlen. unfold Rounded.rsi_sums, for_loop, length in *.
  rewrite length_map. set (n := List.length qs) in *.
  replace (Z.to_nat (Z.of_nat n - (Z.of_nat n - period))) with (Z.to_nat period) by lia.
  replace (Z.of_nat n - period) with (Z.of_nat (n - Z.to_nat period)) by lia.
  rewrite RsiProps.for_range_seq.
  destruct (rsi_fold_finite qs (seq (n - Z.to_nat period) (Z.to_nat period))
              (Fin 0, Fin 0)) as (A & B & C); try reflexivity.
  { apply Forall_forall. intros k Hk. apply in_seq in Hk. fold n. lia. }
  split; [exact A|]. split; [exact B|].
  intros Hall. apply C. unfold Spec.last_diffs in Hall. fold n in Hall.
  rewrite Forall_map in Hall. exact Hall.
Qed.


Lemma rdiv_nn (a b : num) :
  geb a (Fin 0) = true -> geb b (Fin 0) = true -> eqb b (Fin 0) = false ->
  (a = PInf /\ b = PInf) \/ geb (Rounded.div round a b) (Fin 0) = true.
Proof.
  intros Ha Hb Hz.
  destruct (rdiv_nn_or_NaN a b (or_introl Ha) (or_introl Hb) Hz) as [H | H];
    [now right|].
  apply nn_cases in Ha. apply nn_cases in Hb.
  destruct Ha as [-> | (x & -> & Hx)], Hb as [-> | (y & -> & Hy)];
    [now left | exfalso | exfalso | exfalso]; revert H; unfold Rounded.div; cbn [JS.div].
  - unfold sgn. now destruct (y ?= 0)%Q.
  - cbn [Rounded.rnd]. apply round_not_NaN.
  - assert (E : Qeq_bool y 0 = false) by exact Hz. rewrite E.
    cbn [Rounded.rnd]. apply round_not_NaN.
Qed.

(** On a finite series NaN comes from overflow alone. *)
Lemma computeRSI_finite (qs : list Q) (period : Z) :
  0 < period -> period + 1 <= length qs ->
  (Forall (fun d => (0 <= d)%Q) (Spec.last_diffs qs (Z.to_nat period)) ->
   Rounded.computeRSI round (Some (map Fin qs)) period = Some (Fin 100)) /\
  (Rounded.computeRSI round (Some (map Fin qs)) period = Some NaN ->
   Rounded.rsi_averages round (map Fin qs) period = (PInf, PInf)).
Proof.
  intros Hp Hlen.
  destruct (rsi_sums_finite qs period Hp Hlen) as (Hg & Hl & Hno).
  unfold Rounded.computeRSI.
  assert (Hlen' : (length (map Fin qs) <? period + 1) = false).
  { apply Z.ltb_ge. unfold length in *. rewrite length_map. exact Hlen. }
  rewrite Hlen'. unfold Rounded.rsi_averages.
  destruct (Rounded.rsi_sums round (map Fin qs) period) as [g l]. cbn [fst snd] in *.
  pose proof (rdiv_period_nn g period Hp Hg) as Hag.
  pose proof (rdiv_period_nn l period Hp Hl) as Hal.
  split.
  - intros Hall. rewrite (Hno Hall).
    assert (Hz : exists z : Q,
               Rounded.div round (Fin 0) (of_Z period) = Fin z /\ (z == 0)%Q).
    { unfold Rounded.div, of_Z.
      rewrite JSFacts.div_Fin_pos by now apply RsiProps.inject_Z_pos.
      cbn [Rounded.rnd]. apply round_zero. unfold Qdiv. apply Qmult_0_l. }
    destruct Hz as (z & -> & Hz).
    now rewrite (proj2 (JSFacts.eqb_Fin z 0) Hz).
  - destruct (eqb (Rounded.div round l (of_Z period)) (Fin 0)) eqn:E; [discriminate|].
    destruct (rdiv_nn _ _ Hag Hal E) as [[-> ->] | Hrs]; [reflexivity|].
    destruct (rsi_value_nn _ Hrs) as (x & -> & _). discriminate.
Qed.

End Laws.

End RoundedProps.

(** ** [computeRSI] in binary64 *)

Module RsiBinary64Props.
Import JS Binary64 Binary64Props.





(** The difference of two binary64 numbers does not round to zero. *)
Lemma falling_diff (a b : Q) :
  representable a -> representable b -> (a - b < 0)%Q ->
  let d := round (a - b) in
  geb d (Fin 0) = false /\
  (Math_abs d = PInf \/ exists y : Q, Math_abs d = Fin y /\ (eta <= y)%Q).
Proof.
  cbv zeta. intros Ha Hb Hlt.
  destruct (representable_multiple a Ha) as (ka & Eka).
  destruct (representable_multiple b Hb) as (kb & Ekb).
  assert (Hk : ka - kb <= -1).
  { assert (H : (inject_Z (ka - kb) * eta < 0)%Q).
    { unfold Z.sub. rewrite inject_Z_plus, inject_Z_opp.
      setoid_replace ((inject_Z ka + - inject_Z kb) * eta)%Q
        with (inject_Z ka * eta - inject_Z kb * eta)%Q by ring.
      now rewrite <- Eka, <- Ekb. }
    assert (Hz : (inject_Z (ka - kb) < inject_Z 0)%Q).
    { apply Qnot_le_lt. intros Hge. change (inject_Z 0) with 0%Q in Hge.
      pose proof (Qmult_le_0_compat _ _ Hge (Qlt_le_weak _ _ eta_pos)). lra. }
    rewrite <- Zlt_Qlt in Hz. lia. }
  assert (Hd : (eta <= - (a - b))%Q).
  { rewrite Eka, Ekb.
    setoid_replace (- (inject_Z ka * eta - inject_Z kb * eta))%Q
      with (inject_Z (kb - ka) * eta)%Q
      by (unfold Z.sub; rewrite inject_Z_plus, inject_Z_opp; ring).
    rewrite <- (Qmult_1_l eta) at 1.
    apply Qmult_le_compat_r; [|apply Qlt_le_weak, eta_pos].
    change 1%Q with (inject_Z 1). rewrite <- Zle_Qle. lia. }
  assert (Hrep : representable eta).
  { apply (representable_comp (inject_Z 1 * eta)); [apply Qmult_1_l|].
    apply small_multiple. lia. }
  unfold round at 1 2 3.
  rewrite (proj1 (Qlt_alt _ _) Hlt).
  assert (Hpos : (0 < - (a - b))%Q) by (pose proof eta_pos; lra).
  pose proof (round_above eta (- (a - b)) Hrep Hd) as Hab.
  unfold round in Hab. rewrite (proj1 (Qgt_alt _ _) Hpos) in Hab.
  destruct Hab as [-> | (y & -> & Hy)]; cbn [neg Math_abs].
  - split; [reflexivity|now left].
  - split.
    + apply JSFacts.geb_Fin_false. pose proof eta_pos. lra.
    + right. exists (Qabs (- y)). split; [reflexivity|].
      rewrite Qabs_opp, Qabs_pos; [exact Hy|]. pose proof eta_pos. lra.
Qed.

(** *** The loop on a series that falls at every step *)

(** At or above [b]: a finite number not below [b], or Infinity. *)
Lemma add_above (j : Z) (l a : num) :
  0 <= j -> j + 1 < 2 ^ 53 ->
  leb (Fin (inject_Z j * eta)) l = true ->
  leb (Fin eta) a = true ->
  leb (Fin (inject_Z (j + 1) * eta)) (Rounded.add round l a) = true.
Proof.
  intros Hj Hj' Hl Ha.
  apply leb_Fin_l in Hl. apply leb_Fin_l in Ha.
  destruct Hl as [-> | (x & -> & Hx)], Ha as [-> | (y & -> & Hy)];
    try reflexivity.
  unfold Rounded.add. cbn [JS.add Rounded.rnd].
  assert (Hsum : (inject_Z (j + 1) * eta <= x + y)%Q).
  { rewrite inject_Z_plus. change (inject_Z 1) with 1%Q. lra. }
  destruct (round_above _ _ (small_multiple (j + 1) ltac:(lia)) Hsum)
    as [-> | (w & -> & Hw)]; [reflexivity|].
  now apply JSFacts.leb_Fin.
Qed.

Lemma rsi_step_loss (qs : list Q) (k : nat) (g l : num) :
  Forall representable qs ->
  (1 <= k < List.length qs)%nat -> (Finite.diff_at qs k < 0)%Q ->
  exists a : num,
    Rounded.rsi_step round (map Fin qs) (Z.of_nat k) (g, l)
    = (g, Rounded.add round l a) /\
    leb (Fin eta) a = true.
Proof.
  intros Hrep Hk Hd. unfold Rounded.rsi_step.
  rewrite (RoundedProps.diff_Fin round qs k Hk).
  assert (Hnth : forall i, (i < List.length qs)%nat -> representable (nth i qs 0%Q)).
  { intros i Hi. rewrite Forall_forall in Hrep. apply Hrep. now apply nth_In. }
  destruct (falling_diff (nth k qs 0%Q) (nth (k - 1) qs 0%Q)
              (Hnth k ltac:(lia)) (Hnth (k - 1)%nat ltac:(lia)) Hd) as [Hneg Habs].
  unfold Finite.diff_at. rewrite Hneg.
  eexists. split; [reflexivity|].
  destruct Habs as [-> | (y & -> & Hy)]; [reflexivity|].
  now apply JSFacts.leb_Fin.
Qed.

Lemma rsi_fold_loss (qs : list Q) (ks : list nat) (j : Z) (g l : num) :
  Forall representable qs ->
  Forall (fun k => (1 <= k < List.length qs)%nat /\ (Finite.diff_at qs k < 0)%Q) ks ->
  0 <= j -> j + Z.of_nat (List.length ks) < 2 ^ 53 ->
  leb (Fin (inject_Z j * eta)) l = true ->
  exists l' : num,
    fold_left (fun s k => Rounded.rsi_step round (map Fin qs) (Z.of_nat k) s) ks (g, l)
    = (g, l') /\
    leb (Fin (inject_Z (j + Z.of_nat (List.length ks)) * eta)) l' = true.
Proof.
  intros Hrep Hks. revert j l.
  induction Hks as [|k ks [Hk Hd] _ IH]; intros j l Hj Hlen Hl.
  - exists l. split; [reflexivity|]. cbn [List.length]. now rewrite Z.add_0_r.
  - cbn [fold_left List.length] in *.
    destruct (rsi_step_loss qs k g l Hrep Hk Hd) as (a & -> & Ha).
    destruct (IH (j + 1) (Rounded.add round l a)) as (l' & Hfold & Hl');
      [lia | lia | apply add_above; [lia | lia | exact Hl | exact Ha] |].
    exists l'. split; [exact Hfold|].
    replace (j + Z.of_nat (S (List.length ks)))
      with (j + 1 + Z.of_nat (List.length ks)) by lia.
    exact Hl'.
Qed.

Lemma rsi_sums_loss (qs : list Q) (period : Z) :
  0 < period < 2 ^ 53 -> period + 1 <= length qs ->
  Forall representable qs ->
  Forall (fun d => (d < 0)%Q) (Spec.last_diffs qs (Z.to_nat period)) ->
  exists l : num,
    Rounded.rsi_sums round (map Fin qs) period = (Fin 0, l) /\
    leb (Fin (inject_Z period * eta)) l = true.
Proof.
  intros Hp Hlen Hrep Hall. unfold Rounded.rsi_sums, for_loop, length in *.
  rewrite length_map. set (n := List.length qs) in *.
  replace (Z.to_nat (Z.of_nat n - (Z.of_nat n - period))) with (Z.to_nat period) by lia.
  replace (Z.of_nat n - period) with (Z.of_nat (n - Z.to_nat period)) by lia.
  rewrite RsiProps.for_range_seq.
  destruct (rsi_fold_loss qs (seq (n - Z.to_nat period) (Z.to_nat period)) 0
              (Fin 0) (Fin 0) Hrep) as (l & Hfold & Hl).
  - unfold Spec.last_diffs in Hall. fold n in Hall. rewrite Forall_map in Hall.
    rewrite Forall_forall in *. intros k Hk. split.
    + apply in_seq in Hk. fold n. lia.
    + exact (Hall k Hk).
  - lia.
  - rewrite length_seq. lia.
  - apply JSFacts.leb_Fin. rewrite Qmult_0_l. apply Qle_refl.
  - exists l. split; [exact Hfold|].
    rewrite length_seq in Hl. now replace (0 + Z.of_nat (Z.to_nat period)) with period in Hl by lia.
Qed.

Lemma round_eq (c q : Q) (c' : Q) :
  round c = Fin c' -> (q == c)%Q -> round q = Fin c'.
Proof. intros Hc E. now rewrite (round_comp q c E). Qed.

(** X5.  On a series of binary64 numbers, [computeRSI] is exactly 100
    when no difference among the last [period] is negative (a flat series
    included), and exactly 0 when every one of them is negative. *)
Theorem rsi_of_monotone_series (qs : list Q) (period : Z) :
  0 < period < 2 ^ 53 -> period + 1 <= length qs ->
  Forall representable qs ->
  (Forall (fun d => (0 <= d)%Q) (Spec.last_diffs qs (Z.to_nat period)) ->
   Rounded.computeRSI round (Some (map Fin qs)) period = Some (Fin 100)) /\
  (Forall (fun d => (d < 0)%Q) (Spec.last_diffs qs (Z.to_nat period)) ->
   Rounded.computeRSI round (Some (map Fin qs)) period = Some (Fin 0)).
Proof.
  intros Hp Hlen Hrep. split.
  - apply (RoundedProps.computeRSI_finite round round_mono round_0 round_1 round_100
             qs period); [lia|exact Hlen].
  - intros Hall.
    destruct (rsi_sums_loss qs period Hp Hlen Hrep Hall) as (l & Hsums & Hl).
    assert (Hip : (0 < inject_Z period)%Q) by (apply RsiProps.inject_Z_pos; lia).
    unfold Rounded.computeRSI.
    assert (Hlen' : (length (map Fin qs) <? period + 1) = false).
    { apply Z.ltb_ge. unfold length in *. rewrite length_map. exact Hlen. }
    rewrite Hlen'. unfold Rounded.rsi_averages. rewrite Hsums.
    assert (HavgG : Rounded.div round (Fin 0) (of_Z period) = Fin 0).
    { unfold Rounded.div, of_Z. rewrite JSFacts.div_Fin_pos by exact Hip.
      cbn [Rounded.rnd]. apply (round_eq 0); [reflexivity|].
      unfold Qdiv. apply Qmult_0_l. }
    assert (HavgL : leb (Fin eta) (Rounded.div round l (of_Z period)) = true).
    { apply leb_Fin_l in Hl. destruct Hl as [-> | (x & -> & Hx)].
      - unfold Rounded.div, of_Z. cbn [JS.div]. unfold sgn.
        now rewrite (proj1 (Qgt_alt _ _) Hip).
      - unfold Rounded.div, of_Z. rewrite JSFacts.div_Fin_pos by exact Hip.
        cbn [Rounded.rnd].
        assert (Hrep_eta : representable eta).
        { apply (representable_comp (inject_Z 1 * eta)); [apply Qmult_1_l|].
          apply small_multiple. lia. }
        assert (Hq : (eta <= x / inject_Z period)%Q).
        { apply Qle_shift_div_l; [exact Hip|]. now rewrite Qmult_comm. }
        destruct (round_above _ _ Hrep_eta Hq) as [-> | (w & -> & Hw)];
          [reflexivity | now apply JSFacts.leb_Fin]. }
    rewrite HavgG.
    apply leb_Fin_l in HavgL.
    assert (Hrs : Rounded.div round (Fin 0) (Rounded.div round l (of_Z period)) = Fin 0
                  /\ eqb (Rounded.div round l (of_Z period)) (Fin 0) = false).
    { destruct HavgL as [-> | (y & -> & Hy)].
      - split; reflexivity.
      - pose proof eta_pos as He.
        assert (Hy0 : (0 < y)%Q) by lra. split.
        + unfold Rounded.div. rewrite JSFacts.div_Fin_pos by exact Hy0.
          cbn [Rounded.rnd]. apply (round_eq 0); [reflexivity|].
          unfold Qdiv. apply Qmult_0_l.
        + apply not_true_is_false. intros E. apply JSFacts.eqb_Fin in E. lra. }
    destruct Hrs as [-> ->].
    unfold Rounded.add. cbn [JS.add Rounded.rnd].
    rewrite (round_eq 1 (1 + 0) 1 round_1) by ring.
    unfold Rounded.div. rewrite JSFacts.div_Fin_pos by reflexivity.
    cbn [Rounded.rnd].
    rewrite (round_eq 100 (100 / 1) 100 round_100) by (field).
    unfold Rounded.sub. cbn [JS.sub neg JS.add Rounded.rnd].
    now rewrite (round_eq 0 (100 + Qopp 100) 0 round_0) by ring.
Qed.

Lemma rsi_of_monotone_series_witness :
  Rounded.computeRSI round (Some (map Fin [5; 4; 3; 2]%Q)) 3 = Some (Fin 0).
Proof.
  assert (Hp : 0 < 3 < 2 ^ 53) by lia.
  assert (Hlen : 3 + 1 <= length [5; 4; 3; 2]%Q) by (unfold length; simpl; lia).
  assert (Hrep : Forall representable [5; 4; 3; 2]%Q).
  { repeat constructor; eexists; (split; [vm_compute; reflexivity | reflexivity]). }
  apply (proj2 (rsi_of_monotone_series [5; 4; 3; 2]%Q 3 Hp Hlen Hrep)).
  repeat constructor.
Defined.

End RsiBinary64Props.
